(** * Sliding-window sync: request algebra and connection state

    A shallow embedding of the request-merging code ([Request.ApplyDelta],
    [RequestList.CalculateMoveIndexes]) and of the per-connection state
    machine ([ConnState]) of the sync3 package, with the properties the
    specification states about them; then the other functions of the
    request code, the typing filter, the op replay tool and two room
    matchers of the tests, with properties read off the code.

    Conventions of the embedding.
    - Go's [int] and [int64] are [Z]; no arithmetic is performed on them by
      the modelled code apart from comparisons, so no wrap-around arises,
      and the conversions [int(..)] / [int64(..)] are the identity.
    - A Go slice that the code tests against [nil] is an [option (list A)]:
      [None] is the nil slice, [Some []] the allocated empty one.  Both have
      length 0 and range over no element.
    - A Go map is a [gmap]; reading a nil map behaves as reading [∅].
    - A Go pointer to a struct that is only read is the struct itself, an
      optional one when the code tests the pointer against [nil].
    - [%v] and [%d] of an integer in a formatted message are [pretty]. *)

From Stdlib Require Import ZArith.
From stdpp Require Import gmap strings list fin_maps sorting pretty.

Local Open Scope Z_scope.

(** ** Slices *)

Definition slice (A : Type) : Type := option (list A).

Definition elems {A} (s : slice A) : list A := default [] s.

(** [len(s)] *)
Definition len {A} (s : slice A) : Z := Z.of_nat (length (elems s)).

(** A window [[lo, hi]], Go's [[2]int64]. *)
Definition Range : Type := Z * Z.

Definition covers (r : Range) (i : Z) : Prop := r.1 ≤ i ∧ i ≤ r.2.

Global Instance covers_dec r i : Decision (covers r i).
Proof. unfold covers. apply _. Defined.

(** The range values are pairwise disjoint position by position: the
    invariant the data model puts on the ranges of one list. *)
Definition NonOverlapping (rs : list Range) : Prop :=
  ∀ (i j : nat) r1 r2 x,
    rs !! i = Some r1 → rs !! j = Some r2 → covers r1 x → covers r2 x → i = j.

Module SliceRanges.

(** Modelled from the spec: [SliceRanges.Inside] (the type [SliceRanges]
    and its methods are not among the sources).  "true iff lo ≤ i ≤ hi for
    some range; returns the covering range."  The ranges are searched in
    order; when none covers [i] the zero range comes back with [false]. *)
Definition Inside (rs : list Range) (i : Z) : Range * bool :=
  match List.find (λ r, bool_decide (covers r i)) rs with
  | Some r => (r, true)
  | None => ((0, 0), false)
  end.

(** Modelled from the spec: [SliceRanges.SliceInto].  "yields subsequences
    of seq whose absolute positions fall inside each range, preserving
    range order": one subsequence per range. *)
Definition SliceInto {A} (rs : list Range) (s : list A) : list (list A) :=
  (λ r : Range,
     take (Z.to_nat (r.2 + 1) - Z.to_nat r.1)%nat (drop (Z.to_nat r.1) s)) <$> rs.

(** Modelled from the spec: [SliceRanges.LowerClamp], with the caller's
    description "clamp the index to the highest end-range marker < index";
    [-1] when there is none. *)
Definition LowerClamp (rs : list Range) (i : Z) : Z :=
  foldl (λ clampIndex (r : Range),
           if decide (clampIndex < r.2 ∧ r.2 < i) then r.2 else clampIndex)
        (-1) rs.

End SliceRanges.

(** ** Requests (src/unnamed/part_000) *)

Definition SortByName : string := "by_name".
Definition SortByRecency : string := "by_recency".
Definition SortByNotificationCount : string := "by_notification_count".
Definition SortByHighlightCount : string := "by_highlight_count".

Definition DefaultTimelineLimit : Z := 20.

Record RoomSubscription : Type := mkRoomSubscription {
  RequiredState : slice (string * string);
  TimelineLimit : Z;
}.

Record RequestFilters : Type := mkRequestFilters {
  Spaces : slice string;
  IsDM : option bool;
  IsEncrypted : option bool;
  IsInvite : option bool;
  IsTombstoned : option bool;
  RoomTypes : slice (option string);
  NotRoomTypes : slice (option string);
  RoomNameFilter : string;
  Tags : slice string;
}.

(** [RequestList] embeds a [RoomSubscription]. *)
Record RequestList : Type := mkRequestList {
  rlRoomSubscription : RoomSubscription;
  Ranges : slice Range;
  Sort : slice string;
  Filters : option RequestFilters;
  SlowGetAllRooms : option bool;
}.

Definition rlRequiredState (rl : RequestList) := RequiredState (rlRoomSubscription rl).
Definition rlTimelineLimit (rl : RequestList) := TimelineLimit (rlRoomSubscription rl).

Definition setSort (s : slice string) (rl : RequestList) : RequestList :=
  {| rlRoomSubscription := rlRoomSubscription rl; Ranges := Ranges rl; Sort := s;
     Filters := Filters rl; SlowGetAllRooms := SlowGetAllRooms rl |}.

Global Instance RoomSubscription_eq_dec : EqDecision RoomSubscription.
Proof. solve_decision. Defined.
Global Instance RequestFilters_eq_dec : EqDecision RequestFilters.
Proof. solve_decision. Defined.
Global Instance RequestList_eq_dec : EqDecision RequestList.
Proof. solve_decision. Defined.

(** *** Move geometry *)

Section MoveIndexes.

(** [SliceRanges.ClosestInDirection] is not among the sources; the move
    computation is parametric in it. *)
Variable ClosestInDirection : list Range → Z → bool → Z.

(** [jumpedOverRanges]: the ranges whose two bounds lie strictly between
    the lower and the higher of the two indexes. *)
Definition jumpedOverRanges (rl : RequestList) (fromIndex toIndex : Z) : list Range :=
  let hi := if decide (fromIndex < toIndex) then toIndex else fromIndex in
  let lo := if decide (fromIndex < toIndex) then fromIndex else toIndex in
  foldl (λ jumped (r : Range),
           if decide (lo < r.1 ∧ r.1 < hi ∧ lo < r.2 ∧ r.2 < hi)
           then jumped ++ [r] else jumped)
        [] (elems (Ranges rl)).

(** The pair appended for one jumped-over range. *)
Definition jumpPair (fromIndex toIndex : Z) (r : Range) : Z * Z :=
  if decide (toIndex < fromIndex) then (r.2, r.1) else (r.1, r.2).

Definition appendJumps (fromIndex toIndex : Z)
    (fromTos : list (Z * Z)) (jumped : list Range) : list (Z * Z) :=
  foldl (λ acc r, acc ++ [jumpPair fromIndex toIndex r]) fromTos jumped.

(** [CalculateMoveIndexes]; the nil result of the "not ok" return is the
    empty list. *)
Definition CalculateMoveIndexes (rl : RequestList) (fromIndex toIndex : Z)
    : list (Z * Z) * bool :=
  let '(fromRng, isFromInsideRange) := SliceRanges.Inside (elems (Ranges rl)) fromIndex in
  let '(toRng, isToInsideRange) := SliceRanges.Inside (elems (Ranges rl)) toIndex in
  if isFromInsideRange && isToInsideRange && bool_decide (fromRng = toRng) then
    ([(fromIndex, toIndex)], true)
  else if negb isFromInsideRange && negb isToInsideRange then
    let jumped := jumpedOverRanges rl fromIndex toIndex in
    if decide (length jumped = 0%nat) then ([], false)
    else (appendJumps fromIndex toIndex [] jumped, true)
  else
    let fromTos1 :=
      if isFromInsideRange
      then [(fromIndex,
             ClosestInDirection (elems (Ranges rl)) fromIndex
               (bool_decide (toIndex < fromIndex)))]
      else [] in
    let fromTos2 :=
      if isToInsideRange
      then fromTos1 ++
           [(ClosestInDirection (elems (Ranges rl)) toIndex
               (bool_decide (fromIndex < toIndex)), toIndex)]
      else fromTos1 in
    (appendJumps fromIndex toIndex fromTos2 (jumpedOverRanges rl fromIndex toIndex), true).

End MoveIndexes.

(** *** Merging requests *)

Section ApplyDelta.

(** [extensions.Request] and its own [ApplyDelta] live in another package
    and are not among the sources: the merge is parametric in them. *)
Variable ExtRequest : Type.
Variable extApplyDelta : ExtRequest → ExtRequest → ExtRequest.
Variable extZero : ExtRequest.

Record Request : Type := mkRequest {
  TxnID : string;
  Lists : list RequestList;
  RoomSubscriptions : gmap string RoomSubscription;
  UnsubscribeRooms : list string;
  Extensions : ExtRequest;
  pos : Z;
  timeoutMSecs : Z;
}.

(** One list of the delta: what was there before and the combined
    result, each absent when the position does not exist. *)
Record RequestListDelta : Type := mkRequestListDelta {
  Prev : option RequestList;
  Curr : option RequestList;
}.

Record RequestDelta : Type := mkRequestDelta {
  Subs : list string;
  Unsubs : list string;
  DeltaLists : list RequestListDelta;
}.

(** [&Request{}], and [&Request{Extensions: e}]. *)
Definition emptyRequest (e : ExtRequest) : Request :=
  {| TxnID := ""; Lists := []; RoomSubscriptions := ∅; UnsubscribeRooms := [];
     Extensions := e; pos := 0; timeoutMSecs := 0 |}.

Definition zeroRequestList : RequestList :=
  {| rlRoomSubscription := {| RequiredState := None; TimelineLimit := 0 |};
     Ranges := None; Sort := None; Filters := None; SlowGetAllRooms := None |}.

(** [x] unless it is nil, then [y]. *)
Definition orElse {A} (x y : option A) : option A :=
  match x with Some _ => x | None => y end.

(** The body of the loop over the lists for one index [i].  The state
    is the incoming request's list array, which the loop writes the
    default sort order into, and the array of merged lists. *)
Definition mergeListAt (rLists : list RequestList)
    (st : list RequestList * list RequestList) (i : nat)
    : list RequestList * list RequestList :=
  let '(nextLists, lists) := st in
  match nextLists !! i with
  | None => st
  | Some nextList0 =>
    let existingList := rLists !! i in
    let nextList :=
      if decide (len (Sort nextList0) = 0 ∧ existingList = None)
      then setSort (Some [SortByRecency]) nextList0 else nextList0 in
    let nextLists' := <[i := nextList]> nextLists in
    match existingList with
    | None => (nextLists', <[i := nextList]> lists)
    | Some existingList =>
      let rooms := orElse (Ranges nextList) (Ranges existingList) in
      let sort := orElse (Sort nextList) (Sort existingList) in
      let reqState := orElse (rlRequiredState nextList) (rlRequiredState existingList) in
      let slowGetAllRooms :=
        orElse (SlowGetAllRooms nextList) (SlowGetAllRooms existingList) in
      let timelineLimit :=
        if decide (rlTimelineLimit nextList = 0)
        then rlTimelineLimit existingList else rlTimelineLimit nextList in
      let filters := orElse (Filters nextList) (Filters existingList) in
      (nextLists',
       <[i := {| rlRoomSubscription :=
                   {| RequiredState := reqState; TimelineLimit := timelineLimit |};
                 Ranges := rooms; Sort := sort; Filters := filters;
                 SlowGetAllRooms := slowGetAllRooms |}]> lists)
    end
  end.

(** Removing the rooms of an unsubscribe list from the running map, and
    reporting those that [report] lets through and that were present. *)
Definition unsubscribeStep (report : string → bool)
    (st : gmap string RoomSubscription * list string) (roomID : string)
    : gmap string RoomSubscription * list string :=
  let '(resultSubs, unsubs) := st in
  (delete roomID resultSubs,
   if bool_decide (is_Some (resultSubs !! roomID)) && report roomID
   then unsubs ++ [roomID] else unsubs).

(** [ApplyDelta]: the combined request, the delta, and the incoming
    request as the call leaves it (its lists' sort orders may have been
    defaulted in place).  [r0] is [None] for the nil receiver.

    Go leaves the iteration order of a map unspecified; the loops over
    maps are folds in the order of [map_to_list], and no statement below
    depends on that order. *)
Definition ApplyDelta (r0 : option Request) (nextReq : Request)
    : Request * RequestDelta * Request :=
  let resultExt :=
    match r0 with
    | None => Extensions nextReq
    | Some r => extApplyDelta (Extensions r) (Extensions nextReq)
    end in
  let r := default (emptyRequest extZero) r0 in
  let n := length (Lists nextReq) in
  let '(nextLists, lists) :=
    foldl (mergeListAt (Lists r)) (Lists nextReq, replicate n zeroRequestList) (seq 0 n) in
  let maxLen := (if decide (length lists < length (Lists r))%nat
                 then length (Lists r) else length lists) in
  let deltaLists :=
    (λ i, {| Prev := Lists r !! i; Curr := lists !! i |}) <$> seq 0 maxLen in
  let resultSubs0 :=
    map_fold (λ roomID val acc, <[roomID := val]> acc) ∅ (RoomSubscriptions r) in
  let '(resultSubs1, unsubs1) :=
    foldl (unsubscribeStep (λ _, true)) (resultSubs0, []) (UnsubscribeRooms r) in
  let resultSubs2 :=
    map_fold (λ roomID val acc, <[roomID := val]> acc) resultSubs1
             (RoomSubscriptions nextReq) in
  let '(resultSubs, unsubs) :=
    foldl (unsubscribeStep
             (λ roomID, bool_decide (RoomSubscriptions nextReq !! roomID = None)))
          (resultSubs2, unsubs1) (UnsubscribeRooms nextReq) in
  let subs :=
    map_fold (λ roomID _ acc,
                if bool_decide (is_Some (RoomSubscriptions r !! roomID))
                then acc else acc ++ [roomID])
             [] resultSubs in
  ({| TxnID := ""; Lists := lists; RoomSubscriptions := resultSubs;
      UnsubscribeRooms := []; Extensions := resultExt; pos := 0; timeoutMSecs := 0 |},
   {| Subs := subs; Unsubs := unsubs; DeltaLists := deltaLists |},
   {| TxnID := TxnID nextReq; Lists := nextLists;
      RoomSubscriptions := RoomSubscriptions nextReq;
      UnsubscribeRooms := UnsubscribeRooms nextReq;
      Extensions := Extensions nextReq; pos := pos nextReq;
      timeoutMSecs := timeoutMSecs nextReq |}).

End ApplyDelta.

Arguments mkRequest {_} _ _ _ _ _ _ _.
Arguments TxnID {_} _.
Arguments Lists {_} _.
Arguments RoomSubscriptions {_} _.
Arguments UnsubscribeRooms {_} _.
Arguments Extensions {_} _.
Arguments pos {_} _.
Arguments timeoutMSecs {_} _.
Arguments emptyRequest {_} _.
Arguments ApplyDelta {_} _ _ _ _.


(** ** Connection state (src/unnamed/part_001) *)

Module Conn.

(** [json.RawMessage]: the bytes of one event. *)
Definition RawMessage : Type := string.

Definition error : Type := string.

(** [MaxPendingEventUpdates]: the capacity of the event inbox. *)
Definition MaxPendingEventUpdates : Z := 200.

(** [internal.RoomMetadata]: the two fields the connection reads and
    writes, and the rest of the struct, which it only passes along. *)
Record RoomMetadata (MetaRest : Type) : Type := mkRoomMetadata {
  meta_RoomID : string;
  meta_LastMessageTimestamp : Z;
  meta_rest : MetaRest;
}.
Arguments mkRoomMetadata {_} _ _ _.
Arguments meta_RoomID {_} _.
Arguments meta_LastMessageTimestamp {_} _.
Arguments meta_rest {_} _.

(** [UserRoomData], as far as the connection reads it. *)
Record UserRoomData : Type := mkUserRoomData {
  urd_NotificationCount : Z;
  urd_HighlightCount : Z;
  urd_Timeline : slice RawMessage;
}.

Definition zeroUserRoomData : UserRoomData :=
  {| urd_NotificationCount := 0; urd_HighlightCount := 0; urd_Timeline := None |}.

(** The [Room] payload of a response. *)
Record Room : Type := mkRoom {
  room_RoomID : string;
  room_Name : string;
  room_NotificationCount : Z;
  room_HighlightCount : Z;
  room_Timeline : slice RawMessage;
  room_RequiredState : list RawMessage;
}.

(** [&Room{RoomID: roomID}]: a payload that carries the identifier only. *)
Definition roomStub (roomID : string) : Room :=
  {| room_RoomID := roomID; room_Name := ""; room_NotificationCount := 0;
     room_HighlightCount := 0; room_Timeline := None; room_RequiredState := [] |}.

(** [ResponseOpRange] and [ResponseOpSingle], the two implementations of
    [ResponseOp]. *)
Inductive ResponseOp : Type :=
  | ResponseOpRange (Operation : string) (Range_ : Range) (Rooms : list Room)
  | ResponseOpSingle (Operation : string) (Index : option Z) (Room_ : option Room).

Definition Op (o : ResponseOp) : string :=
  match o with
  | ResponseOpRange op _ _ => op
  | ResponseOpSingle op _ _ => op
  end.

Record Response : Type := mkResponse {
  resp_RoomSubscriptions : gmap string Room;
  resp_Count : Z;
  resp_Ops : list ResponseOp;
}.

(** [EventData]; [ev_event] is nil for an event built without one. *)
Record EventData : Type := mkEventData {
  ev_event : option RawMessage;
  ev_roomID : string;
  ev_latestPos : Z;
  ev_timestamp : Z;
  ev_userRoomData : option UserRoomData;
}.

(** The request as the connection state reads it: one window list, one
    sort order, one timeline limit and the room subscriptions. *)
Record Request : Type := mkRequest {
  Rooms : slice Range;
  Sort : slice string;
  TimelineLimit : Z;
  RoomSubscriptions : gmap string RoomSubscription;
}.

(** What the connection state calls and this repository's sources do not
    define: the caches, the room-name and string helpers, the request
    methods of the request type above, the room sorter and the range
    operations without a precise description in the specification. *)
Class Package : Type := {
  MetaRest : Type;
  RequiredStateMap : Type;
  (* GlobalCache *)
  LoadJoinedRooms : string → Z * list (RoomMetadata MetaRest) * option error;
  LoadRoom : string → RoomMetadata MetaRest;
  LoadRoomState : string → Z → RequiredStateMap → list RawMessage;
  (* UserCache *)
  lazilyLoadRoomDatas : Z → list string → Z → gmap string UserRoomData;
  loadRoomData : string → UserRoomData;
  (* internal, strings *)
  CalculateRoomName : RoomMetadata MetaRest → Z → string;
  RemoveHero : RoomMetadata MetaRest → string → RoomMetadata MetaRest;
  ToLower : string → string;
  Trim : string → string → string;
  (* Request *)
  RequestApplyDelta : Request → Request → Request * list string * list string;
  GetRequiredState : Request → string → RequiredStateMap;
  (* SliceRanges *)
  Delta : slice Range → slice Range → slice Range * slice Range * slice Range;
  UpperClamp : slice Range → Z → Z;
  LowerClamp : slice Range → Z → Z;
}.

(** Modelled from the spec: [SliceRanges.Inside] as the connection state
    calls it, with one boolean result: "true iff lo ≤ i ≤ hi for some range". *)
Definition Inside (rs : slice Range) (i : Z) : bool :=
  (SliceRanges.Inside (elems rs) i).2.

(** [l[i]] for a Go [int] index: out of range is a run-time panic. *)
Definition index {A} (l : list A) (i : Z) : option A :=
  if decide (0 ≤ i) then l !! Z.to_nat i else None.

Section State.

Context `{Package}.

Record RoomConnMetadata : Type := mkRoomConnMetadata {
  rcm_RoomMetadata : RoomMetadata MetaRest;
  rcm_CanonicalisedName : string;
  rcm_HighlightCount : Z;
  rcm_NotificationCount : Z;
}.

(** [SortableRooms.Sort] is not among the sources either; it is a
    parameter of the state machine, given with the state section. *)
Variable SortRooms : slice string → list RoomConnMetadata → list RoomConnMetadata.

(** The state of one connection.  [updateEvents] is the buffered channel,
    oldest event first.  [subscribed] stands for the registration of the
    connection with the user cache: [NewConnState] makes it ([Subsribe]),
    [Destroy] ends it ([Unsubscribe]).  The caches themselves are the
    package's functions. *)
Record ConnState : Type := mkConnState {
  muxedReq : option Request;
  userID : string;
  sortedJoinedRooms : list RoomConnMetadata;
  sortedJoinedRoomsPositions : gmap string Z;
  roomSubscriptions : gmap string RoomSubscription;
  loadPosition : Z;
  updateEvents : list EventData;
  subscribed : bool;
}.

Definition NewConnState (userID : string) : ConnState :=
  {| muxedReq := None; userID := userID; sortedJoinedRooms := [];
     sortedJoinedRoomsPositions := ∅; roomSubscriptions := ∅; loadPosition := 0;
     updateEvents := []; subscribed := true |}.

Definition Destroy (s : ConnState) : ConnState :=
  {| muxedReq := muxedReq s; userID := userID s;
     sortedJoinedRooms := sortedJoinedRooms s;
     sortedJoinedRoomsPositions := sortedJoinedRoomsPositions s;
     roomSubscriptions := roomSubscriptions s; loadPosition := loadPosition s;
     updateEvents := updateEvents s; subscribed := false |}.

Definition UserID (s : ConnState) : string := userID s.

(** Field updates. *)
Definition setMuxedReq (m : option Request) (s : ConnState) : ConnState :=
  {| muxedReq := m; userID := userID s; sortedJoinedRooms := sortedJoinedRooms s;
     sortedJoinedRoomsPositions := sortedJoinedRoomsPositions s;
     roomSubscriptions := roomSubscriptions s; loadPosition := loadPosition s;
     updateEvents := updateEvents s; subscribed := subscribed s |}.

Definition setSortedJoinedRooms (l : list RoomConnMetadata) (s : ConnState) : ConnState :=
  {| muxedReq := muxedReq s; userID := userID s; sortedJoinedRooms := l;
     sortedJoinedRoomsPositions := sortedJoinedRoomsPositions s;
     roomSubscriptions := roomSubscriptions s; loadPosition := loadPosition s;
     updateEvents := updateEvents s; subscribed := subscribed s |}.

Definition setPositions (p : gmap string Z) (s : ConnState) : ConnState :=
  {| muxedReq := muxedReq s; userID := userID s;
     sortedJoinedRooms := sortedJoinedRooms s; sortedJoinedRoomsPositions := p;
     roomSubscriptions := roomSubscriptions s; loadPosition := loadPosition s;
     updateEvents := updateEvents s; subscribed := subscribed s |}.

Definition setRoomSubscriptions (m : gmap string RoomSubscription) (s : ConnState)
    : ConnState :=
  {| muxedReq := muxedReq s; userID := userID s;
     sortedJoinedRooms := sortedJoinedRooms s;
     sortedJoinedRoomsPositions := sortedJoinedRoomsPositions s;
     roomSubscriptions := m; loadPosition := loadPosition s;
     updateEvents := updateEvents s; subscribed := subscribed s |}.

Definition setLoadPosition (p : Z) (s : ConnState) : ConnState :=
  {| muxedReq := muxedReq s; userID := userID s;
     sortedJoinedRooms := sortedJoinedRooms s;
     sortedJoinedRoomsPositions := sortedJoinedRoomsPositions s;
     roomSubscriptions := roomSubscriptions s; loadPosition := p;
     updateEvents := updateEvents s; subscribed := subscribed s |}.

Definition setUpdateEvents (q : list EventData) (s : ConnState) : ConnState :=
  {| muxedReq := muxedReq s; userID := userID s;
     sortedJoinedRooms := sortedJoinedRooms s;
     sortedJoinedRoomsPositions := sortedJoinedRoomsPositions s;
     roomSubscriptions := roomSubscriptions s; loadPosition := loadPosition s;
     updateEvents := q; subscribed := subscribed s |}.

(** The connection record of a room: [RemoveHero] on the metadata, then the
    canonical name. *)
Definition canonicalisedName (metadata : RoomMetadata MetaRest) : string :=
  ToLower (Trim (CalculateRoomName metadata 5) "#!()):_").

Definition roomID_of (r : RoomConnMetadata) : string := meta_RoomID (rcm_RoomMetadata r).

(** [sort]: sort the rooms, then write every room's index into the
    position map. *)
Definition sort (s : ConnState) (sortBy : slice string) : ConnState :=
  let rooms := SortRooms sortBy (sortedJoinedRooms s) in
  let positions :=
    foldl (λ acc (ir : nat * RoomConnMetadata), <[roomID_of ir.2 := Z.of_nat ir.1]> acc)
          (sortedJoinedRoomsPositions s) (imap pair rooms) in
  setPositions positions (setSortedJoinedRooms rooms s).

(** [load]: the state after the call and the error it returns. *)
Definition load (s : ConnState) (req : Request) : ConnState * option error :=
  let '(initialLoadPosition, joinedRooms, err) := LoadJoinedRooms (userID s) in
  match err with
  | Some e => (s, Some e)
  | None =>
    let rooms :=
      (λ metadata0,
         let metadata := RemoveHero metadata0 (userID s) in
         {| rcm_RoomMetadata := metadata;
            rcm_CanonicalisedName := canonicalisedName metadata;
            rcm_HighlightCount := 0; rcm_NotificationCount := 0 |}) <$> joinedRooms in
    (sort (setSortedJoinedRooms rooms (setLoadPosition initialLoadPosition s)) (Sort req),
     None)
  end.

(** [getDeltaRoomData] *)
Definition getDeltaRoomData (s : ConnState) (updateEvent : EventData) : Room :=
  let userRoomData := loadRoomData (ev_roomID updateEvent) in
  {| room_RoomID := ev_roomID updateEvent; room_Name := "";
     room_NotificationCount := urd_NotificationCount userRoomData;
     room_HighlightCount := urd_HighlightCount userRoomData;
     room_Timeline :=
       match ev_event updateEvent with Some e => Some [e] | None => None end;
     room_RequiredState := [] |}.

(** [getInitialRoomData]; reading [s.muxedReq.TimelineLimit] through a nil
    [muxedReq] panics ([None]). *)
Definition getInitialRoomData (s : ConnState) (roomIDs : list string) : option (list Room) :=
  m ← muxedReq s;
  let roomIDToUserRoomData :=
    lazilyLoadRoomDatas (loadPosition s) roomIDs (TimelineLimit m) in
  Some ((λ roomID,
           let userRoomData := default zeroUserRoomData (roomIDToUserRoomData !! roomID) in
           let metadata := RemoveHero (LoadRoom roomID) (userID s) in
           {| room_RoomID := roomID;
              room_Name := CalculateRoomName metadata 5;
              room_NotificationCount := urd_NotificationCount userRoomData;
              room_HighlightCount := urd_HighlightCount userRoomData;
              room_Timeline := urd_Timeline userRoomData;
              room_RequiredState :=
                LoadRoomState roomID (loadPosition s) (GetRequiredState m roomID) |})
        <$> roomIDs).

(** [updateRoomSubscriptions]: the state after the call and the initial
    payloads of the rooms subscribed to.  [None] is the nil-pointer panic of
    reading [s.muxedReq.RoomSubscriptions] without a muxed request. *)
Definition subscribeStep (m : Request)
    (st : option (ConnState * gmap string Room)) (roomID : string)
    : option (ConnState * gmap string Room) :=
  '(s, result) ← st;
  match RoomSubscriptions m !! roomID with
  | None => Some (s, result)
  | Some sub =>
    let s' := setRoomSubscriptions (<[roomID := sub]> (roomSubscriptions s)) s in
    rooms ← getInitialRoomData s' [roomID];
    room ← rooms !! 0%nat;
    Some (s', <[roomID := room]> result)
  end.

Definition updateRoomSubscriptions (s : ConnState) (subs unsubs : list string)
    : option (ConnState * gmap string Room) :=
  '(s1, result) ←
    match subs with
    | [] => Some (s, ∅)
    | _ :: _ => m ← muxedReq s; foldl (subscribeStep m) (Some (s, ∅)) subs
    end;
  Some (setRoomSubscriptions
          (foldl (λ acc roomID, delete roomID acc) (roomSubscriptions s1) unsubs) s1,
        result).

(** [moveRoom]; [None] is the panic of [getInitialRoomData] on a connection
    without a muxed request. *)
Definition moveRoom (s : ConnState) (updateEvent : EventData)
    (fromIndex toIndex : Z) (ranges : slice Range) (onlySendRoomID : bool)
    : option (list ResponseOp) :=
  if decide (fromIndex = toIndex) then
    let room :=
      if negb onlySendRoomID then getDeltaRoomData s updateEvent
      else roomStub (ev_roomID updateEvent) in
    Some [ResponseOpSingle "UPDATE" (Some fromIndex) (Some room)]
  else
    let deleteIndex :=
      if negb (Inside ranges fromIndex) then LowerClamp ranges fromIndex
      else fromIndex in
    room ←
      (if negb onlySendRoomID then
         rooms ← getInitialRoomData s [ev_roomID updateEvent];
         rooms !! 0%nat
       else Some (roomStub (ev_roomID updateEvent)));
    Some [ResponseOpSingle "DELETE" (Some deleteIndex) None;
          ResponseOpSingle "INSERT" (Some toIndex) (Some room)].

(** Which arm of [OnNewEvent] ran. *)
Inductive SendResult : Type :=
  | AlreadyLoaded     (* returned before the select *)
  | Sent              (* the event went onto the channel *)
  | BufferExceeded.   (* the 5 s timer fired; the warning is logged *)

(** [OnNewEvent].  The call is one atomic step of the producer: the send
    succeeds when the channel has room; a call that finds the channel full
    for the whole 5 s takes the timer arm.  (A send that blocks and then
    succeeds is this step taken after the consumer's receive.) *)
Definition OnNewEvent (s : ConnState) (eventData : EventData) : ConnState * SendResult :=
  if decide (ev_latestPos eventData ≠ 0 ∧ ev_latestPos eventData < loadPosition s) then
    (s, AlreadyLoaded)
  else if decide (Z.of_nat (length (updateEvents s)) < MaxPendingEventUpdates) then
    (setUpdateEvents (updateEvents s ++ [eventData]) s, Sent)
  else
    (s, BufferExceeded).

(** [OnUnreadCountsChanged] *)
Definition OnUnreadCountsChanged (s : ConnState) (userID roomID : string)
    (urd : UserRoomData) (hasCountDecreased : bool) : ConnState * option SendResult :=
  if negb hasCountDecreased then (s, None)
  else
    let room := LoadRoom roomID in
    let '(s', r) :=
      OnNewEvent s {| ev_event := None; ev_roomID := roomID; ev_latestPos := 0;
                      ev_timestamp := meta_LastMessageTimestamp room;
                      ev_userRoomData := Some urd |} in
    (s', Some r).

(** *** Handling a request *)

(** What can wake the live loop's [select], and what the pollers do
    meanwhile: the schedule a request runs under.  [Recv] is the receive
    from [updateEvents] (it needs a buffered event), [Produce e] a poller's
    call of [OnNewEvent e]. *)
Inductive Action : Type :=
  | CtxDone
  | TimeAfter
  | Recv
  | Produce (e : EventData).

Definition setTimestamp {R} (ts : Z) (m : RoomMetadata R) : RoomMetadata R :=
  {| meta_RoomID := meta_RoomID m; meta_LastMessageTimestamp := ts;
     meta_rest := meta_rest m |}.

Definition setRoomMetadata (m : RoomMetadata MetaRest) (r : RoomConnMetadata)
    : RoomConnMetadata :=
  {| rcm_RoomMetadata := m; rcm_CanonicalisedName := rcm_CanonicalisedName r;
     rcm_HighlightCount := rcm_HighlightCount r;
     rcm_NotificationCount := rcm_NotificationCount r |}.

(** The body of the [select]'s receive arm for one event: the state, the
    response's room payloads, and the ops when the arm breaks out of the
    loop ([None] in that place when it continues).  The outer [None] is a
    run-time panic. *)
Definition processEvent (s0 : ConnState) (respSubs : gmap string Room)
    (updateEvent : EventData)
    : option (ConnState * gmap string Room * option (list ResponseOp)) :=
  let s1 :=
    if decide (loadPosition s0 < ev_latestPos updateEvent)
    then setLoadPosition (ev_latestPos updateEvent) s0 else s0 in
  '(s2, fromIndex) ←
    match sortedJoinedRoomsPositions s1 !! ev_roomID updateEvent with
    | None =>
      let newRoom :=
        RemoveHero (setTimestamp (ev_timestamp updateEvent)
                      (LoadRoom (ev_roomID updateEvent))) (userID s1) in
      let newRoomConn :=
        {| rcm_RoomMetadata := newRoom;
           rcm_CanonicalisedName := canonicalisedName newRoom;
           rcm_HighlightCount := 0; rcm_NotificationCount := 0 |} in
      Some (setSortedJoinedRooms (sortedJoinedRooms s1 ++ [newRoomConn]) s1,
            Z.of_nat (length (sortedJoinedRooms s1)))
    | Some fromIndex =>
      targetRoom ← index (sortedJoinedRooms s1) fromIndex;
      Some (setSortedJoinedRooms
              (<[Z.to_nat fromIndex :=
                   setRoomMetadata
                     (setTimestamp (ev_timestamp updateEvent) (rcm_RoomMetadata targetRoom))
                     targetRoom]> (sortedJoinedRooms s1)) s1,
            fromIndex)
    end;
  m ← muxedReq s2;
  let s := sort s2 (Sort m) in
  let isSubscribedToRoom :=
    bool_decide (is_Some (roomSubscriptions s !! ev_roomID updateEvent)) in
  let respSubs' :=
    if isSubscribedToRoom
    then <[ev_roomID updateEvent := getDeltaRoomData s updateEvent]> respSubs
    else respSubs in
  let toIndex0 := default 0 (sortedJoinedRoomsPositions s !! ev_roomID updateEvent) in
  if negb (Inside (Rooms m) toIndex0) then
    let toIndex := UpperClamp (Rooms m) toIndex0 in
    if decide (Z.of_nat (length (sortedJoinedRooms s)) ≤ toIndex) then
      Some (s, respSubs', None)
    else if decide (toIndex = -1) then
      Some (s, respSubs', None)
    else
      toRoom ← index (sortedJoinedRooms s) toIndex;
      let rooms :=
        lazilyLoadRoomDatas (loadPosition s) [roomID_of toRoom] (TimelineLimit m) in
      let urd := default zeroUserRoomData (rooms !! roomID_of toRoom) in
      lastEvent ← last (elems (urd_Timeline urd));
      ops ← moveRoom s
              {| ev_event := Some lastEvent; ev_roomID := roomID_of toRoom;
                 ev_latestPos := 0; ev_timestamp := 0; ev_userRoomData := None |}
              fromIndex toIndex (Rooms m) isSubscribedToRoom;
      Some (s, respSubs', Some ops)
  else
    ops ← moveRoom s updateEvent fromIndex toIndex0 (Rooms m) isSubscribedToRoom;
    Some (s, respSubs', Some ops).

(** The live loop under a schedule.  A schedule that runs out stands for
    the cancellation of the request. *)
Fixpoint liveLoop (sched : list Action) (s : ConnState) (respSubs : gmap string Room)
    : option (ConnState * gmap string Room * list ResponseOp) :=
  match sched with
  | [] => Some (s, respSubs, [])
  | CtxDone :: _ => Some (s, respSubs, [])
  | TimeAfter :: _ => Some (s, respSubs, [])
  | Produce e :: sched' => liveLoop sched' (OnNewEvent s e).1 respSubs
  | Recv :: sched' =>
    match updateEvents s with
    | [] => liveLoop sched' s respSubs
    | updateEvent :: q =>
      '(s', respSubs', ops) ← processEvent (setUpdateEvents q s) respSubs updateEvent;
      match ops with
      | Some ops => Some (s', respSubs', ops)
      | None => liveLoop sched' s' respSubs'
      end
    end
  end.

Definition invalidateOp (r : Range) : ResponseOp := ResponseOpRange "INVALIDATE" r [].

(** The [SYNC] of one added range: the rooms of that slice of the sorted
    list with their initial payloads.  [None] is a panic. *)
Definition syncOp (s : ConnState) (r : Range) : option ResponseOp :=
  rooms ← SliceRanges.SliceInto [r] (sortedJoinedRooms s) !! 0%nat;
  data ← getInitialRoomData s (roomID_of <$> rooms);
  Some (ResponseOpRange "SYNC" r data).

Definition syncOps (s : ConnState) (ops : list ResponseOp) (added : list Range)
    : option (list ResponseOp) :=
  foldl (λ acc r, ops ← acc; o ← syncOp s r; Some (ops ++ [o])) (Some ops) added.

(** [onIncomingRequest]: the state after the request, with the response
    and the error returned; [None] is a panic. *)
Definition onIncomingRequest (s0 : ConnState) (req : Request) (sched : list Action)
    : option (ConnState * (Response * option error)) :=
  let '(prevRange, prevSort) :=
    match muxedReq s0 with
    | Some m => (Rooms m, Sort m)
    | None => (None, None)
    end in
  let '(m, newSubs, newUnsubs) :=
    match muxedReq s0 with
    | None => (req, (map_to_list (RoomSubscriptions req)).*1, [])
    | Some m => RequestApplyDelta m req
    end in
  let s1 := setMuxedReq (Some m) s0 in
  '(s2, respSubs) ← updateRoomSubscriptions s1 newSubs newUnsubs;
  let count := Z.of_nat (length (sortedJoinedRooms s2)) in
  let '(added0, removed0, same0) :=
    match prevRange with
    | Some _ => Delta prevRange (Rooms m)
    | None => (Rooms m, None, None)
    end in
  let '(s3, ops1, added, removed, same) :=
    if decide (prevSort ≠ Sort m) then
      (sort s2 (Sort m),
       match prevSort with
       | Some _ => invalidateOp <$> elems (Rooms m)
       | None => []
       end,
       Rooms m, None, None)
    else (s2, [], added0, removed0, same0) in
  let ops2 := ops1 ++ (invalidateOp <$> elems removed) in
  ops3 ← syncOps s3 ops2 (elems added);
  '(s4, respSubs', ops) ←
    (if bool_decide (is_Some same) && bool_decide (length ops3 = 0%nat)
        && bool_decide (size respSubs = 0%nat)
     then
       '(s', respSubs', moved) ← liveLoop sched s3 respSubs;
       Some (s', respSubs', ops3 ++ moved)
     else Some (s3, respSubs, ops3));
  Some (s4, ({| resp_RoomSubscriptions := respSubs'; resp_Count := count;
                resp_Ops := ops |}, None)).

(** [HandleIncomingRequest]: the value [load] returns is not looked at. *)
Definition HandleIncomingRequest (s : ConnState) (req : Request) (sched : list Action)
    : option (ConnState * (Response * option error)) :=
  let s' := if decide (loadPosition s = 0) then (load s req).1 else s in
  onIncomingRequest s' req sched.

End State.

End Conn.

(** ** Vocabulary of the statements *)

(** A range is jumped over by a move when both of its bounds lie strictly
    between the lower and the higher of the two indexes. *)
Definition JumpedOver (fromIndex toIndex : Z) (r : Range) : Prop :=
  (Z.min fromIndex toIndex < r.1 ∧ r.1 < Z.max fromIndex toIndex) ∧
  (Z.min fromIndex toIndex < r.2 ∧ r.2 < Z.max fromIndex toIndex).

Global Instance JumpedOver_dec f t r : Decision (JumpedOver f t r).
Proof. unfold JumpedOver. apply _. Defined.

(** The ranges of the source's worked example, [[1,4],[7,9]]. *)
Definition exampleList : RequestList :=
  {| rlRoomSubscription := {| RequiredState := None; TimelineLimit := 0 |};
     Ranges := Some [(1, 4); (7, 9)]; Sort := None; Filters := None;
     SlowGetAllRooms := None |}.

(** The incoming list at a position where the previous request has list
    [existing] (or none), as [ApplyDelta] leaves it in the incoming request:
    an empty sort order becomes [[by_recency]] when there is no previous
    list. *)
Definition defaultedList (existing : option RequestList) (nl : RequestList) : RequestList :=
  if decide (len (Sort nl) = 0 ∧ existing = None)
  then setSort (Some [SortByRecency]) nl else nl.

(** The combined list at a position. *)
Definition mergedList (existing : option RequestList) (nl : RequestList) : RequestList :=
  match existing with
  | None => defaultedList None nl
  | Some ex =>
    {| rlRoomSubscription :=
         {| RequiredState := orElse (rlRequiredState nl) (rlRequiredState ex);
            TimelineLimit := if decide (rlTimelineLimit nl = 0)
                             then rlTimelineLimit ex else rlTimelineLimit nl |};
       Ranges := orElse (Ranges nl) (Ranges ex);
       Sort := orElse (Sort nl) (Sort ex);
       Filters := orElse (Filters nl) (Filters ex);
       SlowGetAllRooms := orElse (SlowGetAllRooms nl) (SlowGetAllRooms ex) |}
  end.

(** The lists of the previous request; the nil request has none. *)
Definition prevLists {E} (r : option (Request E)) : list RequestList :=
  match r with Some r => Lists r | None => [] end.

Definition prevSubscriptions {E} (r : option (Request E)) : gmap string RoomSubscription :=
  match r with Some r => RoomSubscriptions r | None => ∅ end.

Definition prevUnsubscribes {E} (r : option (Request E)) : list string :=
  match r with Some r => UnsubscribeRooms r | None => [] end.

(** Example requests.  The extensions blob is [unit] in the examples. *)
Definition listWithSort (s : slice string) : RequestList := setSort s zeroRequestList.

Definition requestOfLists (ls : list RequestList) : Request unit :=
  {| TxnID := ""; Lists := ls; RoomSubscriptions := ∅; UnsubscribeRooms := [];
     Extensions := tt; pos := 0; timeoutMSecs := 0 |}.

Definition requestOfSubs (subs : gmap string RoomSubscription) (unsubs : list string)
    : Request unit :=
  {| TxnID := ""; Lists := []; RoomSubscriptions := subs; UnsubscribeRooms := unsubs;
     Extensions := tt; pos := 0; timeoutMSecs := 0 |}.

Definition exampleSub : RoomSubscription :=
  {| RequiredState := None; TimelineLimit := 10 |}.

(** [ApplyDelta] with the extensions of the examples. *)
Definition applyDeltaUnit (r : option (Request unit)) (next : Request unit) :=
  ApplyDelta (λ _ _, tt) tt r next.

(** A previous request with one list sorted by name, and an incoming
    request whose list sets an empty sort order. *)
Definition prevByName : Request unit := requestOfLists [listWithSort (Some [SortByName])].
Definition nextEmptySort : Request unit := requestOfLists [listWithSort (Some [])].

(** A previous request that both holds and unsubscribes a room, and two
    incoming requests that subscribe to it, the first unsubscribing from it
    as well. *)
Definition prevSubUnsub : Request unit := requestOfSubs {["!a" := exampleSub]} ["!a"].
Definition nextSubUnsub : Request unit := requestOfSubs {["!a" := exampleSub]} ["!a"].
Definition nextSub : Request unit := requestOfSubs {["!a" := exampleSub]} [].
Definition prevSub : Request unit := requestOfSubs {["!a" := exampleSub]} [].
Definition nextUnsub : Request unit := requestOfSubs ∅ ["!a"].

(** Example collaborators for the connection state: three joined rooms
    loaded at position 7, room names that are the identifiers, a one-event
    timeline for every room, and a request merge that lets the incoming
    windows and sort order win when set. *)
Definition exampleRoom (roomID : string) (ts : Z) : Conn.RoomMetadata unit :=
  Conn.mkRoomMetadata roomID ts tt.

Definition exampleMerge (prev next : Conn.Request)
    : Conn.Request * list string * list string :=
  ({| Conn.Rooms := orElse (Conn.Rooms next) (Conn.Rooms prev);
      Conn.Sort := orElse (Conn.Sort next) (Conn.Sort prev);
      Conn.TimelineLimit := Conn.TimelineLimit next;
      Conn.RoomSubscriptions := Conn.RoomSubscriptions next ∪ Conn.RoomSubscriptions prev |},
   [], []).

Definition examplePackageWith
    (joined : Z * list (Conn.RoomMetadata unit) * option Conn.error) : Conn.Package :=
  {| Conn.MetaRest := unit;
     Conn.RequiredStateMap := unit;
     Conn.LoadJoinedRooms := λ _, joined;
     Conn.LoadRoom := λ roomID, exampleRoom roomID 0;
     Conn.LoadRoomState := λ _ _ _, [];
     Conn.lazilyLoadRoomDatas := λ _ roomIDs _,
       list_to_map ((λ roomID, (roomID, Conn.mkUserRoomData 0 0 (Some ["{}"]))) <$> roomIDs);
     Conn.loadRoomData := λ _, Conn.zeroUserRoomData;
     Conn.CalculateRoomName := λ m _, Conn.meta_RoomID m;
     Conn.RemoveHero := λ m _, m;
     Conn.ToLower := λ s, s;
     Conn.Trim := λ s _, s;
     Conn.RequestApplyDelta := exampleMerge;
     Conn.GetRequiredState := λ _ _, tt;
     Conn.Delta := λ _ next, (None, None, next);
     Conn.UpperClamp := λ _ _, -1;
     Conn.LowerClamp := λ rs i, SliceRanges.LowerClamp (elems rs) i |}.

Definition examplePackage : Conn.Package :=
  examplePackageWith
    (7, [exampleRoom "!a" 30; exampleRoom "!b" 20; exampleRoom "!c" 10], None).

(** The same collaborators with a global cache whose load fails. *)
Definition failingPackage : Conn.Package :=
  examplePackageWith (0, [], Some "upstream unavailable").

(** The example sorter reverses the list for [[by_name]] and leaves it as
    it is otherwise. *)
Definition exampleSortRooms {P : Conn.Package} (sortBy : slice string)
    (l : list (@Conn.RoomConnMetadata P)) : list (@Conn.RoomConnMetadata P) :=
  if decide (sortBy = Some [SortByName]) then reverse l else l.

Definition exampleRequest : Conn.Request :=
  {| Conn.Rooms := Some [(0, 4)]; Conn.Sort := Some [SortByRecency];
     Conn.TimelineLimit := 10; Conn.RoomSubscriptions := {["!a" := exampleSub]} |}.

Definition exampleEvent (roomID : string) (latestPos : Z) : Conn.EventData :=
  {| Conn.ev_event := Some "{}"; Conn.ev_roomID := roomID; Conn.ev_latestPos := latestPos;
     Conn.ev_timestamp := 100; Conn.ev_userRoomData := None |}.

(** A connection of the example that has handled [exampleRequest]'s
    windows: loaded at position 5, no rooms. *)
Definition exampleConn {P : Conn.Package} : @Conn.ConnState P :=
  Conn.setLoadPosition 5
    (Conn.setMuxedReq (Some exampleRequest) (Conn.NewConnState "@alice:localhost")).

(** The same connection with a full event inbox. *)
Definition fullConn {P : Conn.Package} : @Conn.ConnState P :=
  Conn.setUpdateEvents
    (replicate (Z.to_nat Conn.MaxPendingEventUpdates) (exampleEvent "!a" 6)) exampleConn.

(** The rooms of the sorted list at the absolute positions of a window. *)
Definition windowSlice {A} (r : Range) (l : list A) : list A :=
  take (Z.to_nat (r.2 + 1) - Z.to_nat r.1)%nat (drop (Z.to_nat r.1) l).

(** The example connection after its first request, [exampleRequest], has
    been handled under an empty schedule: the three rooms are loaded. *)
Definition loadedConn : @Conn.ConnState examplePackage :=
  match Conn.HandleIncomingRequest exampleSortRooms
          (Conn.NewConnState "@alice:localhost") exampleRequest [] with
  | Some (s, _) => s
  | None => Conn.NewConnState "@alice:localhost"
  end.

(** A second request that only changes the sort order. *)
Definition byNameRequest : Conn.Request :=
  {| Conn.Rooms := None; Conn.Sort := Some [SortByName]; Conn.TimelineLimit := 10;
     Conn.RoomSubscriptions := ∅ |}.

(** A previous request with one list of timeline limit 10, and an incoming
    request whose list gives a negative timeline limit. *)
Definition listWithTimelineLimit (n : Z) : RequestList :=
  {| rlRoomSubscription := {| RequiredState := None; TimelineLimit := n |};
     Ranges := None; Sort := Some [SortByRecency]; Filters := None;
     SlowGetAllRooms := None |}.

(** A sorter by descending last-message timestamp, and collaborators with
    seven joined rooms, for the bump scenarios. *)
Definition byRecency {P : Conn.Package} (a b : @Conn.RoomConnMetadata P) : Prop :=
  Conn.meta_LastMessageTimestamp (Conn.rcm_RoomMetadata b)
  ≤ Conn.meta_LastMessageTimestamp (Conn.rcm_RoomMetadata a).

Global Instance byRecency_dec {P : Conn.Package} (a b : @Conn.RoomConnMetadata P) :
  Decision (byRecency a b).
Proof. unfold byRecency. apply _. Defined.

Definition recencySortRooms {P : Conn.Package} (_ : slice string)
    (l : list (@Conn.RoomConnMetadata P)) : list (@Conn.RoomConnMetadata P) :=
  merge_sort byRecency l.

Definition sevenRoomsPackage : Conn.Package :=
  examplePackageWith
    (7, [exampleRoom "!a" 50; exampleRoom "!b" 40; exampleRoom "!c" 30;
         exampleRoom "!d" 20; exampleRoom "!e" 10; exampleRoom "!f" 5;
         exampleRoom "!g" 1], None).

Definition windowRequest : Conn.Request :=
  {| Conn.Rooms := Some [(0, 4)]; Conn.Sort := Some [SortByRecency];
     Conn.TimelineLimit := 10; Conn.RoomSubscriptions := ∅ |}.

Definition emptyDeltaRequest : Conn.Request :=
  {| Conn.Rooms := None; Conn.Sort := None; Conn.TimelineLimit := 10;
     Conn.RoomSubscriptions := ∅ |}.

(** The connection after the first request for the window [[0,4]]. *)
Definition sevenRoomsConn : @Conn.ConnState sevenRoomsPackage :=
  match Conn.HandleIncomingRequest recencySortRooms
          (Conn.NewConnState "@alice:localhost") windowRequest [] with
  | Some (s, _) => s
  | None => Conn.NewConnState "@alice:localhost"
  end.

(** The ops of a second request during which a poller delivers one event
    for [roomID] that the live loop then receives. *)
Definition opsAfterEvent (roomID : string) : option (list Conn.ResponseOp) :=
  '(_, (resp, _)) ←
    Conn.HandleIncomingRequest recencySortRooms sevenRoomsConn emptyDeltaRequest
      [Conn.Produce (exampleEvent roomID 9); Conn.Recv];
  Some (Conn.resp_Ops resp).

(** Operation, index or range start, and room identifier of an op. *)
Definition opSummary (o : Conn.ResponseOp) : string * option Z * option string :=
  match o with
  | Conn.ResponseOpRange op r _ => (op, Some r.1, None)
  | Conn.ResponseOpSingle op i room => (op, i, Conn.room_RoomID <$> room)
  end.

(** ** More of the request code (src/unnamed/part_000) *)

(** [OpInsert] and [OpDelete]: the constants are declared outside the
    sources; the values are the literals the connection state writes. *)
Definition OpInsert : string := "INSERT".
Definition OpDelete : string := "DELETE".

(** [ResponseOpSingle] as the request code builds it. *)
Record ResponseOpSingle : Type := mkResponseOpSingle {
  Operation : string;
  Index : option Z;
  RoomID : string;
}.

(** [ShouldGetAllRooms] *)
Definition ShouldGetAllRooms (rl : RequestList) : bool :=
  match SlowGetAllRooms rl with Some b => b | None => false end.

(** [SortOrderChanged].  The receiver may be nil ([None]); the outer
    [None] of the result is the nil-pointer panic of ranging over
    [rl.Sort] through a nil receiver. *)
Definition SortOrderChanged (rl : option RequestList) (next : RequestList) : option bool :=
  let prevLen := match rl with Some l => len (Sort l) | None => 0 end in
  if decide (prevLen ≠ len (Sort next)) then Some true
  else
    l ← rl;
    Some (existsb (λ i, bool_decide (elems (Sort l) !! i ≠ elems (Sort next) !! i))
                  (seq 0 (length (elems (Sort l))))).

(** [WriteInsertOp]; [None] is the nil op. *)
Definition WriteInsertOp (rl : RequestList) (insertedIndex : Z) (roomID : string)
    : option ResponseOpSingle :=
  if decide (insertedIndex < 0) then None
  else if negb (SliceRanges.Inside (elems (Ranges rl)) insertedIndex).2 then None
  else Some {| Operation := OpInsert; Index := Some insertedIndex; RoomID := roomID |}.

(** [WriteDeleteOp] *)
Definition WriteDeleteOp (rl : RequestList) (deletedIndex : Z) : option ResponseOpSingle :=
  if decide (deletedIndex < 0) then None
  else if negb (SliceRanges.Inside (elems (Ranges rl)) deletedIndex).2 then None
  else Some {| Operation := OpDelete; Index := Some deletedIndex; RoomID := "" |}.

(** [WriteSwapOp]; the nil result is the empty list. *)
Definition WriteSwapOp (rl : RequestList) (roomID : string) (fromIndex toIndex : Z)
    : list ResponseOpSingle :=
  if decide (fromIndex = toIndex) then []
  else [ {| Operation := OpDelete; Index := Some fromIndex; RoomID := "" |};
         {| Operation := OpInsert; Index := Some toIndex; RoomID := roomID |} ].

(** [GetTimelineLimit]; [None] is the panic of indexing [r.Lists] out of
    range. *)
Definition GetTimelineLimit {E} (r : Request E) (listIndex : Z) (roomID : string)
    : option Z :=
  match RoomSubscriptions r !! roomID with
  | Some room =>
    if decide (0 < TimelineLimit room) then Some (TimelineLimit room)
    else
      l ← Conn.index (Lists r) listIndex;
      Some (if decide (0 < rlTimelineLimit l) then rlTimelineLimit l
            else DefaultTimelineLimit)
  | None =>
    l ← Conn.index (Lists r) listIndex;
    Some (if decide (0 < rlTimelineLimit l) then rlTimelineLimit l
          else DefaultTimelineLimit)
  end.

(** [append(a, b...)] as far as its value goes: appending nothing to the
    nil slice gives the nil slice. *)
Definition appendSlice {A} (a b : slice A) : slice A :=
  match a, elems b with
  | None, [] => None
  | _, _ => Some (elems a ++ elems b)
  end.

(** [Combine] *)
Definition Combine (rs other : RoomSubscription) : RoomSubscription :=
  {| TimelineLimit := if decide (TimelineLimit other < TimelineLimit rs)
                      then TimelineLimit rs else TimelineLimit other;
     RequiredState := appendSlice (RequiredState rs) (RequiredState other) |}.

(** [nullableStringExists] *)
Definition nullableStringExists (arr : slice (option string)) (input : option string)
    : bool :=
  if decide (len arr = 0) then false
  else existsb (λ a, match input, a with
                     | None, None => true
                     | None, Some _ => false
                     | Some _, None => false
                     | Some i, Some a => bool_decide (a = i)
                     end) (elems arr).

Section RequiredStateMap.

(** [internal.RequiredStateMap] and its constructor are outside the
    sources: the constructor is a parameter, with its four arguments as
    the code passes them (nil maps and slices are [None]). *)
Variable RSM : Type.
Variable NewRequiredStateMap :
  option (gset string) → slice string → option (gmap string (list string)) → bool → RSM.

(** The loop of [RequiredStateMap] over the tuples that are left, with the
    wildcard event types, the state keys for the wildcard event type and
    the per-type state keys gathered so far. *)
Fixpoint requiredStateLoop (tuples : list (string * string))
    (eventTypesWithWildcardStateKeys : gset string)
    (stateKeysForWildcardEventType : slice string)
    (result : gmap string (list string)) : RSM :=
  match tuples with
  | [] =>
    NewRequiredStateMap (Some eventTypesWithWildcardStateKeys)
      stateKeysForWildcardEventType (Some result) false
  | tuple :: rest =>
    if decide (tuple.1 = "*") then
      if decide (tuple.2 = "*") then NewRequiredStateMap None None None true
      else requiredStateLoop rest eventTypesWithWildcardStateKeys
             (Some (elems stateKeysForWildcardEventType ++ [tuple.2])) result
    else if decide (tuple.2 = "*") then
      requiredStateLoop rest ({[tuple.1]} ∪ eventTypesWithWildcardStateKeys)
        stateKeysForWildcardEventType result
    else
      requiredStateLoop rest eventTypesWithWildcardStateKeys
        stateKeysForWildcardEventType
        (<[tuple.1 := default [] (result !! tuple.1) ++ [tuple.2]]> result)
  end.

(** [RequiredStateMap] *)
Definition RequiredStateMap (rs : RoomSubscription) : RSM :=
  requiredStateLoop (elems (RequiredState rs)) ∅ None ∅.

End RequiredStateMap.

Arguments requiredStateLoop {_} _ _ _ _ _.
Arguments RequiredStateMap {_} _ _.

(** The room as [RequestFilters.Include] reads it.  The struct (a later
    [RoomConnMetadata]) is declared outside the sources; of its maps only
    the keys are read. *)
Record FilterRoom : Type := mkFilterRoom {
  r_Encrypted : bool;
  r_Tombstoned : bool;
  r_IsDM : bool;
  r_IsInvite : bool;
  r_RoomType : option string;
  r_Tags : gset string;
  r_Spaces : gset string;
  (** [internal.CalculateRoomName(&r.RoomMetadata, 5)] *)
  r_CalculatedName : string;
}.

Section Include.

(** [strings.ToLower] and [strings.Contains] *)
Variable ToLower : string → string.
Variable Contains : string → string → bool.

(** [Include] *)
Definition Include (rf : RequestFilters) (r : FilterRoom) : bool :=
  if match IsEncrypted rf with Some b => negb (eqb b (r_Encrypted r)) | None => false end
  then false
  else if match IsTombstoned rf with Some b => negb (eqb b (r_Tombstoned r)) | None => false end
  then false
  else if match IsDM rf with Some b => negb (eqb b (r_IsDM r)) | None => false end
  then false
  else if match IsInvite rf with Some b => negb (eqb b (r_IsInvite r)) | None => false end
  then false
  else if negb (bool_decide (RoomNameFilter rf = ""))
          && negb (Contains (ToLower (r_CalculatedName r)) (ToLower (RoomNameFilter rf)))
  then false
  else if bool_decide (0 < len (Tags rf))
          && negb (existsb (λ t, bool_decide (t ∈ r_Tags r)) (elems (Tags rf)))
  then false
  else if nullableStringExists (NotRoomTypes rf) (r_RoomType r) then false
  else if bool_decide (0 < len (RoomTypes rf)) then
    nullableStringExists (RoomTypes rf) (r_RoomType r)
  else if bool_decide (0 < len (Spaces rf)) then
    existsb (λ s, bool_decide (s ∈ r_Spaces r)) (elems (Spaces rf))
  else true.

End Include.

(** The filter that sets nothing. *)
Definition zeroRequestFilters : RequestFilters :=
  {| Spaces := None; IsDM := None; IsEncrypted := None; IsInvite := None;
     IsTombstoned := None; RoomTypes := None; NotRoomTypes := None;
     RoomNameFilter := ""; Tags := None |}.

(** The pairs of a move with one of its indexes inside a range: the pair
    that starts at [fromIndex] when it is inside, the pair that ends at
    [toIndex] when it is inside. *)
Definition insidePairs (ClosestInDirection : list Range → Z → bool → Z)
    (rs : list Range) (fromIndex toIndex : Z) : list (Z * Z) :=
  (if (SliceRanges.Inside rs fromIndex).2
   then [(fromIndex, ClosestInDirection rs fromIndex (bool_decide (toIndex < fromIndex)))]
   else []) ++
  (if (SliceRanges.Inside rs toIndex).2
   then [(ClosestInDirection rs toIndex (bool_decide (fromIndex < toIndex)), toIndex)]
   else []).

(** Both indexes are inside the same range (the first one that covers
    them). *)
Definition SameRange (rs : list Range) (fromIndex toIndex : Z) : Prop :=
  (SliceRanges.Inside rs fromIndex).2 = true ∧
  SliceRanges.Inside rs fromIndex = SliceRanges.Inside rs toIndex.

Definition setSpaces (s : slice string) (rf : RequestFilters) : RequestFilters :=
  {| Spaces := s; IsDM := IsDM rf; IsEncrypted := IsEncrypted rf;
     IsInvite := IsInvite rf; IsTombstoned := IsTombstoned rf;
     RoomTypes := RoomTypes rf; NotRoomTypes := NotRoomTypes rf;
     RoomNameFilter := RoomNameFilter rf; Tags := Tags rf |}.

(** The reverse index of a connection is exact: the rooms of the sorted
    list have pairwise distinct identifiers, and the position map sends an
    identifier to [i] exactly when the room at index [i] has it. *)
Definition IndexConsistent {P : Conn.Package} (s : @Conn.ConnState P) : Prop :=
  NoDup (Conn.roomID_of <$> Conn.sortedJoinedRooms s) ∧
  ∀ id i, Conn.sortedJoinedRoomsPositions s !! id = Some i
          ↔ ∃ r, Conn.index (Conn.sortedJoinedRooms s) i = Some r ∧ Conn.roomID_of r = id.

(** What the index needs of the collaborators: the sorter permutes the
    rooms, the global cache answers with the room asked for, and removing
    the viewer from the heroes keeps the room's identifier. *)
Definition KeepsRooms {P : Conn.Package}
    (SortRooms : slice string → list (@Conn.RoomConnMetadata P)
                 → list (@Conn.RoomConnMetadata P)) : Prop :=
  (∀ sortBy l, SortRooms sortBy l ≡ₚ l) ∧
  (∀ roomID, Conn.meta_RoomID (Conn.LoadRoom roomID) = roomID) ∧
  (∀ m userID, Conn.meta_RoomID (Conn.RemoveHero m userID) = Conn.meta_RoomID m).

(** A connection with [windowRequest] as its muxed request and nothing
    loaded. *)
Definition windowConn : @Conn.ConnState sevenRoomsPackage :=
  Conn.setMuxedReq (Some windowRequest) (Conn.NewConnState "@alice:localhost").

(** A connection whose two rooms are not yet sorted, with an empty
    position map. *)
Definition unsortedConn : @Conn.ConnState sevenRoomsPackage :=
  Conn.setSortedJoinedRooms
    ((λ m : Conn.RoomMetadata unit,
        {| Conn.rcm_RoomMetadata := m : Conn.RoomMetadata (@Conn.MetaRest sevenRoomsPackage);
           Conn.rcm_CanonicalisedName := Conn.meta_RoomID m;
           Conn.rcm_HighlightCount := 0; Conn.rcm_NotificationCount := 0 |})
       <$> [exampleRoom "!g" 1; exampleRoom "!a" 50])
    (Conn.NewConnState "@alice:localhost").

(** ** The typing stream filter (src/sync3/streams/typing.go) *)

Record FilterTyping : Type := mkFilterTyping {
  ft_RoomID : string;
}.

(** [FilterTyping.Combine], on non-nil filters. *)
Definition FilterTyping_Combine (f other : FilterTyping) : FilterTyping :=
  if decide (ft_RoomID other ≠ "") then {| ft_RoomID := ft_RoomID other |}
  else {| ft_RoomID := ft_RoomID f |}.

(** ** The op replay tool (src/sync3/streams/typing.go, package main) *)

Module Replay.

Definition DELETED : string := "DELETED".

(** How a call ends: it returns, it panics (an index out of range), or it
    ends the process through [log.Fatalf] with a message. *)
Inductive Outcome (A : Type) : Type :=
  | Done (a : A)
  | Panic
  | Fatal (msg : string).
Arguments Done {A} a.
Arguments Panic {A}.
Arguments Fatal {A} msg.

Record List : Type := mkList {
  id : string;
  rooms : list string;
  deletedIndexes : gset Z;
  history : list string;
}.

Definition NewList (id : string) : List :=
  {| id := id; rooms := []; deletedIndexes := ∅; history := [] |}.

(** [l[i] = v] on a slice; [None] is the index-out-of-range panic. *)
Definition setAt {A} (l : list A) (i : Z) (v : A) : option (list A) :=
  if decide (0 ≤ i < Z.of_nat (length l)) then Some (<[Z.to_nat i := v]> l) else None.

(** [%v] of a slice of strings. *)
Definition showRooms (roomIDs : list string) : string :=
  "[" +:+ String.concat " " roomIDs +:+ "]".

Definition syncEntry (l : List) (roomIDs : list string) (start end_ : Z) : string :=
  "SYNC " +:+ id l +:+ " " +:+ pretty start +:+ " " +:+ pretty end_ +:+ " "
  +:+ showRooms roomIDs +:+ " ;".

Definition deleteEntry (l : List) (index : Z) : string :=
  "DELETE " +:+ id l +:+ " " +:+ pretty index +:+ " ;".

Definition insertEntry (l : List) (index : Z) (roomID : string) : string :=
  "INSERT " +:+ id l +:+ " " +:+ pretty index +:+ " " +:+ roomID +:+ " ;".

(** [Sync]: a window that does not start at 0 is ignored; the free slots
    recorded in [deletedIndexes] are kept. *)
Definition Sync (l : List) (roomIDs : list string) (start end_ : Z) : List :=
  if decide (start ≠ 0) then l
  else {| id := id l; rooms := roomIDs; deletedIndexes := deletedIndexes l;
          history := history l ++ [syncEntry l roomIDs start end_] |}.

(** [Delete] *)
Definition Delete (l : List) (index : Z) : Outcome List :=
  if decide (Z.of_nat (length (rooms l)) ≤ index) then Done l
  else
    match setAt (rooms l) index DELETED with
    | None => Panic
    | Some rooms' =>
      Done {| id := id l; rooms := rooms';
              deletedIndexes := {[index]} ∪ deletedIndexes l;
              history := history l ++ [deleteEntry l index] |}
    end.

(** The two shifting loops of [Insert]: [rooms[i] = rooms[i+1]] for [i]
    from the free slot up to [index - 1], and [rooms[i] = rooms[i-1]] for
    [i] from the free slot down to [index + 1]. *)
Definition shiftStep (delta : Z) (acc : option (list string)) (i : Z)
    : option (list string) :=
  rooms ← acc;
  v ← Conn.index rooms (i + delta);
  setAt rooms i v.

Definition shiftLeft (rooms : list string) (deletedIndex index : Z) : option (list string) :=
  foldl (shiftStep 1) (Some rooms) (seqZ deletedIndex (index - deletedIndex)).

Definition shiftRight (rooms : list string) (deletedIndex index : Z) : option (list string) :=
  foldl (shiftStep (-1)) (Some rooms) (reverse (seqZ (index + 1) (deletedIndex - index))).

(** [Insert] *)
Definition Insert (l : List) (index : Z) (roomID : string) : Outcome List :=
  if decide (Z.of_nat (length (rooms l)) ≤ index) then Done l
  else
    match Conn.index (rooms l) index with
    | None => Panic
    | Some occupant =>
      let shifted : Outcome (list string * gset Z) :=
        if decide (occupant ≠ DELETED) then
          if decide (size (deletedIndexes l) ≠ 1%nat) then
            Fatal ("List " +:+ id l +:+ ": cannot INSERT " +:+ pretty index +:+ " "
                   +:+ roomID +:+ " because that position is occupied by " +:+ occupant
                   +:+ " and there are no free slots")
          else
            let deletedIndex := foldl (λ _ j, j) (-1) (elements (deletedIndexes l)) in
            let deleted' := deletedIndexes l ∖ {[deletedIndex]} in
            let rooms' :=
              if decide (deletedIndex < index) then shiftLeft (rooms l) deletedIndex index
              else if decide (index < deletedIndex)
                   then shiftRight (rooms l) deletedIndex index
                   else Some (rooms l) in
            match rooms' with
            | None => Panic
            | Some rooms' => Done (rooms', deleted')
            end
        else Done (rooms l, deletedIndexes l) in
      match shifted with
      | Panic => Panic
      | Fatal msg => Fatal msg
      | Done (rooms', deleted') =>
        match setAt rooms' index roomID with
        | None => Panic
        | Some rooms'' =>
          Done {| id := id l; rooms := rooms''; deletedIndexes := deleted';
                  history := history l ++ [insertEntry l index roomID] |}
        end
      end
    end.

(** The loop of [DuplicateCheck]: the first room that is already in the
    set, with its index and the index recorded for it. *)
Fixpoint duplicateLoop (set : gmap string Z) (i : Z) (rooms : list string)
    : option (string * Z * Z) :=
  match rooms with
  | [] => None
  | roomID :: rest =>
    match set !! roomID with
    | Some j => Some (roomID, i, j)
    | None => duplicateLoop (<[roomID := i]> set) (i + 1) rest
    end
  end.

(** [DuplicateCheck]: the error, or [None] for nil. *)
Definition DuplicateCheck (l : List) : option string :=
  (λ '(roomID, i, j),
     "list " +:+ id l +:+ ": room " +:+ roomID +:+ " exists at both i=" +:+ pretty i
     +:+ " and i=" +:+ pretty j)
    <$> duplicateLoop ∅ 0 (rooms l).

End Replay.

(** The list with the room at index [from] taken out and [roomID] put in
    at index [to]. *)
Definition movedRooms (rooms : list string) (from to : nat) (roomID : string)
    : list string :=
  take to (delete from rooms) ++ roomID :: drop to (delete from rooms).

Definition replayList : Replay.List :=
  Replay.Sync (Replay.NewList "0") ["!a"; "!b"; "!c"; "!d"] 0 3.

(** The example list after [DELETE 1]. *)
Definition replayDeleted : Replay.List :=
  match Replay.Delete replayList 1 with
  | Replay.Done l => l
  | _ => replayList
  end.

(** ** The room matchers of the tests (src/testutils/m/match.go) *)

Module Match.

Definition newline : string := String (Ascii.ascii_of_nat 10) EmptyString.

(** [MatchRoomRequiredState]: the error, or [None] for nil.
    [bytes.Equal] is equality of the contents. *)
Definition MatchRoomRequiredState (events : list Conn.RawMessage) (r : Conn.Room)
    : option string :=
  if decide (length (Conn.room_RequiredState r) ≠ length events) then
    Some ("required state length mismatch, got "
          +:+ pretty (Z.of_nat (length (Conn.room_RequiredState r)))
          +:+ " want " +:+ pretty (Z.of_nat (length events)))
  else
    match List.find (λ want,
                  negb (existsb (λ got, bool_decide (got = want))
                                (Conn.room_RequiredState r))) events with
    | Some want =>
      Some ("required state want event " +:+ want +:+ " but it does not exist")
    | None => None
    end.

(** [MatchRoomTimeline] *)
Definition MatchRoomTimeline (events : list Conn.RawMessage) (r : Conn.Room)
    : option string :=
  let timeline := elems (Conn.room_Timeline r) in
  if decide (length timeline ≠ length events) then
    Some ("timeline length mismatch: got " +:+ pretty (Z.of_nat (length timeline))
          +:+ " want " +:+ pretty (Z.of_nat (length events)))
  else
    match List.find (λ i, negb (bool_decide (timeline !! i = events !! i)))
                    (seq 0 (length timeline)) with
    | Some i =>
      Some ("timeline[" +:+ pretty (Z.of_nat i) +:+ "]" +:+ newline +:+ "got  "
            +:+ default "" (timeline !! i) +:+ " " +:+ newline +:+ "want "
            +:+ default "" (events !! i))
    | None => None
    end.

(** [MatchRoomTimelineMostRecent].  The outer [None] is the panic of
    slicing [events[len(events)-n:]] when the matcher is built.  In the
    matcher the loop index stays below [n], within the timeline and
    within [events], so the reads of the error message are in range (they
    read [r.Timeline[i]] and [events[i]], not the two subsets). *)
Definition MatchRoomTimelineMostRecent (n : Z) (events : list Conn.RawMessage)
    : option (Conn.Room → option string) :=
  if decide (0 ≤ Z.of_nat (length events) - n ≤ Z.of_nat (length events)) then
    let subset := drop (Z.to_nat (Z.of_nat (length events) - n)) events in
    Some (λ r,
      let timeline := elems (Conn.room_Timeline r) in
      if decide (length timeline < length subset)%nat then
        Some ("timeline length mismatch: got " +:+ pretty (Z.of_nat (length timeline))
              +:+ " want at least " +:+ pretty (Z.of_nat (length subset)))
      else
        let gotSubset := drop (Z.to_nat (Z.of_nat (length timeline) - n)) timeline in
        match List.find (λ i, negb (bool_decide (gotSubset !! i = subset !! i)))
                        (seq 0 (length gotSubset)) with
        | Some i =>
          Some ("timeline[" +:+ pretty (Z.of_nat i) +:+ "]" +:+ newline +:+ "got  "
                +:+ default "" (timeline !! i) +:+ " " +:+ newline +:+ "want "
                +:+ default "" (events !! i))
        | None => None
        end)
  else None.

End Match.

(** * Properties *)

(** ** Move geometry *)

Lemma foldl_snoc_filter {A} (P : A → Prop) `{∀ x, Decision (P x)} (l acc : list A) :
  foldl (λ acc x, if decide (P x) then acc ++ [x] else acc) acc l = acc ++ filter P l.
Proof.
  revert acc. induction l as [|x l IH]; intros acc; simpl.
  - by rewrite app_nil_r.
  - rewrite IH. rewrite filter_cons. destruct (decide (P x)); [|done].
    by rewrite <- app_assoc.
Qed.

Lemma foldl_snoc_map {A B} (f : A → B) (l : list A) (acc : list B) :
  foldl (λ acc x, acc ++ [f x]) acc l = acc ++ (f <$> l).
Proof.
  revert acc. induction l as [|x l IH]; intros acc; simpl.
  - by rewrite app_nil_r.
  - rewrite IH. by rewrite <- app_assoc.
Qed.

Lemma jumpedOverRanges_filter rl fromIndex toIndex :
  jumpedOverRanges rl fromIndex toIndex
  = filter (JumpedOver fromIndex toIndex) (elems (Ranges rl)).
Proof.
  unfold jumpedOverRanges.
  rewrite (foldl_snoc_filter
             (λ r : Range,
                (if decide (fromIndex < toIndex) then fromIndex else toIndex) < r.1
                ∧ r.1 < (if decide (fromIndex < toIndex) then toIndex else fromIndex)
                ∧ (if decide (fromIndex < toIndex) then fromIndex else toIndex) < r.2
                ∧ r.2 < (if decide (fromIndex < toIndex) then toIndex else fromIndex))).
  simpl. apply list_filter_iff. intros r. unfold JumpedOver.
  destruct (decide (fromIndex < toIndex)); lia.
Qed.

Lemma Inside_true rs i r :
  SliceRanges.Inside rs i = (r, true) → r ∈ rs ∧ covers r i.
Proof.
  unfold SliceRanges.Inside.
  destruct (List.find _ rs) as [r'|] eqn:Hfind; [|done].
  intros [= ->]. apply find_some in Hfind as [Hin Hc].
  split; [by apply list_elem_of_In|]. by apply bool_decide_eq_true in Hc.
Qed.

Lemma Inside_false rs i :
  (SliceRanges.Inside rs i).2 = false ↔ ∀ r, r ∈ rs → ¬ covers r i.
Proof.
  unfold SliceRanges.Inside. split.
  - destruct (List.find _ rs) as [r'|] eqn:Hfind; [done|].
    intros _ r Hin Hc. apply list_elem_of_In in Hin.
    pose proof (find_none _ _ Hfind r Hin) as Hn. simpl in Hn.
    by apply bool_decide_eq_false in Hn.
  - intros Hno. destruct (List.find _ rs) as [r'|] eqn:Hfind; [|done].
    apply find_some in Hfind as [Hin Hc].
    apply bool_decide_eq_true in Hc. apply list_elem_of_In in Hin.
    by destruct (Hno r' Hin).
Qed.

Lemma Inside_disjoint rs i r :
  NonOverlapping rs → r ∈ rs → covers r i → SliceRanges.Inside rs i = (r, true).
Proof.
  intros Hdis Hin Hc. unfold SliceRanges.Inside.
  destruct (List.find _ rs) as [r'|] eqn:Hfind.
  - apply find_some in Hfind as [Hin' Hc'].
    apply bool_decide_eq_true in Hc'. apply list_elem_of_In in Hin'.
    apply list_elem_of_lookup in Hin as [k Hk].
    apply list_elem_of_lookup in Hin' as [k' Hk'].
    assert (k = k') as -> by (by eapply Hdis).
    congruence.
  - apply list_elem_of_In in Hin.
    pose proof (find_none _ _ Hfind r Hin) as Hn. simpl in Hn.
    apply bool_decide_eq_false in Hn. by destruct Hn.
Qed.

Lemma CalculateMoveIndexes_same cid rl fromIndex toIndex r :
  SliceRanges.Inside (elems (Ranges rl)) fromIndex = (r, true) →
  SliceRanges.Inside (elems (Ranges rl)) toIndex = (r, true) →
  CalculateMoveIndexes cid rl fromIndex toIndex = ([(fromIndex, toIndex)], true).
Proof.
  intros Hf Ht. unfold CalculateMoveIndexes. rewrite Hf, Ht. simpl.
  by rewrite bool_decide_eq_true_2.
Qed.

Lemma CalculateMoveIndexes_outside cid rl fromIndex toIndex :
  (SliceRanges.Inside (elems (Ranges rl)) fromIndex).2 = false →
  (SliceRanges.Inside (elems (Ranges rl)) toIndex).2 = false →
  CalculateMoveIndexes cid rl fromIndex toIndex
  = let jumped := filter (JumpedOver fromIndex toIndex) (elems (Ranges rl)) in
    match jumped with
    | [] => ([], false)
    | _ :: _ => (jumpPair fromIndex toIndex <$> jumped, true)
    end.
Proof.
  intros Hf Ht. unfold CalculateMoveIndexes.
  destruct (SliceRanges.Inside _ fromIndex) as [fr fb].
  destruct (SliceRanges.Inside _ toIndex) as [tr tb].
  simpl in Hf, Ht. subst fb tb. simpl.
  rewrite jumpedOverRanges_filter.
  destruct (filter _ _) as [|j js] eqn:Hj; simpl; [done|].
  unfold appendJumps. simpl. by rewrite foldl_snoc_map.
Qed.

(** C2.  [CalculateMoveIndexes], cases A and C.  Case A: when both indexes
    are inside the same range (as the code tests it: [Inside] gives the same
    range for both; and, for pairwise disjoint ranges, whenever one range
    covers both), the result is the single pair [(fromIndex, toIndex)] with
    ok.  Case C: when no range covers either index, the jumped-over ranges
    are those with both bounds strictly between the lower and the higher
    index; with none, the result is no pair and not ok; otherwise it is ok
    with one pair per jumped-over range, in the order of the ranges,
    [(hi, lo)] when [fromIndex > toIndex] and [(lo, hi)] otherwise. *)
Theorem CalculateMoveIndexes_cases
    (ClosestInDirection : list Range → Z → bool → Z)
    (rl : RequestList) (fromIndex toIndex : Z) :
  let rs := elems (Ranges rl) in
  let jumped := filter (JumpedOver fromIndex toIndex) rs in
  let result := CalculateMoveIndexes ClosestInDirection rl fromIndex toIndex in
  (∀ r, SliceRanges.Inside rs fromIndex = (r, true) →
        SliceRanges.Inside rs toIndex = (r, true) →
        result = ([(fromIndex, toIndex)], true)) ∧
  (NonOverlapping rs →
   ∀ r, r ∈ rs → covers r fromIndex → covers r toIndex →
        result = ([(fromIndex, toIndex)], true)) ∧
  ((∀ r, r ∈ rs → ¬ covers r fromIndex) → (∀ r, r ∈ rs → ¬ covers r toIndex) →
   jumpedOverRanges rl fromIndex toIndex = jumped ∧
   (jumped = [] → result = ([], false)) ∧
   (jumped ≠ [] →
    result = ((λ r : Range, if decide (toIndex < fromIndex)
                            then (r.2, r.1) else (r.1, r.2)) <$> jumped, true))).
Proof.
  intros rs jumped result. split_and!.
  - intros r Hf Ht. by eapply CalculateMoveIndexes_same.
  - intros Hdis r Hin Hf Ht.
    eapply CalculateMoveIndexes_same; by apply Inside_disjoint.
  - intros Hf Ht. apply Inside_false in Hf, Ht.
    split; [apply jumpedOverRanges_filter|].
    subst result. rewrite CalculateMoveIndexes_outside by done.
    fold rs. fold jumped. simpl.
    split; intros Hj; destruct jumped; done.
Qed.

(** The worked example of the source: ranges [[1,4],[7,9]]; moving 3 to 2
    stays inside one range; moving 10 to 0 jumps over both. *)
Lemma CalculateMoveIndexes_cases_witness :
  CalculateMoveIndexes (λ _ i _, i) exampleList 3 2 = ([(3, 2)], true) ∧
  CalculateMoveIndexes (λ _ i _, i) exampleList 10 0 = ([(4, 1); (9, 7)], true) ∧
  CalculateMoveIndexes (λ _ i _, i) exampleList 6 5 = ([], false).
Proof.
  pose proof (CalculateMoveIndexes_cases (λ _ i _, i) exampleList 3 2) as (HA & _ & _).
  pose proof (CalculateMoveIndexes_cases (λ _ i _, i) exampleList 10 0) as (_ & _ & HC).
  pose proof (CalculateMoveIndexes_cases (λ _ i _, i) exampleList 6 5) as (_ & _ & HC').
  split_and!.
  - apply (HA (1, 4)); reflexivity.
  - destruct HC as (_ & _ & H).
    + intros r Hr. vm_compute in Hr. unfold covers.
      repeat (apply elem_of_cons in Hr as [->|Hr]; [simpl; lia|]).
      by apply elem_of_nil in Hr.
    + intros r Hr. unfold covers.
      repeat (apply elem_of_cons in Hr as [->|Hr]; [simpl; lia|]).
      by apply elem_of_nil in Hr.
    + apply H. vm_compute. discriminate.
  - destruct HC' as (_ & H & _).
    + intros r Hr. unfold covers.
      repeat (apply elem_of_cons in Hr as [->|Hr]; [simpl; lia|]).
      by apply elem_of_nil in Hr.
    + intros r Hr. unfold covers.
      repeat (apply elem_of_cons in Hr as [->|Hr]; [simpl; lia|]).
      by apply elem_of_nil in Hr.
    + apply H. vm_compute. reflexivity.
Defined.

(** ** Merging requests *)

Lemma mergeListAt_spec rLists nextLists lists i nl :
  nextLists !! i = Some nl →
  mergeListAt rLists (nextLists, lists) i
  = (<[i := defaultedList (rLists !! i) nl]> nextLists,
     <[i := mergedList (rLists !! i) nl]> lists).
Proof.
  intros Hnl. unfold mergeListAt. rewrite Hnl.
  destruct (rLists !! i) as [ex|] eqn:Hex; unfold mergedList, defaultedList.
  - rewrite !decide_False by (intros [_ ?]; done). done.
  - done.
Qed.

Lemma mergeListAt_loop rLists (nl0 : list RequestList) (k : nat) :
  (k ≤ length nl0)%nat →
  foldl (mergeListAt rLists) (nl0, replicate (length nl0) zeroRequestList) (seq 0 k)
  = (imap (λ i nl, defaultedList (rLists !! i) nl) (take k nl0) ++ drop k nl0,
     imap (λ i nl, mergedList (rLists !! i) nl) (take k nl0)
       ++ replicate (length nl0 - k) zeroRequestList).
Proof.
  induction k as [|k IH]; intros Hk.
  - simpl. by rewrite Nat.sub_0_r.
  - rewrite seq_S, foldl_app, IH by lia. cbn [foldl Nat.add].
    destruct (lookup_lt_is_Some_2 nl0 k) as [x Hx]; [lia|].
    assert (length (take k nl0) = k) as Hlen by (rewrite length_take; lia).
    erewrite mergeListAt_spec; last first.
    { rewrite lookup_app_r by (rewrite length_imap; lia).
      rewrite length_imap, Hlen, Nat.sub_diag, lookup_drop, Nat.add_0_r. exact Hx. }
    rewrite (take_S_r _ _ _ Hx), !imap_app. simpl. rewrite Hlen, Nat.add_0_r.
    rewrite !insert_app_r_alt by (rewrite length_imap; lia).
    rewrite !length_imap, Hlen, Nat.sub_diag.
    rewrite (drop_S _ _ _ Hx).
    replace (length nl0 - k)%nat with (S (length nl0 - S k)) by lia.
    simpl. by rewrite <- !app_assoc.
Qed.

Lemma mergeListAt_all rLists (nl0 : list RequestList) :
  foldl (mergeListAt rLists) (nl0, replicate (length nl0) zeroRequestList)
        (seq 0 (length nl0))
  = (imap (λ i nl, defaultedList (rLists !! i) nl) nl0,
     imap (λ i nl, mergedList (rLists !! i) nl) nl0).
Proof.
  rewrite mergeListAt_loop by lia.
  by rewrite firstn_all, drop_all, Nat.sub_diag, !app_nil_r.
Qed.

Lemma map_fold_insert_union {V} (m acc : gmap string V) :
  map_fold (λ k v a, <[k := v]> a) acc m = m ∪ acc.
Proof.
  apply (map_fold_weak_ind (λ res m, res = m ∪ acc)).
  - simpl. by rewrite (left_id_L ∅ (∪)).
  - simpl. intros i x m' r _ ->. by rewrite insert_union_l.
Qed.

Lemma lookup_foldl_delete {V} (l : list string) (m : gmap string V) x :
  foldl (λ acc k, delete k acc) m l !! x = if decide (x ∈ l) then None else m !! x.
Proof.
  revert m. induction l as [|k l IH]; intros m; cbn [foldl].
  - destruct (decide (x ∈ [])) as [[]%elem_of_nil|]; done.
  - rewrite IH. destruct (decide (x ∈ l)) as [Hin|Hnin].
    + destruct (decide (x ∈ k :: l)) as [|[]]; [done|by right].
    + destruct (decide (x = k)) as [->|Hne].
      * destruct (decide (k ∈ k :: l)) as [|[]]; [|by left].
        apply lookup_delete_eq.
      * destruct (decide (x ∈ k :: l)) as [[?|?]%elem_of_cons|]; [done..|].
        by apply lookup_delete_ne.
Qed.

Lemma unsubscribeStep_fst report l m acc :
  (foldl (unsubscribeStep report) (m, acc) l).1 = foldl (λ a k, delete k a) m l.
Proof.
  revert m acc. induction l as [|k l IH]; intros m acc; simpl; [done|]. apply IH.
Qed.

Lemma unsubscribeStep_snd report l m acc x :
  x ∈ (foldl (unsubscribeStep report) (m, acc) l).2
  ↔ x ∈ acc ∨ (x ∈ l ∧ is_Some (m !! x) ∧ report x = true).
Proof.
  revert m acc. induction l as [|k l IH]; intros m acc; simpl.
  - split; [by left|]. intros [?|[[]%elem_of_nil _]]. done.
  - rewrite IH. clear IH.
    destruct (decide (x = k)) as [->|Hne].
    + rewrite lookup_delete_eq.
      destruct (bool_decide (is_Some (m !! k))) eqn:Hs; simpl.
      * apply bool_decide_eq_true in Hs. destruct (report k) eqn:Hr.
        -- rewrite elem_of_app, list_elem_of_singleton. split.
           ++ intros [[?|_]|(_ & [] %is_Some_None & _)]; [by left|].
              right. split_and!; [by left|done|done].
           ++ intros [?|_]; left; [by left|by right].
        -- split.
           ++ intros [?|(_ & []%is_Some_None & _)]. by left.
           ++ intros [?|(_ & _ & ?)]; [by left|done].
      * apply bool_decide_eq_false in Hs. split.
        -- intros [?|(_ & []%is_Some_None & _)]. by left.
        -- intros [?|(_ & ? & _)]; [by left|done].
    + rewrite lookup_delete_ne by done.
      assert (x ∈ (if bool_decide (is_Some (m !! k)) && report k
                   then acc ++ [k] else acc) ↔ x ∈ acc) as ->.
      { destruct (_ && _); [|done].
        rewrite elem_of_app, list_elem_of_singleton. tauto. }
      rewrite elem_of_cons. tauto.
Qed.

Lemma subs_fold_spec {V} (prev m : gmap string V) x :
  x ∈ map_fold (λ roomID (_ : V) acc,
                  if bool_decide (is_Some (prev !! roomID)) then acc
                  else acc ++ [roomID]) [] m
  ↔ is_Some (m !! x) ∧ prev !! x = None.
Proof.
  apply (map_fold_weak_ind
           (λ res m, x ∈ res ↔ is_Some (m !! x) ∧ prev !! x = None)).
  - rewrite lookup_empty. split; [by intros ?%elem_of_nil|].
    by intros [?%is_Some_None _].
  - intros i v m' r Hi IH.
    destruct (decide (x = i)) as [->|Hne].
    + rewrite lookup_insert_eq. case_bool_decide as Hp.
      * rewrite IH, Hi. split; [by intros [?%is_Some_None _]|].
        intros [_ Hn]. rewrite Hn in Hp. by apply is_Some_None in Hp.
      * rewrite elem_of_app, list_elem_of_singleton, IH.
        split; [|by right]. intros _. split; [done|].
        by apply eq_None_not_Some.
    + rewrite lookup_insert_ne by done. case_bool_decide; [done|].
      rewrite elem_of_app, list_elem_of_singleton, IH. tauto.
Qed.

Section ApplyDeltaFacts.

Context {E : Type} (extApplyDelta : E → E → E) (extZero : E).

(** The three results of [ApplyDelta] in closed form. *)
Lemma ApplyDelta_lists (r : option (Request E)) (next : Request E) :
  Lists (ApplyDelta extApplyDelta extZero r next).1.1
  = imap (λ i nl, mergedList (prevLists r !! i) nl) (Lists next).
Proof.
  unfold ApplyDelta.
  assert (Lists (default (emptyRequest extZero) r) = prevLists r) as ->
    by by destruct r.
  rewrite mergeListAt_all.
  repeat (match goal with |- context [let '(_, _) := ?p in _] => destruct p end).
  done.
Qed.

Lemma ApplyDelta_next_lists (r : option (Request E)) (next : Request E) :
  Lists (ApplyDelta extApplyDelta extZero r next).2
  = imap (λ i nl, defaultedList (prevLists r !! i) nl) (Lists next).
Proof.
  unfold ApplyDelta.
  assert (Lists (default (emptyRequest extZero) r) = prevLists r) as ->
    by by destruct r.
  rewrite mergeListAt_all.
  repeat (match goal with |- context [let '(_, _) := ?p in _] => destruct p end).
  done.
Qed.

Lemma ApplyDelta_subscriptions_eq (r : option (Request E)) (next : Request E) :
  RoomSubscriptions (ApplyDelta extApplyDelta extZero r next).1.1
  = foldl (λ a k, delete k a)
      (RoomSubscriptions next
         ∪ foldl (λ a k, delete k a) (prevSubscriptions r) (prevUnsubscribes r))
      (UnsubscribeRooms next).
Proof.
  unfold ApplyDelta.
  assert (RoomSubscriptions (default (emptyRequest extZero) r) = prevSubscriptions r)
    as -> by by destruct r.
  assert (UnsubscribeRooms (default (emptyRequest extZero) r) = prevUnsubscribes r)
    as -> by by destruct r.
  destruct (foldl (mergeListAt _) _ _) as [nls ls].
  rewrite !map_fold_insert_union, (right_id_L ∅ (∪)).
  match goal with
  | |- context [let '(_, _) := ?p in _] => destruct p as [m1 u1] eqn:H1
  end.
  apply (f_equal fst) in H1. rewrite unsubscribeStep_fst in H1. simpl in H1. subst m1.
  match goal with
  | |- context [let '(_, _) := ?p in _] => destruct p as [m2 u2] eqn:H2
  end.
  apply (f_equal fst) in H2. rewrite unsubscribeStep_fst in H2. simpl in H2.
  rewrite map_fold_insert_union in H2. by subst m2.
Qed.

End ApplyDeltaFacts.

Section ApplyDeltaClaims.

Context {E : Type} (extApplyDelta : E → E → E) (extZero : E).

Local Abbreviation applyDelta := (ApplyDelta extApplyDelta extZero).

(** C3 (as amended).  For every previous request (possibly nil), incoming
    request and list position [i] of the incoming request, [ApplyDelta]
    produces a list at position [i].  When the previous request has no
    list at [i], it is the incoming list, its sort order replaced by
    [[by_recency]] when empty.  When it has one, ranges, required-state,
    filters, slow-get-all-rooms and sort are the incoming list's when set
    (non-nil, be it empty) and the previous list's otherwise; the
    timeline-limit is the incoming one when positive and the previous one
    when the incoming one is 0. *)
Theorem ApplyDelta_list_rules
    (r : option (Request E)) (next : Request E) (i : nat) (nl : RequestList) :
  Lists next !! i = Some nl →
  ∃ out, Lists (applyDelta r next).1.1 !! i = Some out ∧
    match prevLists r !! i with
    | None =>
      out = if decide (len (Sort nl) = 0) then setSort (Some [SortByRecency]) nl else nl
    | Some ex =>
      Ranges out = match Ranges nl with Some _ => Ranges nl | None => Ranges ex end ∧
      rlRequiredState out
        = match rlRequiredState nl with
          | Some _ => rlRequiredState nl
          | None => rlRequiredState ex
          end ∧
      Filters out = match Filters nl with Some _ => Filters nl | None => Filters ex end ∧
      SlowGetAllRooms out
        = match SlowGetAllRooms nl with
          | Some _ => SlowGetAllRooms nl
          | None => SlowGetAllRooms ex
          end ∧
      Sort out = match Sort nl with Some _ => Sort nl | None => Sort ex end ∧
      (0 < rlTimelineLimit nl → rlTimelineLimit out = rlTimelineLimit nl) ∧
      (rlTimelineLimit nl = 0 → rlTimelineLimit out = rlTimelineLimit ex)
    end.
Proof.
  intros Hnl. rewrite ApplyDelta_lists, list_lookup_imap, Hnl. simpl.
  eexists; split; [done|].
  destruct (prevLists r !! i) as [ex|]; simpl.
  - unfold rlTimelineLimit, rlRequiredState. simpl. split_and!; try done.
    + intros Hpos. by rewrite decide_False by lia.
    + intros Hz. by rewrite decide_True.
  - unfold defaultedList. destruct (decide (len (Sort nl) = 0)).
    + by rewrite decide_True.
    + rewrite decide_False; [done|]. by intros [? _].
Qed.

(** C4 (as amended).  The combined subscription map is the previous
    subscriptions without the previous unsubscribes, overridden by the
    incoming subscriptions, without the incoming unsubscribes.  A room in
    both the incoming subscriptions and the incoming unsubscribes ends up
    unsubscribed, and is in [delta.Unsubs] only when it was a previous
    subscription that the previous unsubscribes removed.  [delta.Subs] is
    exactly the identifiers of the result that the previous subscriptions
    lack.  [delta.Unsubs] is exactly the previous subscriptions named by a
    previous unsubscribe or by an incoming unsubscribe without an incoming
    subscription; when the previous request carries no unsubscribes these
    are the previous subscriptions absent from the result, less the rooms
    in both the incoming subscriptions and unsubscribes. *)
Theorem ApplyDelta_subscription_rules (r : option (Request E)) (next : Request E) :
  let result := (applyDelta r next).1.1 in
  let delta := (applyDelta r next).1.2 in
  (∀ x, RoomSubscriptions result !! x
        = if decide (x ∈ UnsubscribeRooms next) then None
          else match RoomSubscriptions next !! x with
               | Some sub => Some sub
               | None => if decide (x ∈ prevUnsubscribes r) then None
                         else prevSubscriptions r !! x
               end) ∧
  (∀ x, is_Some (RoomSubscriptions next !! x) → x ∈ UnsubscribeRooms next →
        RoomSubscriptions result !! x = None ∧
        (x ∈ Unsubs delta ↔ is_Some (prevSubscriptions r !! x) ∧ x ∈ prevUnsubscribes r)) ∧
  (∀ x, x ∈ Subs delta
        ↔ is_Some (RoomSubscriptions result !! x) ∧ prevSubscriptions r !! x = None) ∧
  (∀ x, x ∈ Unsubs delta
        ↔ is_Some (prevSubscriptions r !! x) ∧
          (x ∈ prevUnsubscribes r ∨
           (x ∈ UnsubscribeRooms next ∧ RoomSubscriptions next !! x = None))) ∧
  (prevUnsubscribes r = [] →
   ∀ x, x ∈ Unsubs delta
        ↔ is_Some (prevSubscriptions r !! x) ∧ RoomSubscriptions result !! x = None ∧
          ¬ (is_Some (RoomSubscriptions next !! x) ∧ x ∈ UnsubscribeRooms next)).
Proof.
  intros result delta.
  assert (Hres : ∀ x, RoomSubscriptions result !! x
        = if decide (x ∈ UnsubscribeRooms next) then None
          else match RoomSubscriptions next !! x with
               | Some sub => Some sub
               | None => if decide (x ∈ prevUnsubscribes r) then None
                         else prevSubscriptions r !! x
               end).
  { intros x. subst result. rewrite ApplyDelta_subscriptions_eq, lookup_foldl_delete.
    destruct (decide (x ∈ UnsubscribeRooms next)); [done|].
    rewrite lookup_union, lookup_foldl_delete.
    destruct (RoomSubscriptions next !! x); simpl.
    - by destruct (decide _); [|destruct (_ !! x)].
    - destruct (decide _); [done|]. by destruct (_ !! x). }
  assert (Hsubs : ∀ x, x ∈ Subs delta
        ↔ is_Some (RoomSubscriptions result !! x) ∧ prevSubscriptions r !! x = None).
  { intros x. subst result delta. unfold ApplyDelta.
    assert (RoomSubscriptions (default (emptyRequest extZero) r) = prevSubscriptions r)
      as -> by by destruct r.
    repeat match goal with
           | |- context [let '(_, _) := ?p in _] => destruct p
           end.
    simpl. apply subs_fold_spec. }
  assert (Hunsubs : ∀ x, x ∈ Unsubs delta
        ↔ is_Some (prevSubscriptions r !! x) ∧
          (x ∈ prevUnsubscribes r ∨
           (x ∈ UnsubscribeRooms next ∧ RoomSubscriptions next !! x = None))).
  { intros x. subst result delta. unfold ApplyDelta.
    assert (RoomSubscriptions (default (emptyRequest extZero) r) = prevSubscriptions r)
      as -> by by destruct r.
    assert (UnsubscribeRooms (default (emptyRequest extZero) r) = prevUnsubscribes r)
      as -> by by destruct r.
    destruct (foldl (mergeListAt _) _ _) as [nls ls].
    rewrite !map_fold_insert_union, (right_id_L ∅ (∪)).
    match goal with
    | |- context [let '(_, _) := ?p in _] => destruct p as [m1 u1] eqn:H1
    end.
    pose proof (unsubscribeStep_snd (λ _, true) (prevUnsubscribes r)
                  (prevSubscriptions r) [] x) as Hu1.
    pose proof (unsubscribeStep_fst (λ _, true) (prevUnsubscribes r)
                  (prevSubscriptions r) []) as Hm1.
    rewrite H1 in Hu1, Hm1. simpl in Hu1, Hm1. subst m1.
    match goal with
    | |- context [let '(_, _) := ?p in _] => destruct p as [m2 u2] eqn:H2
    end.
    rewrite map_fold_insert_union in H2.
    pose proof (unsubscribeStep_snd
                  (λ roomID, bool_decide (RoomSubscriptions next !! roomID = None))
                  (UnsubscribeRooms next)
                  (RoomSubscriptions next
                     ∪ foldl (λ a k, delete k a) (prevSubscriptions r)
                         (prevUnsubscribes r))
                  u1 x) as Hu2.
    rewrite H2 in Hu2. simpl in Hu2. simpl. rewrite Hu2, Hu1. clear Hu1 Hu2 H1 H2.
    rewrite lookup_union, lookup_foldl_delete, elem_of_nil.
    assert (Hno : ∀ A (o : option A), is_Some (None ∪ o) ↔ is_Some o)
      by (by intros A []).
    assert (Hyes : ∀ A (v : A) (o : option A), is_Some (Some v ∪ o) ↔ True)
      by (intros A v []; split; eauto).
    destruct (RoomSubscriptions next !! x) as [v|] eqn:Hn;
      destruct (decide (x ∈ prevUnsubscribes r));
      rewrite ?Hno, ?Hyes, ?is_Some_alt; simpl;
      destruct (prevSubscriptions r !! x); simpl;
      intuition (try discriminate; try done). }
  split_and!; [done| |done|done|].
  - intros x [v Hv] Hin. split.
    + rewrite Hres. by destruct (decide (x ∈ UnsubscribeRooms next)).
    + rewrite Hunsubs, Hv. intuition discriminate.
  - intros Hnil x. rewrite Hunsubs, Hres, Hnil, elem_of_nil.
    destruct (decide (x ∈ UnsubscribeRooms next));
      destruct (decide (x ∈ [])) as [[]%elem_of_nil|];
      destruct (RoomSubscriptions next !! x);
      destruct (prevSubscriptions r !! x);
      rewrite ?is_Some_alt; simpl; intuition (try discriminate; try done).
Qed.

End ApplyDeltaClaims.

(** C3, witness: a list added at a new position takes the default sort
    order; a list merged over a previous one keeps the previous sort order
    when it sets none. *)
Lemma ApplyDelta_list_rules_witness :
  (∃ out, Lists (applyDeltaUnit None (requestOfLists [zeroRequestList])).1.1 !! 0%nat
          = Some out ∧ out = setSort (Some [SortByRecency]) zeroRequestList) ∧
  (∃ out, Lists (applyDeltaUnit (Some prevByName) (requestOfLists [zeroRequestList])).1.1
            !! 0%nat = Some out ∧ Sort out = Some [SortByName]).
Proof.
  split.
  - destruct (ApplyDelta_list_rules (λ _ _, tt) tt None
                (requestOfLists [zeroRequestList]) 0 zeroRequestList eq_refl)
      as (out & Hout & Hrule).
    exists out. split; [exact Hout|]. exact Hrule.
  - destruct (ApplyDelta_list_rules (λ _ _, tt) tt (Some prevByName)
                (requestOfLists [zeroRequestList]) 0 zeroRequestList eq_refl)
      as (out & Hout & Hrule).
    exists out. split; [exact Hout|]. simpl in Hrule.
    destruct Hrule as (_ & _ & _ & _ & Hsort & _). exact Hsort.
Defined.

(** C3, counterexample to the rule as the specification states it: the incoming list's sort
    order is empty (an allocated slice without elements) and a previous
    list sorted by name exists at the position, yet the combined list does
    not take the previous sort order: it keeps the empty one. *)
Lemma ApplyDelta_empty_sort_counterexample :
  ∃ prevList nl out,
    Lists prevByName !! 0%nat = Some prevList ∧
    Lists nextEmptySort !! 0%nat = Some nl ∧
    Lists (applyDeltaUnit (Some prevByName) nextEmptySort).1.1 !! 0%nat = Some out ∧
    len (Sort nl) = 0 ∧ Sort prevList = Some [SortByName] ∧
    Sort out = Some [] ∧ Sort out ≠ Sort prevList.
Proof.
  eexists _, _, _. split_and!; try reflexivity. vm_compute. discriminate.
Qed.

(** C4, witness: a room of the previous subscriptions that the incoming
    request unsubscribes from leaves the map and is reported. *)
Lemma ApplyDelta_subscription_rules_witness :
  RoomSubscriptions (applyDeltaUnit (Some prevSub) nextUnsub).1.1 !! "!a" = None ∧
  "!a" ∈ Unsubs (applyDeltaUnit (Some prevSub) nextUnsub).1.2.
Proof.
  pose proof (ApplyDelta_subscription_rules (λ _ _, tt) tt (Some prevSub) nextUnsub)
    as (Hmap & _ & _ & _ & Hun).
  unfold applyDeltaUnit. split.
  - rewrite (Hmap "!a"). reflexivity.
  - apply (Hun eq_refl "!a"). split_and!.
    + by eexists.
    + rewrite (Hmap "!a"). reflexivity.
    + intros [[v Hv] _]. vm_compute in Hv. discriminate.
Defined.

(** C4, counterexample to the rule as the specification states it, with a previous request
    that holds a room and unsubscribes from it.  (1) The incoming request
    both subscribes to and unsubscribes from the room, and the room is
    reported in [delta.Unsubs].  (2) The incoming request subscribes to the
    room: it is in the previous subscriptions and in the result, so it was
    not dropped, and it is reported in [delta.Unsubs]. *)
Lemma ApplyDelta_unsubs_counterexample :
  (is_Some (RoomSubscriptions nextSubUnsub !! "!a") ∧
   "!a" ∈ UnsubscribeRooms nextSubUnsub ∧
   "!a" ∈ Unsubs (applyDeltaUnit (Some prevSubUnsub) nextSubUnsub).1.2) ∧
  (is_Some (RoomSubscriptions prevSubUnsub !! "!a") ∧
   is_Some (RoomSubscriptions (applyDeltaUnit (Some prevSubUnsub) nextSub).1.1 !! "!a") ∧
   "!a" ∈ Unsubs (applyDeltaUnit (Some prevSubUnsub) nextSub).1.2).
Proof.
  split_and!; try (by eexists); try (vm_compute; apply list_elem_of_here).
Qed.

Lemma mergedList_self (l : RequestList) : mergedList (Some l) l = l.
Proof.
  destruct l as [[rs tl] rg so fi sl]. unfold mergedList, rlRequiredState, rlTimelineLimit.
  simpl. destruct rs, rg, so, fi, sl; simpl; by destruct (decide (tl = 0)).
Qed.

(** Merging a list over its own defaulted form gives that form back unless
    the list sets an allocated empty sort order. *)
Lemma mergedList_defaulted (nl : RequestList) :
  mergedList (Some (defaultedList None nl)) nl = defaultedList None nl
  ↔ Sort nl ≠ Some [].
Proof.
  destruct nl as [[rs tl] rg so fi sl].
  unfold mergedList, defaultedList, rlRequiredState, rlTimelineLimit, len, elems.
  destruct so as [[|x so]|]; cbn.
  - split; [intros [=]|done].
  - split; [done|intros _].
    destruct rs, rg, fi, sl; cbn; by destruct (decide (tl = 0)).
  - split; [done|intros _].
    destruct rs, rg, fi, sl; cbn; by destruct (decide (tl = 0)).
Qed.

Section ApplyDeltaIdempotence.

Context {E : Type} (extApplyDelta : E → E → E) (extZero : E).

Local Abbreviation applyDelta := (ApplyDelta extApplyDelta extZero).

Lemma ApplyDelta_result_fields (r : option (Request E)) (next : Request E) :
  let result := (applyDelta r next).1.1 in
  TxnID result = "" ∧ UnsubscribeRooms result = [] ∧ pos result = 0 ∧
  timeoutMSecs result = 0 ∧
  Extensions result = match r with
                      | None => Extensions next
                      | Some r => extApplyDelta (Extensions r) (Extensions next)
                      end.
Proof.
  unfold ApplyDelta.
  repeat match goal with
         | |- context [let '(_, _) := ?p in _] => destruct p
         end.
  done.
Qed.

Lemma ApplyDelta_next_fields (r : option (Request E)) (next : Request E) :
  let next' := (applyDelta r next).2 in
  TxnID next' = TxnID next ∧ RoomSubscriptions next' = RoomSubscriptions next ∧
  UnsubscribeRooms next' = UnsubscribeRooms next ∧ Extensions next' = Extensions next ∧
  pos next' = pos next ∧ timeoutMSecs next' = timeoutMSecs next.
Proof.
  unfold ApplyDelta.
  repeat match goal with
         | |- context [let '(_, _) := ?p in _] => destruct p
         end.
  done.
Qed.

(** C9.  [ApplyDelta] applied twice.  With [m = ApplyDelta(nil, r)], the
    request [ApplyDelta(m, r)] has the same subscription map as [m], and
    the same transaction id, unsubscribe list, position and timeout, for
    every [r]; it has the same lists exactly when no list of [r] sets an
    allocated empty sort order.  (Such a list gets [[by_recency]] in [m]
    and keeps its empty sort order when merged over [m].)  When the
    second call is given [r] as the first call left it, with the default
    sort order written into its lists, the lists are the same for every
    [r].  The extensions are the extensions' own merge of [r]'s with
    themselves. *)
Theorem ApplyDelta_idempotent (r : Request E) :
  let first := applyDelta None r in
  let second := applyDelta (Some first.1.1) r in
  let again := applyDelta (Some first.1.1) first.2 in
  (Lists second.1.1 = Lists first.1.1 ↔ ∀ l, l ∈ Lists r → Sort l ≠ Some []) ∧
  RoomSubscriptions second.1.1 = RoomSubscriptions first.1.1 ∧
  TxnID second.1.1 = TxnID first.1.1 ∧
  UnsubscribeRooms second.1.1 = UnsubscribeRooms first.1.1 ∧
  pos second.1.1 = pos first.1.1 ∧
  timeoutMSecs second.1.1 = timeoutMSecs first.1.1 ∧
  Extensions second.1.1 = extApplyDelta (Extensions r) (Extensions r) ∧
  Lists again.1.1 = Lists first.1.1 ∧
  RoomSubscriptions again.1.1 = RoomSubscriptions first.1.1 ∧
  TxnID again.1.1 = TxnID first.1.1 ∧
  UnsubscribeRooms again.1.1 = UnsubscribeRooms first.1.1 ∧
  pos again.1.1 = pos first.1.1 ∧
  timeoutMSecs again.1.1 = timeoutMSecs first.1.1 ∧
  Extensions again.1.1 = extApplyDelta (Extensions r) (Extensions r).
Proof.
  intros first second again.
  destruct (ApplyDelta_result_fields None r)
    as (Ht1 & Hu1 & Hp1 & Hto1 & He1).
  destruct (ApplyDelta_result_fields (Some first.1.1) r)
    as (Ht2 & Hu2 & Hp2 & Hto2 & He2).
  destruct (ApplyDelta_result_fields (Some first.1.1) first.2)
    as (Ht3 & Hu3 & Hp3 & Hto3 & He3).
  destruct (ApplyDelta_next_fields None r) as (_ & Hns & Hnu & Hne & _).
  fold first in Ht1, Hu1, Hp1, Hto1, He1, Hns, Hnu, Hne.
  fold second in Ht2, Hu2, Hp2, Hto2, He2.
  fold again in Ht3, Hu3, Hp3, Hto3, He3.
  assert (Hsubs : ∀ next : Request E,
             RoomSubscriptions next = RoomSubscriptions r →
             UnsubscribeRooms next = UnsubscribeRooms r →
             RoomSubscriptions (applyDelta (Some first.1.1) next).1.1
             = RoomSubscriptions first.1.1).
  { intros next Hs Hu. rewrite ApplyDelta_subscriptions_eq. simpl.
    rewrite Hu1, Hs, Hu. simpl. subst first.
    rewrite ApplyDelta_subscriptions_eq. simpl.
    apply map_eq. intros x.
    rewrite !lookup_foldl_delete, !lookup_union, !lookup_foldl_delete.
    destruct (decide (x ∈ UnsubscribeRooms r)); [done|].
    rewrite lookup_empty.
    destruct (decide (x ∈ [])) as [[]%elem_of_nil|].
    rewrite lookup_union, lookup_empty. by destruct (RoomSubscriptions r !! x). }
  assert (Hfirst : ∀ i, Lists first.1.1 !! i = defaultedList None <$> Lists r !! i).
  { intros i. subst first. rewrite ApplyDelta_lists, list_lookup_imap. simpl.
    rewrite ?lookup_nil. by destruct (Lists r !! i). }
  split_and!; try congruence.
  - subst second. rewrite ApplyDelta_lists. simpl. split.
    + intros Heq l [i Hi]%list_elem_of_lookup.
      apply (f_equal (λ ls, ls !! i)) in Heq.
      rewrite list_lookup_imap, Hfirst, Hi in Heq. cbn in Heq.
      injection Heq as Heq. by apply mergedList_defaulted.
    + intros Hall. apply list_eq. intros i.
      rewrite list_lookup_imap, Hfirst.
      destruct (Lists r !! i) as [nl|] eqn:Hi; [|done]. cbn. f_equal.
      apply mergedList_defaulted, Hall. by eapply list_elem_of_lookup_2.
  - by apply Hsubs.
  - subst again. rewrite ApplyDelta_lists. subst first.
    rewrite ApplyDelta_next_lists. simpl. rewrite ApplyDelta_lists. simpl.
    apply list_eq. intros i. rewrite !list_lookup_imap.
    destruct (Lists r !! i) as [nl|]; [|done].
    rewrite lookup_nil. cbn [fmap option_fmap option_map]. f_equal.
    apply (mergedList_self (defaultedList None nl)).
  - by apply Hsubs.
Qed.

End ApplyDeltaIdempotence.

(** C9, counterexample to idempotence as the specification states it: a
    request whose one list sets an allocated empty sort order.  Applied to
    nil it gives the list the sort order [[by_recency]]; the same request
    applied to that result gives the list the empty sort order, so the two
    results have different lists. *)
Lemma ApplyDelta_idempotent_counterexample :
  let first := applyDeltaUnit None nextEmptySort in
  let second := applyDeltaUnit (Some first.1.1) nextEmptySort in
  Sort <$> Lists first.1.1 = [Some [SortByRecency]] ∧
  Sort <$> Lists second.1.1 = [Some []] ∧
  Lists second.1.1 ≠ Lists first.1.1.
Proof.
  split_and!; [reflexivity|reflexivity|]. vm_compute. discriminate.
Qed.

(** ** Connection state *)

Section ConnFacts.

Import Conn.

Context `{P : Package}.
Context (SortRooms : slice string → list RoomConnMetadata → list RoomConnMetadata).

Lemma Inside_covers (rs : slice Range) (i : Z) :
  Inside rs i = true ↔ ∃ r, r ∈ elems rs ∧ covers r i.
Proof.
  unfold Inside. split.
  - destruct (SliceRanges.Inside (elems rs) i) as [r b] eqn:Hi. simpl.
    intros ->. exists r. by apply Inside_true.
  - intros (r & Hin & Hc).
    destruct (SliceRanges.Inside (elems rs) i).2 eqn:Hi; [done|].
    rewrite Inside_false in Hi. by destruct (Hi r Hin).
Qed.

Lemma getInitialRoomData_setRoomSubscriptions (s : ConnState) subs roomIDs :
  getInitialRoomData (setRoomSubscriptions subs s) roomIDs = getInitialRoomData s roomIDs.
Proof. done. Qed.

Lemma getInitialRoomData_one (s : ConnState) (m : Request) roomID :
  muxedReq s = Some m →
  ∃ room, getInitialRoomData s [roomID] = Some [room] ∧ room_RoomID room = roomID.
Proof.
  intros Hm. unfold getInitialRoomData. rewrite Hm. simpl. eexists. split; done.
Qed.

(** C1.  [moveRoom].  When [fromIndex = toIndex] it returns exactly one
    [UPDATE] at [fromIndex], carrying the delta projection of the event when
    [onlySendRoomID] is false and the stub with the room identifier when it
    is true.  Otherwise (on a connection with a muxed request, or when only
    the identifier is sent) it returns exactly a [DELETE] followed by an
    [INSERT] at [toIndex]; the [DELETE] index is [fromIndex] when some
    tracked range covers [fromIndex] and [LowerClamp(fromIndex)] when none
    does; the [INSERT] carries the stub when [onlySendRoomID] is true and
    the initial projection of the room otherwise. *)
Theorem moveRoom_ops (s : ConnState) (updateEvent : EventData)
    (fromIndex toIndex : Z) (ranges : slice Range) (onlySendRoomID : bool) :
  (fromIndex = toIndex →
   moveRoom s updateEvent fromIndex toIndex ranges onlySendRoomID
   = Some [ResponseOpSingle "UPDATE" (Some fromIndex)
             (Some (if onlySendRoomID then roomStub (ev_roomID updateEvent)
                    else getDeltaRoomData s updateEvent))]) ∧
  (fromIndex ≠ toIndex → onlySendRoomID = true ∨ is_Some (muxedReq s) →
   ∃ deleteIndex room,
     moveRoom s updateEvent fromIndex toIndex ranges onlySendRoomID
     = Some [ResponseOpSingle "DELETE" (Some deleteIndex) None;
             ResponseOpSingle "INSERT" (Some toIndex) (Some room)] ∧
     ((∃ r, r ∈ elems ranges ∧ covers r fromIndex) → deleteIndex = fromIndex) ∧
     ((∀ r, r ∈ elems ranges → ¬ covers r fromIndex) →
      deleteIndex = LowerClamp ranges fromIndex) ∧
     (onlySendRoomID = true → room = roomStub (ev_roomID updateEvent)) ∧
     (onlySendRoomID = false →
      getInitialRoomData s [ev_roomID updateEvent] = Some [room])).
Proof.
  split.
  - intros Heq. unfold moveRoom. rewrite decide_True by done.
    by destruct onlySendRoomID.
  - intros Hne Hok. unfold moveRoom. rewrite decide_False by done.
    exists (if negb (Inside ranges fromIndex) then LowerClamp ranges fromIndex
            else fromIndex).
    assert (Hdel :
      ((∃ r, r ∈ elems ranges ∧ covers r fromIndex) →
       (if negb (Inside ranges fromIndex) then LowerClamp ranges fromIndex
        else fromIndex) = fromIndex) ∧
      ((∀ r, r ∈ elems ranges → ¬ covers r fromIndex) →
       (if negb (Inside ranges fromIndex) then LowerClamp ranges fromIndex
        else fromIndex) = LowerClamp ranges fromIndex)).
    { split.
      - intros Hin. apply Inside_covers in Hin. by rewrite Hin.
      - intros Hout. destruct (Inside ranges fromIndex) eqn:Hi; [|done].
        apply Inside_covers in Hi as (r & Hr & Hc). by destruct (Hout r Hr). }
    destruct onlySendRoomID; simpl.
    + exists (roomStub (ev_roomID updateEvent)). by destruct Hdel.
    + destruct Hok as [?|[m Hm]]; [done|].
      destruct (getInitialRoomData_one s m (ev_roomID updateEvent) Hm)
        as (room & Hroom & _).
      exists room. rewrite Hroom. simpl. by destruct Hdel.
Qed.

(** C6 (as amended).  An event whose [latestPos] is not 0 and is strictly
    below the connection's [loadPosition] is dropped by [OnNewEvent]: the
    call returns before the send and leaves the connection, its inbox
    included, as it was. *)
Theorem OnNewEvent_already_loaded (s : ConnState) (eventData : EventData) :
  ev_latestPos eventData ≠ 0 →
  ev_latestPos eventData < loadPosition s →
  OnNewEvent s eventData = (s, AlreadyLoaded).
Proof.
  intros Hnz Hlt. unfold OnNewEvent. by rewrite decide_True.
Qed.

(** An event that is not dropped as already loaded goes onto the inbox
    while the inbox has room. *)
Lemma OnNewEvent_sent (s : ConnState) (eventData : EventData) :
  ev_latestPos eventData = 0 ∨ loadPosition s ≤ ev_latestPos eventData →
  Z.of_nat (length (updateEvents s)) < MaxPendingEventUpdates →
  OnNewEvent s eventData = (setUpdateEvents (updateEvents s ++ [eventData]) s, Sent).
Proof.
  intros Hnew Hroom. unfold OnNewEvent.
  rewrite decide_False by lia. by rewrite decide_True.
Qed.

(** C7.  What the code does when the send finds the inbox full for 5 s: it
    logs the warning and returns.  The connection is exactly as before: it
    is still registered with the user cache, nothing marks it for
    destruction, and the event is not in the inbox. *)
Theorem OnNewEvent_buffer_exceeded (s : ConnState) (eventData : EventData) :
  ev_latestPos eventData = 0 ∨ loadPosition s ≤ ev_latestPos eventData →
  MaxPendingEventUpdates ≤ Z.of_nat (length (updateEvents s)) →
  OnNewEvent s eventData = (s, BufferExceeded) ∧
  subscribed (OnNewEvent s eventData).1 = subscribed s ∧
  updateEvents (OnNewEvent s eventData).1 = updateEvents s.
Proof.
  intros Hnew Hfull.
  assert (OnNewEvent s eventData = (s, BufferExceeded)) as ->; [|done].
  unfold OnNewEvent. rewrite decide_False by lia. by rewrite decide_False by lia.
Qed.

End ConnFacts.

(** C1, witness: the bumps of the source's comment with the window [[0,4]]:
    the room at index 2, and the room at index 6 outside the window, move to
    the top. *)
Lemma moveRoom_ops_witness :
  @Conn.moveRoom examplePackage exampleConn (exampleEvent "!c" 6) 2 0 (Some [(0, 4)]) true
  = Some [Conn.ResponseOpSingle "DELETE" (Some 2) None;
          Conn.ResponseOpSingle "INSERT" (Some 0) (Some (Conn.roomStub "!c"))] ∧
  @Conn.moveRoom examplePackage exampleConn (exampleEvent "!g" 6) 6 0 (Some [(0, 4)]) true
  = Some [Conn.ResponseOpSingle "DELETE" (Some 4) None;
          Conn.ResponseOpSingle "INSERT" (Some 0) (Some (Conn.roomStub "!g"))].
Proof.
  split.
  - destruct (@moveRoom_ops examplePackage exampleConn (exampleEvent "!c" 6) 2 0
                (Some [(0, 4)]) true) as [_ H].
    destruct H as (d & room & Hops & Hin & _ & Hstub & _); [lia|by left|].
    rewrite Hops, Hin, Hstub; [done..|].
    exists (0, 4). split; [by left|]. unfold covers. simpl. lia.
  - destruct (@moveRoom_ops examplePackage exampleConn (exampleEvent "!g" 6) 6 0
                (Some [(0, 4)]) true) as [_ H].
    destruct H as (d & room & Hops & _ & Hout & Hstub & _); [lia|by left|].
    rewrite Hops, Hout, Hstub; [done..|].
    intros r [->|[]%elem_of_nil]%elem_of_cons. unfold covers. simpl. lia.
Defined.

(** C6, witness. *)
Lemma OnNewEvent_already_loaded_witness :
  @Conn.OnNewEvent examplePackage exampleConn (exampleEvent "!a" 3)
  = (exampleConn, Conn.AlreadyLoaded).
Proof.
  apply (@OnNewEvent_already_loaded examplePackage); simpl; lia.
Defined.

(** C6, counterexample to the rule as the specification states it: an event with [latestPos]
    0, which is below the load position 5, is not dropped: it is placed on
    the inbox. *)
Lemma OnNewEvent_zero_pos_counterexample :
  Conn.ev_latestPos (exampleEvent "!a" 0) ≤ Conn.loadPosition (@exampleConn examplePackage) ∧
  @Conn.OnNewEvent examplePackage exampleConn (exampleEvent "!a" 0)
  = (Conn.setUpdateEvents [exampleEvent "!a" 0] exampleConn, Conn.Sent).
Proof. split; [simpl; lia|reflexivity]. Qed.

(** C7, at the failing input: a healthy connection with 200 buffered
    events and one more event. *)
Lemma OnNewEvent_buffer_exceeded_witness :
  @Conn.OnNewEvent examplePackage fullConn (exampleEvent "!b" 8)
  = (fullConn, Conn.BufferExceeded) ∧
  Conn.subscribed (@Conn.OnNewEvent examplePackage fullConn (exampleEvent "!b" 8)).1 = true.
Proof.
  destruct (@OnNewEvent_buffer_exceeded examplePackage fullConn (exampleEvent "!b" 8))
    as (Hres & Hsub & _).
  - right. simpl. lia.
  - vm_compute. discriminate.
  - split; [exact Hres|]. rewrite Hsub. reflexivity.
Defined.

Section ConnRequests.

Import Conn.

Context `{P : Package}.
Context (SortRooms : slice string → list RoomConnMetadata → list RoomConnMetadata).

Lemma setRoomSubscriptions_same (s : ConnState) :
  setRoomSubscriptions (roomSubscriptions s) s = s.
Proof. by destruct s. Qed.

(** The subscription loop of [updateRoomSubscriptions], from any
    accumulated state. *)
Lemma subscribe_loop (m : Request) (subs : list string) :
  ∀ (s : ConnState) (res : gmap string Room),
  muxedReq s = Some m →
  ∃ rs result,
    foldl (subscribeStep m) (Some (s, res)) subs
    = Some (setRoomSubscriptions rs s, result) ∧
    (∀ id, rs !! id
           = if decide (id ∈ subs)
             then match RoomSubscriptions m !! id with
                  | Some sub => Some sub
                  | None => roomSubscriptions s !! id
                  end
             else roomSubscriptions s !! id) ∧
    (∀ id, result !! id
           = if decide (id ∈ subs)
             then match RoomSubscriptions m !! id with
                  | Some _ => getInitialRoomData s [id] ≫= head
                  | None => res !! id
                  end
             else res !! id).
Proof.
  induction subs as [|k subs IH]; intros s res Hm; cbn [foldl].
  - exists (roomSubscriptions s), res. rewrite setRoomSubscriptions_same.
    split_and!; [done|..]; intros id;
      by destruct (decide (id ∈ [])) as [[]%elem_of_nil|].
  - unfold subscribeStep at 2. cbn [mbind option_bind].
    destruct (RoomSubscriptions m !! k) as [sub|] eqn:Hk.
    + rewrite getInitialRoomData_setRoomSubscriptions.
      destruct (getInitialRoomData_one s m k Hm) as (room & Hroom & _).
      rewrite Hroom. cbn [mbind option_bind lookup list_lookup].
      destruct (IH (setRoomSubscriptions (<[k:=sub]> (roomSubscriptions s)) s)
                   (<[k:=room]> res) Hm) as (rs & result & Hfold & Hrs & Hres).
      exists rs, result. split_and!; [exact Hfold|..]; intros id.
      * rewrite Hrs. simpl. destruct (decide (id = k)) as [->|Hne].
        -- rewrite Hk, lookup_insert_eq.
           destruct (decide (k ∈ subs)); by destruct (decide (k ∈ k :: subs)) as [|[]];
             try by left.
        -- rewrite lookup_insert_ne by done.
           destruct (decide (id ∈ subs)) as [Hin|Hnin].
           ++ destruct (decide (id ∈ k :: subs)) as [|[]]; [done|by right].
           ++ by destruct (decide (id ∈ k :: subs)) as [[?|?]%elem_of_cons|].
      * rewrite Hres. rewrite getInitialRoomData_setRoomSubscriptions.
        destruct (decide (id = k)) as [->|Hne].
        -- rewrite Hk, lookup_insert_eq, Hroom.
           destruct (decide (k ∈ subs)); by destruct (decide (k ∈ k :: subs)) as [|[]];
             try by left.
        -- rewrite lookup_insert_ne by done.
           destruct (decide (id ∈ subs)) as [Hin|Hnin].
           ++ destruct (decide (id ∈ k :: subs)) as [|[]]; [done|by right].
           ++ by destruct (decide (id ∈ k :: subs)) as [[?|?]%elem_of_cons|].
    + destruct (IH s res Hm) as (rs & result & Hfold & Hrs & Hres).
      exists rs, result. split_and!; [exact Hfold|..]; intros id.
      * rewrite Hrs. destruct (decide (id = k)) as [->|Hne].
        -- rewrite Hk.
           destruct (decide (k ∈ subs)); by destruct (decide (k ∈ k :: subs)) as [|[]];
             try by left.
        -- destruct (decide (id ∈ subs)) as [Hin|Hnin].
           ++ destruct (decide (id ∈ k :: subs)) as [|[]]; [done|by right].
           ++ by destruct (decide (id ∈ k :: subs)) as [[?|?]%elem_of_cons|].
      * rewrite Hres. destruct (decide (id = k)) as [->|Hne].
        -- rewrite Hk.
           destruct (decide (k ∈ subs)); by destruct (decide (k ∈ k :: subs)) as [|[]];
             try by left.
        -- destruct (decide (id ∈ subs)) as [Hin|Hnin].
           ++ destruct (decide (id ∈ k :: subs)) as [|[]]; [done|by right].
           ++ by destruct (decide (id ∈ k :: subs)) as [[?|?]%elem_of_cons|].
Qed.

(** [updateRoomSubscriptions] on a connection with a muxed request, in
    closed form. *)
Lemma updateRoomSubscriptions_closed (s : ConnState) (m : Request)
    (subs unsubs : list string) :
  muxedReq s = Some m →
  ∃ rs result,
    updateRoomSubscriptions s subs unsubs = Some (setRoomSubscriptions rs s, result) ∧
    (∀ id, rs !! id
           = if decide (id ∈ unsubs) then None
             else if decide (id ∈ subs)
             then match RoomSubscriptions m !! id with
                  | Some sub => Some sub
                  | None => roomSubscriptions s !! id
                  end
             else roomSubscriptions s !! id) ∧
    (∀ id, result !! id
           = if decide (id ∈ subs)
             then match RoomSubscriptions m !! id with
                  | Some _ => getInitialRoomData s [id] ≫= head
                  | None => None
                  end
             else None).
Proof.
  intros Hm.
  destruct (subscribe_loop m subs s ∅ Hm) as (rs & result & Hfold & Hrs & Hres).
  exists (foldl (λ acc roomID, delete roomID acc) rs unsubs), result.
  split_and!.
  - unfold updateRoomSubscriptions.
    assert (match subs with
            | [] => Some (s, ∅)
            | _ :: _ => m ← muxedReq s; foldl (subscribeStep m) (Some (s, ∅)) subs
            end = Some (setRoomSubscriptions rs s, result)) as ->.
    { destruct subs; [exact Hfold|]. rewrite Hm. exact Hfold. }
    done.
  - intros id. rewrite lookup_foldl_delete, Hrs. done.
  - intros id. rewrite Hres, lookup_empty.
    destruct (decide (id ∈ subs)); [|done]. by destruct (_ !! id).
Qed.

(** C10.  [updateRoomSubscriptions] on a connection with a muxed request
    [m].  A new subscription without an entry in [m]'s room-subscription map
    is skipped: it gets no payload and is not added to [roomSubscriptions]
    (it is there afterwards only if it was before).  One with an entry gets
    exactly one payload, the initial room data of that room, and is entered
    into [roomSubscriptions] with that entry (unless the same call also
    unsubscribes it: unsubscribes are applied last).  Every unsubscribed
    identifier is absent from [roomSubscriptions] afterwards.  No other
    payload is returned and nothing else of the connection changes. *)
Theorem updateRoomSubscriptions_spec (s : ConnState) (m : Request)
    (subs unsubs : list string) :
  muxedReq s = Some m →
  ∃ s' result,
    updateRoomSubscriptions s subs unsubs = Some (s', result) ∧
    (∀ id, id ∈ subs → RoomSubscriptions m !! id = None →
       result !! id = None ∧
       (is_Some (roomSubscriptions s' !! id) → is_Some (roomSubscriptions s !! id)) ∧
       (id ∉ unsubs → roomSubscriptions s' !! id = roomSubscriptions s !! id)) ∧
    (∀ id sub, id ∈ subs → RoomSubscriptions m !! id = Some sub →
       (∃ room, result !! id = Some room ∧ getInitialRoomData s [id] = Some [room]) ∧
       (id ∉ unsubs → roomSubscriptions s' !! id = Some sub)) ∧
    (∀ id, id ∈ unsubs → roomSubscriptions s' !! id = None) ∧
    (∀ id, id ∉ subs → result !! id = None) ∧
    (∀ id, id ∉ subs → id ∉ unsubs →
       roomSubscriptions s' !! id = roomSubscriptions s !! id) ∧
    s' = setRoomSubscriptions (roomSubscriptions s') s.
Proof.
  intros Hm.
  destruct (updateRoomSubscriptions_closed s m subs unsubs Hm)
    as (rs & result & Hupd & Hrs & Hres).
  exists (setRoomSubscriptions rs s), result. split_and!; [done|..|done].
  - intros id Hin Hnone. simpl. rewrite Hres, !Hrs, Hnone.
    destruct (decide (id ∈ subs)); [|done].
    destruct (decide (id ∈ unsubs)); split_and!; try done;
      try by intros []%is_Some_None.
  - intros id sub Hin Hsome. simpl. rewrite Hres, !Hrs, Hsome.
    destruct (decide (id ∈ subs)); [|done]. split.
    + destruct (getInitialRoomData_one s m id Hm) as (room & Hroom & _).
      exists room. by rewrite Hroom.
    + intros Hnot. by destruct (decide (id ∈ unsubs)).
  - intros id Hin. simpl. rewrite Hrs. by destruct (decide (id ∈ unsubs)).
  - intros id Hnot. rewrite Hres. by destruct (decide (id ∈ subs)).
  - intros id Hns Hnu. simpl. rewrite Hrs.
    destruct (decide (id ∈ unsubs)); [done|]. by destruct (decide (id ∈ subs)).
Qed.

End ConnRequests.

(** C10, witness: the example connection subscribes to a room with an entry
    and to one without, and unsubscribes from a third. *)
Lemma updateRoomSubscriptions_spec_witness :
  ∃ s' result,
    @Conn.updateRoomSubscriptions examplePackage exampleConn ["!a"; "!zzz"] ["!q"]
    = Some (s', result) ∧
    result !! "!zzz" = None ∧ Conn.roomSubscriptions s' !! "!zzz" = None ∧
    Conn.roomSubscriptions s' !! "!a" = Some exampleSub ∧
    Conn.room_RoomID <$> result !! "!a" = Some "!a".
Proof.
  destruct (@updateRoomSubscriptions_spec examplePackage exampleConn exampleRequest
              ["!a"; "!zzz"] ["!q"] eq_refl)
    as (s' & result & Hupd & Hskip & Hsub & _).
  exists s', result.
  assert (Hin1 : "!a" ∈ ["!a"; "!zzz"]) by (by left).
  assert (Hin2 : "!zzz" ∈ ["!a"; "!zzz"]) by (right; by left).
  assert (Hq1 : "!a" ∉ ["!q"]) by (by intros [?|[]%elem_of_nil]%elem_of_cons).
  assert (Hq2 : "!zzz" ∉ ["!q"]) by (by intros [?|[]%elem_of_nil]%elem_of_cons).
  destruct (Hskip "!zzz" Hin2 eq_refl) as (Hr & _ & Hkeep).
  destruct (Hsub "!a" exampleSub Hin1 eq_refl) as ((room & Hroom & Hinit) & Hadd).
  split_and!; [exact Hupd|exact Hr|by rewrite Hkeep|by apply Hadd|].
  rewrite Hroom. vm_compute in Hinit. by injection Hinit as <-.
Defined.

Section ConnIncoming.

Import Conn.

Context `{P : Package}.
Context (SortRooms : slice string → list RoomConnMetadata → list RoomConnMetadata).

Lemma getInitialRoomData_ids (s : ConnState) (m : Request) (roomIDs : list string) :
  muxedReq s = Some m →
  ∃ data, getInitialRoomData s roomIDs = Some data ∧ room_RoomID <$> data = roomIDs.
Proof.
  intros Hm. unfold getInitialRoomData. rewrite Hm. cbn [mbind option_bind].
  eexists. split; [done|].
  rewrite <- list_fmap_compose. induction roomIDs as [|x l IH]; [done|].
  cbn [fmap list_fmap]. f_equal. exact IH.
Qed.

Lemma syncOps_spec (s : ConnState) (m : Request) (added : list Range) :
  muxedReq s = Some m →
  ∀ ops, ∃ syncs,
    syncOps s ops added = Some (ops ++ syncs) ∧
    Forall2 (λ r op, ∃ data,
               op = ResponseOpRange "SYNC" r data ∧
               getInitialRoomData s (roomID_of <$> windowSlice r (sortedJoinedRooms s))
               = Some data ∧
               room_RoomID <$> data = roomID_of <$> windowSlice r (sortedJoinedRooms s))
            added syncs.
Proof.
  intros Hm. unfold syncOps. induction added as [|r added IH]; intros ops.
  - exists []. simpl. by rewrite app_nil_r.
  - cbn [foldl mbind option_bind]. unfold syncOp at 2.
    cbn [SliceRanges.SliceInto fmap list_fmap lookup list_lookup mbind option_bind].
    destruct (getInitialRoomData_ids s m
                (roomID_of <$> windowSlice r (sortedJoinedRooms s)) Hm)
      as (data & Hdata & Hids).
    unfold windowSlice in Hdata. rewrite Hdata. cbn [mbind option_bind].
    destruct (IH (ops ++ [ResponseOpRange "SYNC" r data])) as (syncs & Hfold & Hall).
    exists (ResponseOpRange "SYNC" r data :: syncs). split.
    + rewrite Hfold. by rewrite <- app_assoc.
    + constructor; [|done]. exists data. done.
Qed.

Lemma muxedReq_sort (s : ConnState) sortBy :
  muxedReq (sort SortRooms s sortBy) = muxedReq s.
Proof. done. Qed.

(** C5.  A request on a connection that has a muxed request with a sort
    order (not nil), when the merged request's sort order differs from it:
    the request returns without error and without entering the live loop;
    the room list is the sorter's result for the new sort order on the
    former list; the ops are one [INVALIDATE] per range of the merged
    request's windows, in order, followed by one [SYNC] per range, in
    order, each with the initial room data of the rooms at the absolute
    positions of that range in the re-sorted list. *)
Theorem onIncomingRequest_sort_changed (s : ConnState) (req prev m : Request)
    (prevSort newSubs newUnsubs : list string) (sched : list Action) :
  muxedReq s = Some prev →
  Sort prev = Some prevSort →
  RequestApplyDelta prev req = (m, newSubs, newUnsubs) →
  Sort m ≠ Sort prev →
  ∃ s' resp syncs,
    onIncomingRequest SortRooms s req sched = Some (s', (resp, None)) ∧
    muxedReq s' = Some m ∧
    sortedJoinedRooms s' = SortRooms (Sort m) (sortedJoinedRooms s) ∧
    resp_Ops resp
    = ((λ r, ResponseOpRange "INVALIDATE" r []) <$> elems (Rooms m)) ++ syncs ∧
    Forall2 (λ r op, ∃ data,
               op = ResponseOpRange "SYNC" r data ∧
               getInitialRoomData s' (roomID_of <$> windowSlice r (sortedJoinedRooms s'))
               = Some data ∧
               room_RoomID <$> data = roomID_of <$> windowSlice r (sortedJoinedRooms s'))
            (elems (Rooms m)) syncs.
Proof.
  intros Hm Hps Happly Hne. unfold onIncomingRequest. rewrite Hm, Happly, Hps.
  destruct (updateRoomSubscriptions_closed (setMuxedReq (Some m) s) m newSubs newUnsubs
              eq_refl) as (rs & respSubs & Hupd & _).
  rewrite Hupd. cbn [mbind option_bind].
  destruct (match Rooms prev with
            | Some _ => Delta (Rooms prev) (Rooms m)
            | None => (Rooms m, None, None)
            end) as [[added0 removed0] same0].
  rewrite decide_True by (by rewrite <- Hps).
  set (s3 := sort SortRooms (setRoomSubscriptions rs (setMuxedReq (Some m) s)) (Sort m)).
  destruct (syncOps_spec s3 m (elems (Rooms m)) eq_refl
              ((invalidateOp <$> elems (Rooms m)) ++ (invalidateOp <$> elems None)))
    as (syncs & Hsync & Hall).
  rewrite Hsync. cbn [mbind option_bind bool_decide andb].
  exists s3, {| resp_RoomSubscriptions := respSubs;
                resp_Count := Z.of_nat (length (sortedJoinedRooms s));
                resp_Ops := ((invalidateOp <$> elems (Rooms m))
                             ++ (invalidateOp <$> elems None)) ++ syncs |}, syncs.
  split_and!; try done.
  simpl. by rewrite app_nil_r.
Qed.

Lemma onIncomingRequest_no_error (s s' : ConnState) (req : Request) sched resp err :
  onIncomingRequest SortRooms s req sched = Some (s', (resp, err)) → err = None.
Proof.
  unfold onIncomingRequest. intros H.
  repeat match type of H with
         | context [let '(_, _) := ?p in _] => destruct p
         end.
  repeat match type of H with
         | (_ ≫= _) = Some _ => apply bind_Some in H as (? & ? & H)
         | context [let '(_, _) := ?p in _] => destruct p
         end.
  by injection H as _ _ <-.
Qed.

(** C8.  What [HandleIncomingRequest] does on a first request when the
    load of the joined rooms fails: it goes on to handle the request as if
    nothing had been loaded, and whenever it returns, the error it returns
    is nil. *)
Theorem HandleIncomingRequest_load_error_dropped (s : ConnState) (req : Request)
    (sched : list Action) (p : Z) (rooms : list (RoomMetadata MetaRest)) (e : error) :
  loadPosition s = 0 →
  LoadJoinedRooms (userID s) = (p, rooms, Some e) →
  (load SortRooms s req = (s, Some e)) ∧
  HandleIncomingRequest SortRooms s req sched = onIncomingRequest SortRooms s req sched ∧
  (∀ s' resp err,
     HandleIncomingRequest SortRooms s req sched = Some (s', (resp, err)) → err = None).
Proof.
  intros Hpos Hload.
  assert (Hl : load SortRooms s req = (s, Some e)).
  { unfold load. by rewrite Hload. }
  assert (Hh : HandleIncomingRequest SortRooms s req sched
               = onIncomingRequest SortRooms s req sched).
  { unfold HandleIncomingRequest. rewrite decide_True by done. by rewrite Hl. }
  split_and!; [done..|].
  intros s' resp err. rewrite Hh. apply onIncomingRequest_no_error.
Qed.

End ConnIncoming.

(** C5, witness: after the first request, a request that changes the sort
    order to [[by_name]] gets [INVALIDATE [0,4]] then [SYNC [0,4]] with the
    three rooms in the new order. *)
Lemma onIncomingRequest_sort_changed_witness :
  ∃ s' resp rooms,
    Conn.onIncomingRequest exampleSortRooms loadedConn byNameRequest []
    = Some (s', (resp, None)) ∧
    Conn.roomID_of <$> Conn.sortedJoinedRooms s' = ["!c"; "!b"; "!a"] ∧
    Conn.resp_Ops resp
    = [Conn.ResponseOpRange "INVALIDATE" (0, 4) [];
       Conn.ResponseOpRange "SYNC" (0, 4) rooms] ∧
    Conn.room_RoomID <$> rooms = ["!c"; "!b"; "!a"].
Proof.
  destruct (@onIncomingRequest_sort_changed examplePackage exampleSortRooms
              loadedConn byNameRequest exampleRequest
              (exampleMerge exampleRequest byNameRequest).1.1
              [SortByRecency] [] [] [] eq_refl eq_refl eq_refl)
    as (s' & resp & syncs & Hres & _ & Hsorted & Hops & Hall).
  { vm_compute. discriminate. }
  change (elems (Conn.Rooms (exampleMerge exampleRequest byNameRequest).1.1))
    with [(0, 4)] in Hops, Hall.
  apply Forall2_cons_inv_l in Hall
    as (op & rest & (data & -> & _ & Hids) & ->%Forall2_nil_inv_l & ->).
  exists s', resp, data. split_and!; [exact Hres| |exact Hops|].
  - rewrite Hsorted. reflexivity.
  - rewrite Hids, Hsorted. reflexivity.
Defined.

(** C8, at the failing input: a new connection whose global cache fails
    to load the joined rooms.  The first request returns a response with a
    [SYNC] of no rooms and a nil error, and the connection now holds the
    request as its muxed request. *)
Lemma HandleIncomingRequest_load_error_dropped_witness :
  ∃ s' resp,
    @Conn.HandleIncomingRequest failingPackage exampleSortRooms
      (Conn.NewConnState "@alice:localhost") exampleRequest []
    = Some (s', (resp, None)) ∧
    Conn.muxedReq s' = Some exampleRequest ∧
    Conn.resp_Count resp = 0 ∧
    Conn.Op <$> Conn.resp_Ops resp = ["SYNC"].
Proof.
  destruct (@HandleIncomingRequest_load_error_dropped failingPackage exampleSortRooms
              (Conn.NewConnState "@alice:localhost") exampleRequest []
              0 [] "upstream unavailable" eq_refl eq_refl)
    as (_ & Hsame & Hnil).
  destruct (@Conn.HandleIncomingRequest failingPackage exampleSortRooms
              (Conn.NewConnState "@alice:localhost") exampleRequest [])
    as [[s' [resp err]]|] eqn:Hrun; [|by vm_compute in Hrun].
  rewrite (Hnil s' resp err eq_refl).
  exists s', resp. split; [reflexivity|].
  vm_compute in Hrun. injection Hrun as <- <- _. split_and!; reflexivity.
Defined.

(** The comparison in [OnNewEvent] is strict: an event at exactly the load
    position is forwarded. *)
Remark OnNewEvent_at_load_position :
  @Conn.OnNewEvent examplePackage exampleConn (exampleEvent "!a" 5)
  = (Conn.setUpdateEvents [exampleEvent "!a" 5] exampleConn, Conn.Sent).
Proof. reflexivity. Qed.

(** The timeline limit is merged on a test for 0: a negative incoming
    limit replaces the previous one. *)
Remark ApplyDelta_negative_timeline_limit :
  rlTimelineLimit <$>
    Lists (applyDeltaUnit (Some (requestOfLists [listWithTimelineLimit 10]))
             (requestOfLists [listWithTimelineLimit (-5)])).1.1 !! 0%nat
  = Some (-5).
Proof. vm_compute. reflexivity. Qed.

(** ** Scenarios of the specification *)

(** A fresh connection with seven joined rooms and the window [[0,4]] gets
    one [SYNC] of the five most recent rooms. *)
Example scenario_first_sync :
  (λ r, (fmap (M := list) opSummary (Conn.resp_Ops r.2.1), Conn.resp_Count r.2.1)) <$>
    Conn.HandleIncomingRequest recencySortRooms
      (@Conn.NewConnState sevenRoomsPackage "@alice:localhost") windowRequest []
  = Some ([("SYNC", Some 0, None)], 7).
Proof. vm_compute. reflexivity. Qed.

(** Bump to top: an event for the room at index 3 of the window. *)
Example scenario_bump_to_top :
  fmap (M := list) opSummary <$> opsAfterEvent "!d"
  = Some [("DELETE", Some 3, None); ("INSERT", Some 0, Some "!d")].
Proof. vm_compute. reflexivity. Qed.

(** Bump from outside: an event for the room at index 6, outside the
    window; the room at the window's last index is deleted. *)
Example scenario_bump_from_outside :
  fmap (M := list) opSummary <$> opsAfterEvent "!g"
  = Some [("DELETE", Some 4, None); ("INSERT", Some 0, Some "!g")].
Proof. vm_compute. reflexivity. Qed.

(** An event for the room already at the top is an [UPDATE] in place. *)
Example scenario_update_in_place :
  fmap (M := list) opSummary <$> opsAfterEvent "!a"
  = Some [("UPDATE", Some 0, Some "!a")].
Proof. vm_compute. reflexivity. Qed.

(** * Further properties of the request code *)

(** X1.  [WriteInsertOp] and [WriteDeleteOp] write an op exactly for an
    index that is not negative and that some range of the list covers; the
    op carries that index (and, for the insert, the room); nothing is
    written otherwise, so for one index either both ops are written or
    neither. *)
Theorem WriteOps_tracked (rl : RequestList) (i : Z) (roomID : string) :
  let tracked := 0 ≤ i ∧ ∃ r, r ∈ elems (Ranges rl) ∧ covers r i in
  (tracked →
   WriteInsertOp rl i roomID
   = Some {| Operation := "INSERT"; Index := Some i; RoomID := roomID |} ∧
   WriteDeleteOp rl i = Some {| Operation := "DELETE"; Index := Some i; RoomID := "" |}) ∧
  (¬ tracked → WriteInsertOp rl i roomID = None ∧ WriteDeleteOp rl i = None).
Proof.
  intros tracked. unfold WriteInsertOp, WriteDeleteOp, tracked.
  destruct (decide (i < 0)) as [Hneg|Hpos].
  - split; [intros [? _]; lia|done].
  - destruct (SliceRanges.Inside (elems (Ranges rl)) i) as [r b] eqn:Hin.
    destruct b; simpl.
    + split; [done|]. intros Hnot. destruct Hnot. split; [lia|].
      exists r. by apply Inside_true.
    + split; [|done]. intros [_ (r' & Hr' & Hc)].
      assert (Hf : (SliceRanges.Inside (elems (Ranges rl)) i).2 = false)
        by by rewrite Hin.
      rewrite Inside_false in Hf. by destruct (Hf r' Hr').
Qed.

Lemma WriteOps_tracked_witness :
  WriteInsertOp exampleList 8 "!a"
  = Some {| Operation := "INSERT"; Index := Some 8; RoomID := "!a" |} ∧
  WriteDeleteOp exampleList 5 = None.
Proof.
  pose proof (WriteOps_tracked exampleList 8 "!a") as [Hin _].
  pose proof (WriteOps_tracked exampleList 5 "!a") as [_ Hout].
  split.
  - apply Hin. split; [lia|]. exists (7, 9).
    split; [right; by left|]. unfold covers. simpl. lia.
  - apply Hout. intros [_ (r & Hr & Hc)]. unfold covers in Hc.
    repeat (apply elem_of_cons in Hr as [->|Hr]; [simpl in Hc; lia|]).
    by apply elem_of_nil in Hr.
Defined.

Lemma existsb_lookup_differs (a b : list string) :
  length a = length b →
  existsb (λ i, bool_decide (a !! i ≠ b !! i)) (seq 0 (length a)) = bool_decide (a ≠ b).
Proof.
  intros Hlen.
  destruct (existsb _ _) eqn:Hex.
  - apply existsb_exists in Hex as (i & _ & Hi).
    apply bool_decide_eq_true in Hi. symmetry. apply bool_decide_eq_true.
    by intros ->.
  - symmetry. apply bool_decide_eq_false. intros Hne. apply Hne.
    apply list_eq. intros i.
    destruct (decide (i < length a)%nat) as [Hlt|Hge].
    + destruct (decide (a !! i = b !! i)) as [|Hd]; [done|].
      assert (existsb (λ i, bool_decide (a !! i ≠ b !! i)) (seq 0 (length a)) = true)
        as Habs; [|by rewrite Habs in Hex].
      apply existsb_exists. exists i. split.
      * apply in_seq. lia.
      * by apply bool_decide_eq_true.
    + rewrite !lookup_ge_None_2; [done|lia..].
Qed.

(** X2.  [SortOrderChanged] on a list (non-nil receiver) says whether the
    two sort orders differ as sequences, a nil and an empty sort order
    being the same.  On a nil receiver it says "changed" when the next sort
    order is not empty, and dereferences the nil receiver (a panic) when it
    is empty. *)
Theorem SortOrderChanged_spec (next : RequestList) :
  (∀ rl, SortOrderChanged (Some rl) next
         = Some (bool_decide (elems (Sort rl) ≠ elems (Sort next)))) ∧
  (len (Sort next) ≠ 0 → SortOrderChanged None next = Some true) ∧
  (len (Sort next) = 0 → SortOrderChanged None next = None).
Proof.
  unfold SortOrderChanged, len. split_and!.
  - intros rl. destruct (decide _) as [Hne|Heq].
    + f_equal. symmetry. apply bool_decide_eq_true. intros Heq.
      apply Hne. by rewrite Heq.
    + simpl. f_equal. apply existsb_lookup_differs.
      destruct (decide (length (elems (Sort rl)) = length (elems (Sort next))));
        [done|]. destruct Heq. lia.
  - intros Hne. by rewrite decide_True by lia.
  - intros Heq. by rewrite decide_False by lia.
Qed.

Lemma SortOrderChanged_spec_witness :
  SortOrderChanged None (listWithSort (Some [SortByName])) = Some true ∧
  SortOrderChanged None (listWithSort None) = None.
Proof.
  pose proof (SortOrderChanged_spec (listWithSort (Some [SortByName]))) as (_ & H1 & _).
  pose proof (SortOrderChanged_spec (listWithSort None)) as (_ & _ & H2).
  split; [apply H1|apply H2]; done.
Defined.

(** X3.  [GetTimelineLimit] never returns a limit that is not positive.
    A positive limit of the room's subscription wins and needs no list;
    otherwise the list's positive limit is used, or the default 20, and a
    list index out of range is a panic. *)
Theorem GetTimelineLimit_spec {E} (r : Request E) (listIndex : Z) (roomID : string) :
  (∀ n, GetTimelineLimit r listIndex roomID = Some n → 0 < n) ∧
  (∀ room, RoomSubscriptions r !! roomID = Some room → 0 < TimelineLimit room →
           GetTimelineLimit r listIndex roomID = Some (TimelineLimit room)) ∧
  ((∀ room, RoomSubscriptions r !! roomID = Some room → TimelineLimit room ≤ 0) →
   GetTimelineLimit r listIndex roomID
   = (l ← Conn.index (Lists r) listIndex;
      Some (if decide (0 < rlTimelineLimit l) then rlTimelineLimit l else 20))) ∧
  (Conn.index (Lists r) listIndex = None ↔
   listIndex < 0 ∨ Z.of_nat (length (Lists r)) ≤ listIndex).
Proof.
  unfold GetTimelineLimit, DefaultTimelineLimit. split_and!.
  - intros n.
    destruct (RoomSubscriptions r !! roomID) as [room|];
      [destruct (decide (0 < TimelineLimit room)); [by intros [= <-]|]|];
      destruct (Conn.index (Lists r) listIndex) as [l|]; simpl; try done;
      destruct (decide (0 < rlTimelineLimit l)); intros [= <-]; lia.
  - intros room -> Hpos. by rewrite decide_True.
  - intros Hno. destruct (RoomSubscriptions r !! roomID) as [room|]; [|done].
    rewrite decide_False; [done|]. specialize (Hno room eq_refl). lia.
  - unfold Conn.index. destruct (decide (0 ≤ listIndex)).
    + rewrite lookup_ge_None. lia.
    + split; [intros _; lia|done].
Qed.

Lemma GetTimelineLimit_spec_witness :
  GetTimelineLimit (requestOfSubs {["!a" := exampleSub]} []) 3 "!a" = Some 10.
Proof.
  pose proof (GetTimelineLimit_spec (requestOfSubs {["!a" := exampleSub]} []) 3 "!a")
    as (_ & H & _).
  apply (H exampleSub); [reflexivity|simpl; lia].
Defined.

Lemma appendSlice_elems {A} (a b : slice A) :
  elems (appendSlice a b) = elems a ++ elems b.
Proof. destruct a as [a|], b as [[|x b]|]; done. Qed.

Lemma appendSlice_nil {A} (a b : slice A) :
  appendSlice a b = None ↔ a = None ∧ elems b = [].
Proof. destruct a as [a|], b as [[|x b]|]; simpl; split; try done; by intros [? ?]. Qed.

Lemma slice_eq {A} (a b : slice A) :
  elems a = elems b → (a = None ↔ b = None) → a = b.
Proof.
  destruct a as [a|], b as [b|]; simpl; intros He Hn; try by subst.
  - destruct Hn as [_ Hn]. by specialize (Hn eq_refl).
  - destruct Hn as [Hn _]. by specialize (Hn eq_refl).
Qed.

(** X4.  [Combine] takes the larger timeline limit and the required-state
    tuples of the first subscription followed by those of the second; it is
    associative, and combining with the subscription that sets nothing, on
    the right, changes nothing but a negative limit. *)
Theorem Combine_spec (a b c : RoomSubscription) :
  TimelineLimit (Combine a b) = Z.max (TimelineLimit a) (TimelineLimit b) ∧
  elems (RequiredState (Combine a b)) = elems (RequiredState a) ++ elems (RequiredState b) ∧
  Combine (Combine a b) c = Combine a (Combine b c) ∧
  (0 ≤ TimelineLimit a →
   Combine a {| RequiredState := None; TimelineLimit := 0 |} = a).
Proof.
  assert (Hmax : ∀ x y, TimelineLimit (Combine x y)
                        = Z.max (TimelineLimit x) (TimelineLimit y)).
  { intros x y. unfold Combine. simpl.
    destruct (decide (TimelineLimit y < TimelineLimit x)); lia. }
  assert (Hrs : ∀ x y, RequiredState (Combine x y)
                       = appendSlice (RequiredState x) (RequiredState y)) by done.
  split_and!; [apply Hmax|by rewrite Hrs, appendSlice_elems| |].
  - assert (Heq : ∀ x y : RoomSubscription,
              RequiredState x = RequiredState y → TimelineLimit x = TimelineLimit y →
              x = y).
    { intros [] []. simpl. by intros -> ->. }
    apply Heq.
    + rewrite !Hrs. apply slice_eq.
      * rewrite !appendSlice_elems. by rewrite app_assoc.
      * rewrite !appendSlice_nil, !appendSlice_elems.
        split.
        -- intros [[-> Hb] Hc]. rewrite Hb, Hc. done.
        -- intros [-> [Hb Hc]%app_eq_nil]. done.
    + rewrite !Hmax. lia.
  - intros Hpos. destruct a as [rs tl]. unfold Combine. simpl in *.
    f_equal.
    + destruct rs as [l|]; simpl; [|done]. by rewrite app_nil_r.
    + destruct (decide (0 < tl)); lia.
Qed.

Lemma Combine_spec_witness :
  Combine exampleSub {| RequiredState := None; TimelineLimit := 0 |} = exampleSub.
Proof.
  pose proof (Combine_spec exampleSub exampleSub exampleSub) as (_ & _ & _ & H).
  apply H. simpl. lia.
Defined.

(** [nullableStringExists] and membership. *)
Lemma nullableStringExists_elem_of (arr : slice (option string)) (input : option string) :
  nullableStringExists arr input = true ↔ input ∈ elems arr.
Proof.
  unfold nullableStringExists, len.
  destruct (decide (Z.of_nat (length (elems arr)) = 0)) as [Hz|Hnz].
  - destruct (elems arr); [|simpl in Hz; lia].
    split; [done|by intros ?%elem_of_nil].
  - rewrite existsb_exists. split.
    + intros (a & Hin & Ha). apply list_elem_of_In in Hin.
      destruct input as [i|], a as [a|]; try done.
      apply bool_decide_eq_true in Ha. by subst.
    + intros Hin. exists input. split; [by apply list_elem_of_In|].
      destruct input; [by apply bool_decide_eq_true|done].
Qed.

(** X5.  [nullableStringExists] is membership: it holds exactly when the
    input (a string, or the null) is an element of the array. *)
Theorem nullableStringExists_spec (arr : slice (option string)) (input : option string) :
  nullableStringExists arr input = true ↔ input ∈ elems arr.
Proof. exact (nullableStringExists_elem_of arr input). Qed.

Section RequiredStateMapFacts.

Context {RSM : Type}.
Context (New : option (gset string) → slice string →
               option (gmap string (list string)) → bool → RSM).

Lemma requiredStateLoop_all_state (tuples : list (string * string)) S K R :
  ("*", "*") ∈ tuples →
  requiredStateLoop New tuples S K R = New None None None true.
Proof.
  revert S K R. induction tuples as [|[t k] tuples IH]; intros S K R Hin.
  - by apply elem_of_nil in Hin.
  - simpl. apply elem_of_cons in Hin as [Heq|Hin].
    + injection Heq as <- <-. by rewrite !decide_True.
    + destruct (decide (t = "*")); [destruct (decide (k = "*")); [done|]|
        destruct (decide (k = "*"))]; by apply IH.
Qed.

Lemma requiredStateLoop_classify (tuples : list (string * string)) :
  ("*", "*") ∉ tuples →
  ∀ S0 K0 R0, ∃ S K R,
    requiredStateLoop New tuples S0 K0 R0 = New (Some S) K (Some R) false ∧
    (∀ t, t ∈ S ↔ t ∈ S0 ∨ (t ≠ "*" ∧ (t, "*") ∈ tuples)) ∧
    elems K = elems K0 ++ (filter (λ p, p.1 = "*") tuples).*2 ∧
    (K = None ↔ K0 = None ∧ filter (λ p : string * string, p.1 = "*") tuples = []) ∧
    (∀ t, R !! t
          = match (filter (λ p, p.1 = t ∧ p.1 ≠ "*" ∧ p.2 ≠ "*") tuples).*2 with
            | [] => R0 !! t
            | ks => Some (default [] (R0 !! t) ++ ks)
            end).
Proof.
  induction tuples as [|[t k] tuples IH]; intros Hnot S0 K0 R0.
  - exists S0, K0, R0. simpl. split_and!; try done.
    + intros t. split; [by left|]. intros [?|[_ ?%elem_of_nil]]; done.
    + by rewrite app_nil_r.
    + split; [done|by intros [? _]].
  - assert (Hnot' : ("*", "*") ∉ tuples) by (intros ?; apply Hnot; by right).
    assert (Hhead : ¬ (t = "*" ∧ k = "*")) by (intros [-> ->]; apply Hnot; by left).
    cbn [requiredStateLoop fst snd].
    destruct (decide (t = "*")) as [->|Ht].
    + rewrite decide_False by (intros ->; by apply Hhead).
      destruct (IH Hnot' S0 (Some (elems K0 ++ [k])) R0)
        as (S & K & R & Hloop & HS & HK & HKn & HR).
      exists S, K, R. split_and!; [done|..].
      * intros t. rewrite HS. split; (intros [?|[Hne Hin]]; [by left|right]).
        -- split; [done|by right].
        -- split; [done|]. by apply elem_of_cons in Hin as [[= -> _]|?].
      * rewrite filter_cons_True by done. rewrite HK. simpl.
        by rewrite <- app_assoc.
      * rewrite filter_cons_True by done. rewrite HKn. split; by intros [? ?].
      * intros t. rewrite HR. rewrite filter_cons_False; [done|].
        simpl. by intros (-> & ? & _).
    + destruct (decide (k = "*")) as [->|Hk].
      * destruct (IH Hnot' ({[t]} ∪ S0) K0 R0)
          as (S & K & R & Hloop & HS & HK & HKn & HR).
        exists S, K, R. split_and!; [done|..].
        -- intros t'. rewrite HS, elem_of_union, elem_of_singleton. split.
           ++ intros [[->|?]|[Hne Hin]]; [right|by left|right].
              ** split; [done|by left].
              ** split; [done|by right].
           ++ intros [?|[Hne [[= -> ]|Hin]%elem_of_cons]];
                [left; by right|left; by left|right; by split].
        -- by rewrite filter_cons_False by done.
        -- by rewrite filter_cons_False by done.
        -- intros t'. rewrite HR. rewrite filter_cons_False; [done|].
           simpl. by intros (_ & _ & ?).
      * destruct (IH Hnot' S0 K0 (<[t := default [] (R0 !! t) ++ [k]]> R0))
          as (S & K & R & Hloop & HS & HK & HKn & HR).
        exists S, K, R. split_and!; [done|..].
        -- intros t'. rewrite HS. split; (intros [?|[Hne Hin]]; [by left|right]).
           ++ split; [done|by right].
           ++ split; [done|]. by apply elem_of_cons in Hin as [[= _ <-]|?].
        -- by rewrite filter_cons_False by done.
        -- by rewrite filter_cons_False by done.
        -- intros t'. rewrite HR. destruct (decide (t' = t)) as [->|Hne].
           ++ rewrite filter_cons_True by done. rewrite lookup_insert_eq.
              rewrite fmap_cons. cbn [snd default]. unfold id.
              match goal with
              | |- match ?a with _ => _ end = Some (_ ++ _ :: ?b) => change b with a
              end.
              match goal with
              | |- match ?a with _ => _ end = _ => destruct a as [|k' ks]
              end; [done|].
              by rewrite <- app_assoc.
           ++ rewrite filter_cons_False by (simpl; by intros (-> & _)).
              by rewrite lookup_insert_ne.
Qed.

(** X6.  [RequiredStateMap] sorts the tuples of a subscription into what
    it hands to the map's constructor.  A tuple [("*","*")] anywhere makes
    it ask for all state and nothing else.  Without one, the wildcard
    event types are the types [t] of the tuples [(t,"*")], the state keys
    for the wildcard type are the keys of the tuples [("*",k)] in order
    (nil when there is none), and each other type is mapped to the keys of
    its tuples [(t,k)] in order; a type with a tuple [(t,"*")] keeps its
    specific keys as well. *)
Theorem RequiredStateMap_classifies (rs : RoomSubscription) :
  let tuples := elems (RequiredState rs) in
  (("*", "*") ∈ tuples → RequiredStateMap New rs = New None None None true) ∧
  (("*", "*") ∉ tuples →
   ∃ S K R,
     RequiredStateMap New rs = New (Some S) K (Some R) false ∧
     (∀ t, t ∈ S ↔ t ≠ "*" ∧ (t, "*") ∈ tuples) ∧
     elems K = (filter (λ p, p.1 = "*") tuples).*2 ∧
     (K = None ↔ filter (λ p : string * string, p.1 = "*") tuples = []) ∧
     (∀ t, R !! t
           = match (filter (λ p, p.1 = t ∧ p.1 ≠ "*" ∧ p.2 ≠ "*") tuples).*2 with
             | [] => None
             | ks => Some ks
             end)).
Proof.
  intros tuples. split.
  - intros Hin. by apply requiredStateLoop_all_state.
  - intros Hnot.
    destruct (requiredStateLoop_classify tuples Hnot ∅ None ∅)
      as (S & K & R & Hloop & HS & HK & HKn & HR).
    exists S, K, R. split_and!; [done|..].
    + intros t. rewrite HS. split; [intros [?%elem_of_empty|?]; done|by right].
    + by rewrite HK.
    + rewrite HKn. split; [by intros [_ ?]|done].
    + intros t. rewrite HR, lookup_empty. done.
Qed.

End RequiredStateMapFacts.

(** X6, witness, with the constructor that keeps its arguments: three
    tuples of the source's diagram (type B with any key, type B with key 2,
    any type with key 2), and then with the all-state tuple added at the
    end. *)
Lemma RequiredStateMap_classifies_witness :
  RequiredStateMap (λ S K R all, (S, K, R, all))
    {| RequiredState := Some [("B", "*"); ("B", "2"); ("*", "2")]; TimelineLimit := 0 |}
  = (Some {["B"]}, Some ["2"], Some {["B" := ["2"]]}, false) ∧
  RequiredStateMap (λ S K R all, (S, K, R, all))
    {| RequiredState := Some [("B", "*"); ("B", "2"); ("*", "2"); ("*", "*")];
       TimelineLimit := 0 |}
  = (None, None, None, true).
Proof.
  split.
  - vm_compute. reflexivity.
  - pose proof (RequiredStateMap_classifies (λ S K R all, (S, K, R, all))
                  {| RequiredState := Some [("B", "*"); ("B", "2"); ("*", "2"); ("*", "*")];
                     TimelineLimit := 0 |}) as [H _].
    apply H. simpl. do 3 right. by left.
Defined.

Section IncludeFacts.

Context (ToLower : string → string) (Contains : string → string → bool).

Lemma flag_filter_ok (o : option bool) (x : bool) :
  match o with Some b => negb (eqb b x) | None => false end = false
  ↔ ∀ b, o = Some b → b = x.
Proof.
  destruct o as [b|]; [destruct b, x|]; simpl; split; intros H; try done;
    try (by intros ? [= <-]); by specialize (H _ eq_refl).
Qed.

Lemma existsb_elem_of (l : list string) (X : gset string) :
  existsb (λ t, bool_decide (t ∈ X)) l = true ↔ ∃ t, t ∈ l ∧ t ∈ X.
Proof.
  rewrite existsb_exists. split; intros (t & Hin & Ht); exists t.
  - split; [by apply list_elem_of_In|by apply bool_decide_eq_true in Ht].
  - split; [by apply list_elem_of_In|by apply bool_decide_eq_true].
Qed.

Lemma len_pos {A} (s : slice A) : 0 < len s ↔ elems s ≠ [].
Proof. unfold len. destruct (elems s); simpl; split; try done; lia. Qed.

Lemma len_not_pos {A} (s : slice A) : ¬ 0 < len s → elems s = [].
Proof. unfold len. destruct (elems s); simpl; [done|lia]. Qed.

(** X7.  [Include] accepts a room exactly when every boolean field the
    filter sets equals the room's flag; the name filter is empty or
    contained in the room's name, both in lower case; the filter has no
    tags or the room has one of them; the room's type is not among
    [not_room_types]; and, when [room_types] is not empty, the room's type
    is among them, otherwise the filter has no spaces or the room is in one
    of them. *)
Theorem Include_spec (rf : RequestFilters) (r : FilterRoom) :
  (Include ToLower Contains rf r = true) ↔
  (∀ b, IsEncrypted rf = Some b → b = r_Encrypted r) ∧
  (∀ b, IsTombstoned rf = Some b → b = r_Tombstoned r) ∧
  (∀ b, IsDM rf = Some b → b = r_IsDM r) ∧
  (∀ b, IsInvite rf = Some b → b = r_IsInvite r) ∧
  (RoomNameFilter rf = "" ∨
   Contains (ToLower (r_CalculatedName r)) (ToLower (RoomNameFilter rf)) = true) ∧
  (elems (Tags rf) = [] ∨ ∃ t, t ∈ elems (Tags rf) ∧ t ∈ r_Tags r) ∧
  (r_RoomType r ∉ elems (NotRoomTypes rf)) ∧
  (elems (RoomTypes rf) ≠ [] → r_RoomType r ∈ elems (RoomTypes rf)) ∧
  (elems (RoomTypes rf) = [] →
   elems (Spaces rf) = [] ∨ ∃ s, s ∈ elems (Spaces rf) ∧ s ∈ r_Spaces r).
Proof.
  unfold Include.
  rewrite <- !flag_filter_ok.
  destruct (match IsEncrypted rf with Some _ => _ | None => _ end);
    [split; [done|by intros (? & _)]|].
  destruct (match IsTombstoned rf with Some _ => _ | None => _ end);
    [split; [done|by intros (_ & ? & _)]|].
  destruct (match IsDM rf with Some _ => _ | None => _ end);
    [split; [done|by intros (_ & _ & ? & _)]|].
  destruct (match IsInvite rf with Some _ => _ | None => _ end);
    [split; [done|by intros (_ & _ & _ & ? & _)]|].
  case_bool_decide as Hname; simpl.
  - rewrite <- existsb_elem_of, <- nullableStringExists_elem_of.
    pose proof (len_pos (Tags rf)) as Htags.
    pose proof (len_pos (RoomTypes rf)) as Hrt.
    pose proof (len_pos (Spaces rf)) as Hsp.
    pose proof (nullableStringExists_elem_of (RoomTypes rf) (r_RoomType r)) as Hrts.
    pose proof (existsb_elem_of (elems (Spaces rf)) (r_Spaces r)) as Hsps.
    repeat case_bool_decide; simpl;
      destruct (existsb _ (elems (Tags rf))); simpl;
      destruct (nullableStringExists (NotRoomTypes rf) _); simpl;
      destruct (nullableStringExists (RoomTypes rf) _); simpl;
      destruct (existsb _ (elems (Spaces rf))); simpl;
      intuition (try done; try lia; try congruence; eauto);
      left; apply len_not_pos; tauto.
  - rewrite <- existsb_elem_of, <- nullableStringExists_elem_of.
    pose proof (len_pos (Tags rf)) as Htags.
    pose proof (len_pos (RoomTypes rf)) as Hrt.
    pose proof (len_pos (Spaces rf)) as Hsp.
    pose proof (nullableStringExists_elem_of (RoomTypes rf) (r_RoomType r)) as Hrts.
    pose proof (existsb_elem_of (elems (Spaces rf)) (r_Spaces r)) as Hsps.
    destruct (Contains _ _); simpl;
      repeat case_bool_decide; simpl;
      destruct (existsb _ (elems (Tags rf))); simpl;
      destruct (nullableStringExists (NotRoomTypes rf) _); simpl;
      destruct (nullableStringExists (RoomTypes rf) _); simpl;
      destruct (existsb _ (elems (Spaces rf))); simpl;
      intuition (try done; try lia; try congruence; eauto);
      left; apply len_not_pos; tauto.
Qed.

End IncludeFacts.

(** X8.  In [Include] the room types come before the spaces: a filter with
    a non-empty [room_types] never looks at its [spaces], whatever they
    are.  The filter that sets nothing includes every room. *)
Theorem Include_room_types_before_spaces
    (ToLower : string → string) (Contains : string → string → bool)
    (rf : RequestFilters) (r : FilterRoom) (spaces : slice string) :
  (elems (RoomTypes rf) ≠ [] →
   Include ToLower Contains (setSpaces spaces rf) r = Include ToLower Contains rf r) ∧
  Include ToLower Contains zeroRequestFilters r = true.
Proof.
  split; [|done].
  intros Hrt. apply len_pos in Hrt. unfold Include. simpl.
  by rewrite (bool_decide_eq_true_2 _ Hrt).
Qed.

Lemma Include_room_types_before_spaces_witness :
  Include (λ s, s) (λ _ _, true)
    (mkRequestFilters (Some ["!space"]) None None None None (Some [None]) None "" None)
    (mkFilterRoom false false false false None ∅ ∅ "room") = true.
Proof.
  pose proof (Include_room_types_before_spaces (λ s, s) (λ _ _, true)
                (mkRequestFilters None None None None None (Some [None]) None "" None)
                (mkFilterRoom false false false false None ∅ ∅ "room")
                (Some ["!space"])) as [H _].
  unfold setSpaces in H. simpl in H. rewrite H; [reflexivity|done].
Defined.

(** ** More on the move geometry *)

Lemma JumpedOver_sym (rs : list Range) (f t : Z) :
  filter (JumpedOver t f) rs = filter (JumpedOver f t) rs.
Proof. apply list_filter_iff. intros r. unfold JumpedOver. lia. Qed.

Lemma CalculateMoveIndexes_closed cid rl f t :
  CalculateMoveIndexes cid rl f t
  = let rs := elems (Ranges rl) in
    let J := filter (JumpedOver f t) rs in
    if bool_decide (SameRange rs f t) then ([(f, t)], true)
    else if negb (SliceRanges.Inside rs f).2 && negb (SliceRanges.Inside rs t).2 then
      match J with
      | [] => ([], false)
      | _ :: _ => (jumpPair f t <$> J, true)
      end
    else (insidePairs cid rs f t ++ (jumpPair f t <$> J), true).
Proof.
  unfold CalculateMoveIndexes, SameRange, insidePairs. cbn zeta.
  rewrite jumpedOverRanges_filter.
  destruct (SliceRanges.Inside (elems (Ranges rl)) f) as [fr fb] eqn:Hf.
  destruct (SliceRanges.Inside (elems (Ranges rl)) t) as [tr tb] eqn:Ht.
  cbn [snd].
  destruct fb, tb; cbn [andb negb].
  - destruct (decide (fr = tr)) as [->|Hne].
    + rewrite (bool_decide_eq_true_2 (tr = tr)) by done.
      by rewrite (bool_decide_eq_true_2 (true = true ∧ (tr, true) = (tr, true))).
    + rewrite (bool_decide_eq_false_2 (fr = tr)) by done.
      rewrite (bool_decide_eq_false_2 (true = true ∧ (fr, true) = (tr, true)))
        by (intros [_ Heq]; congruence).
      unfold appendJumps. rewrite foldl_snoc_map. by rewrite <- app_assoc.
  - rewrite (bool_decide_eq_false_2 (true = true ∧ (fr, true) = (tr, false)))
      by (by intros [_ ?]).
    unfold appendJumps. by rewrite foldl_snoc_map.
  - rewrite (bool_decide_eq_false_2 (false = true ∧ (fr, false) = (tr, true)))
      by (by intros [? _]).
    unfold appendJumps. by rewrite foldl_snoc_map.
  - rewrite (bool_decide_eq_false_2 (false = true ∧ (fr, false) = (tr, false)))
      by (by intros [? _]).
    destruct (filter _ _) as [|j J] eqn:HJ; [done|].
    rewrite decide_False by done.
    unfold appendJumps. by rewrite foldl_snoc_map.
Qed.

(** X9.  The outcome of [CalculateMoveIndexes] for every pair of indexes.
    It is "not ok" exactly when no range covers either index and no range
    is jumped over, and then it has no pair; whenever it is ok it has at
    least one pair.  When at least one index is inside a range and they are
    not inside the same range (case B), the pairs are: the pair from
    [fromIndex] to the closest boundary in the direction of the move, when
    [fromIndex] is inside; the pair from the closest boundary to [toIndex],
    when [toIndex] is inside; then one pair per jumped-over range. *)
Theorem CalculateMoveIndexes_outcome
    (ClosestInDirection : list Range → Z → bool → Z)
    (rl : RequestList) (fromIndex toIndex : Z) :
  let rs := elems (Ranges rl) in
  let result := CalculateMoveIndexes ClosestInDirection rl fromIndex toIndex in
  let fromInside := (SliceRanges.Inside rs fromIndex).2 in
  let toInside := (SliceRanges.Inside rs toIndex).2 in
  (result.2 = false ↔
   fromInside = false ∧ toInside = false ∧
   filter (JumpedOver fromIndex toIndex) rs = []) ∧
  (result.2 = false → result.1 = []) ∧
  (result.2 = true → result.1 ≠ []) ∧
  (fromInside = true ∨ toInside = true → ¬ SameRange rs fromIndex toIndex →
   result
   = ((if fromInside
       then [(fromIndex,
              ClosestInDirection rs fromIndex (bool_decide (toIndex < fromIndex)))]
       else []) ++
      (if toInside
       then [(ClosestInDirection rs toIndex (bool_decide (fromIndex < toIndex)),
              toIndex)]
       else []) ++
      ((λ r : Range, if decide (toIndex < fromIndex)
                     then (r.2, r.1) else (r.1, r.2))
         <$> filter (JumpedOver fromIndex toIndex) rs),
      true)).
Proof.
  intros rs result fromInside toInside. subst result.
  rewrite CalculateMoveIndexes_closed. cbn zeta. fold rs.
  unfold SameRange, insidePairs. fold fromInside toInside.
  case_bool_decide as Hsame.
  - destruct Hsame as [Hin Heq]. split_and!; try done.
    + split; [done|]. intros (Hf & _). fold fromInside in Hin. congruence.
    + intros _ Hnot. destruct Hnot. done.
  - destruct fromInside eqn:Hf, toInside eqn:Ht; cbn [andb negb];
      try (split_and!; [split; [done|by intros (? & ? & _)]|done|done|
                        intros _ _; by rewrite <- app_assoc]).
    destruct (filter _ rs) as [|j J] eqn:HJ.
    + split_and!; try done. by intros [?|?].
    + split_and!; try done; try (by intros [?|?]).
      split; [done|by intros (_ & _ & ?)].
Qed.

Lemma CalculateMoveIndexes_outcome_witness :
  CalculateMoveIndexes (λ _ i toZero, if toZero then i - 1 else i + 1) exampleList 3 5
  = ([(3, 4)], true).
Proof.
  pose proof (CalculateMoveIndexes_outcome
                (λ _ i toZero, if toZero then i - 1 else i + 1) exampleList 3 5)
    as (_ & _ & _ & HB).
  rewrite HB; [reflexivity|by left|].
  intros [_ Heq]. vm_compute in Heq. discriminate.
Defined.

(** X10.  A move and its reverse touch the same windows: the pairs of
    [CalculateMoveIndexes] for [(toIndex, fromIndex)] are, up to their
    order, the pairs for [(fromIndex, toIndex)] with their two ends
    exchanged, and the two calls agree on ok. *)
Theorem CalculateMoveIndexes_reverse
    (ClosestInDirection : list Range → Z → bool → Z)
    (rl : RequestList) (fromIndex toIndex : Z) :
  let forward := CalculateMoveIndexes ClosestInDirection rl fromIndex toIndex in
  let backward := CalculateMoveIndexes ClosestInDirection rl toIndex fromIndex in
  backward.2 = forward.2 ∧
  backward.1 ≡ₚ (λ p : Z * Z, (p.2, p.1)) <$> forward.1.
Proof.
  intros forward backward. subst forward backward.
  rewrite !CalculateMoveIndexes_closed. cbn zeta.
  set (rs := elems (Ranges rl)).
  rewrite (JumpedOver_sym rs fromIndex toIndex).
  assert (Hjump : (λ p : Z * Z, (p.2, p.1)) <$>
                    (jumpPair fromIndex toIndex <$> filter (JumpedOver fromIndex toIndex) rs)
                  = jumpPair toIndex fromIndex <$> filter (JumpedOver fromIndex toIndex) rs).
  { rewrite <- list_fmap_compose. apply Forall_fmap_ext_1, Forall_forall.
    intros r Hr. apply list_elem_of_filter in Hr as [Hj _].
    unfold JumpedOver in Hj. unfold jumpPair. simpl.
    destruct (decide (toIndex < fromIndex)), (decide (fromIndex < toIndex));
      try done; lia. }
  assert (Hsame : SameRange rs toIndex fromIndex ↔ SameRange rs fromIndex toIndex).
  { unfold SameRange. split; intros [Hin Heq]; split; try done; by rewrite <- Heq. }
  rewrite (bool_decide_ext _ _ Hsame).
  case_bool_decide; [done|].
  unfold insidePairs.
  destruct (SliceRanges.Inside rs fromIndex).2, (SliceRanges.Inside rs toIndex).2;
    cbn [andb negb fst snd].
  - split; [done|]. rewrite fmap_app, Hjump. cbn [fmap list_fmap app fst snd].
    apply Permutation_swap.
  - split; [done|]. rewrite fmap_app, Hjump. done.
  - split; [done|]. rewrite fmap_app, Hjump. done.
  - destruct (filter _ rs) eqn:HJ; [done|]. split; [done|].
    cbn [fst]. by rewrite Hjump.
Qed.

(** ** More on merging requests *)

Lemma subs_fold_NoDup {V} (prev m : gmap string V) :
  NoDup (map_fold (λ roomID (_ : V) acc,
                     if bool_decide (is_Some (prev !! roomID)) then acc
                     else acc ++ [roomID]) [] m).
Proof.
  apply (map_fold_weak_ind
           (λ res m, NoDup res ∧ ∀ x, x ∈ res → is_Some (m !! x))).
  - split; [constructor|]. by intros x ?%elem_of_nil.
  - intros i v m' r Hi [Hnd Hin]. case_bool_decide.
    + split; [done|]. intros x Hx. destruct (decide (x = i)) as [->|Hne].
      * rewrite lookup_insert_eq. by eexists.
      * rewrite lookup_insert_ne by done. by apply Hin.
    + split.
      * apply NoDup_app. split_and!; [done| |apply NoDup_singleton].
        intros x Hx ->%list_elem_of_singleton.
        apply Hin in Hx. rewrite Hi in Hx. by apply is_Some_None in Hx.
      * intros x [Hx|Hx%list_elem_of_singleton]%elem_of_app; [|subst x].
        -- destruct (decide (x = i)) as [->|Hne].
           ++ rewrite lookup_insert_eq. by eexists.
           ++ rewrite lookup_insert_ne by done. by apply Hin.
        -- rewrite lookup_insert_eq. by eexists.
Qed.

Lemma unsubscribeStep_NoDup report l :
  ∀ m acc,
  NoDup acc →
  (∀ x, x ∈ acc → ¬ (is_Some (m !! x) ∧ report x = true)) →
  NoDup (foldl (unsubscribeStep report) (m, acc) l).2.
Proof.
  induction l as [|k l IH]; intros m acc Hnd Hacc; cbn [foldl]; [done|].
  unfold unsubscribeStep at 2. apply IH.
  - destruct (bool_decide (is_Some (m !! k))) eqn:Hs; [|done].
    destruct (report k) eqn:Hr; [|done]. simpl.
    apply bool_decide_eq_true in Hs.
    apply NoDup_app. split_and!; [done| |apply NoDup_singleton].
    intros x Hx ->%list_elem_of_singleton. by apply (Hacc k Hx).
  - intros x Hx [Hsome Hrep]. destruct (decide (x = k)) as [->|Hne].
    + rewrite lookup_delete_eq in Hsome. by apply is_Some_None in Hsome.
    + rewrite lookup_delete_ne in Hsome by done.
      destruct (bool_decide (is_Some (m !! k)) && report k).
      * apply elem_of_app in Hx as [Hx|Hx%list_elem_of_singleton]; [|done].
        by apply (Hacc x Hx).
      * by apply (Hacc x Hx).
Qed.

Section ApplyDeltaMore.

Context {E : Type} (extApplyDelta : E → E → E) (extZero : E).

Local Abbreviation applyDelta := (ApplyDelta extApplyDelta extZero).

Lemma ApplyDelta_Subs_eq (r : option (Request E)) (next : Request E) :
  Subs (applyDelta r next).1.2
  = map_fold (λ roomID (_ : RoomSubscription) acc,
                if bool_decide (is_Some (prevSubscriptions r !! roomID)) then acc
                else acc ++ [roomID])
             [] (RoomSubscriptions (applyDelta r next).1.1).
Proof.
  unfold ApplyDelta.
  assert (RoomSubscriptions (default (emptyRequest extZero) r) = prevSubscriptions r)
    as -> by by destruct r.
  repeat match goal with
         | |- context [let '(_, _) := ?p in _] => destruct p
         end.
  done.
Qed.

Lemma ApplyDelta_Unsubs_eq (r : option (Request E)) (next : Request E) :
  Unsubs (applyDelta r next).1.2
  = (foldl (unsubscribeStep
              (λ roomID, bool_decide (RoomSubscriptions next !! roomID = None)))
       (RoomSubscriptions next
          ∪ foldl (λ a k, delete k a) (prevSubscriptions r) (prevUnsubscribes r),
        (foldl (unsubscribeStep (λ _, true)) (prevSubscriptions r, [])
           (prevUnsubscribes r)).2)
       (UnsubscribeRooms next)).2.
Proof.
  unfold ApplyDelta.
  assert (RoomSubscriptions (default (emptyRequest extZero) r) = prevSubscriptions r)
    as -> by by destruct r.
  assert (UnsubscribeRooms (default (emptyRequest extZero) r) = prevUnsubscribes r)
    as -> by by destruct r.
  destruct (foldl (mergeListAt _) _ _) as [nls ls].
  rewrite !map_fold_insert_union, (right_id_L ∅ (∪)).
  match goal with
  | |- context [let '(_, _) := ?p in _] => destruct p as [m1 u1] eqn:H1
  end.
  pose proof (unsubscribeStep_fst (λ _, true) (prevUnsubscribes r)
                (prevSubscriptions r) []) as Hm1.
  rewrite H1 in Hm1. simpl in Hm1. subst m1.
  rewrite map_fold_insert_union.
  match goal with
  | |- context [let '(_, _) := ?p in _] => destruct p as [m2 u2] eqn:H2
  end.
  simpl. by rewrite H2.
Qed.

Lemma ApplyDelta_DeltaLists_eq (r : option (Request E)) (next : Request E) :
  DeltaLists (applyDelta r next).1.2
  = (λ i, {| Prev := prevLists r !! i; Curr := Lists (applyDelta r next).1.1 !! i |})
      <$> seq 0 (length (prevLists r) `max` length (Lists next)).
Proof.
  assert (Hlen : length (Lists (applyDelta r next).1.1) = length (Lists next)).
  { by rewrite ApplyDelta_lists, length_imap. }
  revert Hlen. unfold ApplyDelta.
  assert (Lists (default (emptyRequest extZero) r) = prevLists r) as ->
    by by destruct r.
  repeat match goal with
         | |- context [let '(_, _) := ?p in _] => destruct p
         end.
  simpl. intros Hlen. rewrite Hlen. f_equal. f_equal.
  destruct (decide _); lia.
Qed.

(** X11.  The lists of the result and of the delta.  The combined request
    has exactly as many lists as the incoming request: lists of the
    previous request at positions the incoming request does not have are
    not carried over.  The delta has as many entries as the longer of the
    two list arrays; entry [i] pairs the previous request's list [i] with
    the combined list [i], each absent when the position does not exist. *)
Theorem ApplyDelta_delta_lists (r : option (Request E)) (next : Request E) :
  let result := (applyDelta r next).1.1 in
  let delta := (applyDelta r next).1.2 in
  length (Lists result) = length (Lists next) ∧
  (∀ i, (length (Lists next) ≤ i)%nat → Lists result !! i = None) ∧
  length (DeltaLists delta) = (length (prevLists r) `max` length (Lists next))%nat ∧
  (∀ i, (i < length (prevLists r) `max` length (Lists next))%nat →
        DeltaLists delta !! i
        = Some {| Prev := prevLists r !! i; Curr := Lists result !! i |}) ∧
  (∀ i, (length (prevLists r) `max` length (Lists next) ≤ i)%nat →
        DeltaLists delta !! i = None).
Proof.
  intros result delta.
  assert (Hlen : length (Lists result) = length (Lists next)).
  { subst result. by rewrite ApplyDelta_lists, length_imap. }
  subst delta. rewrite ApplyDelta_DeltaLists_eq. fold result.
  split_and!; [done|..].
  - intros i Hi. apply lookup_ge_None. lia.
  - by rewrite length_fmap, length_seq.
  - intros i Hi. rewrite list_lookup_fmap, lookup_seq_lt by done. done.
  - intros i Hi. rewrite list_lookup_fmap, lookup_seq_ge by done. done.
Qed.

(** X12.  [delta.Subs] and [delta.Unsubs] name no room twice and have no
    room in common: every room of [delta.Subs] is new to the previous
    subscriptions, every room of [delta.Unsubs] was one of them. *)
Theorem ApplyDelta_delta_disjoint (r : option (Request E)) (next : Request E) :
  let delta := (applyDelta r next).1.2 in
  NoDup (Subs delta) ∧ NoDup (Unsubs delta) ∧
  (∀ x, x ∈ Subs delta → prevSubscriptions r !! x = None) ∧
  (∀ x, x ∈ Unsubs delta → is_Some (prevSubscriptions r !! x)) ∧
  (∀ x, x ∈ Subs delta → x ∉ Unsubs delta).
Proof.
  intros delta.
  assert (Hs : ∀ x, x ∈ Subs delta → prevSubscriptions r !! x = None).
  { intros x. subst delta. rewrite ApplyDelta_Subs_eq, subs_fold_spec. by intros [_ ?]. }
  assert (Hu : ∀ x, x ∈ Unsubs delta → is_Some (prevSubscriptions r !! x)).
  { intros x. subst delta. rewrite ApplyDelta_Unsubs_eq.
    rewrite !unsubscribeStep_snd, elem_of_nil, lookup_union, lookup_foldl_delete.
    intros [[[]|(_ & ? & _)]|(_ & Hsome & Hnone)]; [done|].
    apply bool_decide_eq_true in Hnone. rewrite Hnone in Hsome.
    destruct (decide (x ∈ prevUnsubscribes r)); simpl in Hsome;
      [by apply is_Some_None in Hsome|].
    by destruct (prevSubscriptions r !! x). }
  split_and!; [| |done|done|].
  - subst delta. rewrite ApplyDelta_Subs_eq. apply subs_fold_NoDup.
  - subst delta. rewrite ApplyDelta_Unsubs_eq. apply unsubscribeStep_NoDup.
    + apply unsubscribeStep_NoDup; [constructor|]. by intros x ?%elem_of_nil.
    + intros x. rewrite unsubscribeStep_snd, elem_of_nil.
      intros [[]|(Hin & Hsome & _)] [Hres Hrep].
      apply bool_decide_eq_true in Hrep.
      rewrite lookup_union, lookup_foldl_delete, Hrep in Hres.
      rewrite decide_True in Hres by done. by apply is_Some_None in Hres.
  - intros x Hx Hx'. apply Hs in Hx. apply Hu in Hx'. rewrite Hx in Hx'.
    by apply is_Some_None in Hx'.
Qed.

(** X13.  What [ApplyDelta] writes into the incoming request: nothing but
    the sort order [[by_recency]], into the lists with an empty sort order
    at positions where the previous request has no list.  An incoming
    request without such a list is left exactly as it was. *)
Theorem ApplyDelta_incoming_request (r : option (Request E)) (next : Request E) :
  let next' := (applyDelta r next).2 in
  TxnID next' = TxnID next ∧ RoomSubscriptions next' = RoomSubscriptions next ∧
  UnsubscribeRooms next' = UnsubscribeRooms next ∧ Extensions next' = Extensions next ∧
  pos next' = pos next ∧ timeoutMSecs next' = timeoutMSecs next ∧
  length (Lists next') = length (Lists next) ∧
  (∀ i nl, Lists next !! i = Some nl →
     Lists next' !! i
     = Some (if decide (len (Sort nl) = 0 ∧ prevLists r !! i = None)
             then setSort (Some [SortByRecency]) nl else nl)) ∧
  ((∀ i nl, Lists next !! i = Some nl →
            len (Sort nl) ≠ 0 ∨ is_Some (prevLists r !! i)) →
   next' = next).
Proof.
  intros next'.
  assert (Hfields :
    TxnID next' = TxnID next ∧ RoomSubscriptions next' = RoomSubscriptions next ∧
    UnsubscribeRooms next' = UnsubscribeRooms next ∧ Extensions next' = Extensions next ∧
    pos next' = pos next ∧ timeoutMSecs next' = timeoutMSecs next).
  { subst next'. unfold ApplyDelta.
    repeat match goal with
           | |- context [let '(_, _) := ?p in _] => destruct p
           end.
    done. }
  assert (Hlists : ∀ i nl, Lists next !! i = Some nl →
     Lists next' !! i
     = Some (if decide (len (Sort nl) = 0 ∧ prevLists r !! i = None)
             then setSort (Some [SortByRecency]) nl else nl)).
  { intros i nl Hnl. subst next'.
    rewrite ApplyDelta_next_lists, list_lookup_imap, Hnl. done. }
  destruct Hfields as (Ht & Hs & Hu & He & Hp & Hto).
  split_and!; try done.
  - subst next'. by rewrite ApplyDelta_next_lists, length_imap.
  - intros Hall.
    assert (Hl : Lists next' = Lists next).
    { apply list_eq. intros i. destruct (Lists next !! i) as [nl|] eqn:Hnl.
      - rewrite (Hlists i nl Hnl). f_equal.
        rewrite decide_False; [done|]. intros [Hz Hn].
        destruct (Hall i nl Hnl) as [?|Hsome]; [done|].
        rewrite Hn in Hsome. by apply is_Some_None in Hsome.
      - subst next'. by rewrite ApplyDelta_next_lists, list_lookup_imap, Hnl. }
    destruct next', next. simpl in *. by subst.
Qed.

(** X14.  A delta that says nothing changes nothing: when the incoming
    request has one list per previous list, each setting no field, no room
    subscriptions and no unsubscribes, and the previous request carries no
    unsubscribes, the combined lists and subscriptions are the previous
    ones and the delta reports no new and no dropped subscription. *)
Theorem ApplyDelta_empty_delta (prev next : Request E) :
  Lists next = replicate (length (Lists prev)) zeroRequestList →
  RoomSubscriptions next = ∅ →
  UnsubscribeRooms next = [] →
  UnsubscribeRooms prev = [] →
  let result := (applyDelta (Some prev) next).1.1 in
  let delta := (applyDelta (Some prev) next).1.2 in
  Lists result = Lists prev ∧
  RoomSubscriptions result = RoomSubscriptions prev ∧
  Subs delta = [] ∧ Unsubs delta = [].
Proof.
  intros Hl Hs Hu Hpu result delta.
  assert (Hrs : RoomSubscriptions result = RoomSubscriptions prev).
  { subst result. rewrite ApplyDelta_subscriptions_eq. simpl.
    rewrite Hs, Hu, Hpu. simpl. by rewrite (left_id_L ∅ (∪)). }
  split_and!; [|done| |].
  - subst result. rewrite ApplyDelta_lists. simpl. rewrite Hl.
    apply list_eq. intros i. rewrite list_lookup_imap.
    destruct (Lists prev !! i) as [ex|] eqn:Hex.
    + rewrite lookup_replicate_2 by (by eapply lookup_lt_Some). simpl. f_equal.
      destruct ex as [[rs tl] rg so fi sl]. done.
    + rewrite lookup_ge_None_2; [done|]. rewrite length_replicate.
      by apply lookup_ge_None.
  - apply elem_of_nil_inv. intros x. subst delta.
    rewrite ApplyDelta_Subs_eq, subs_fold_spec. fold result. rewrite Hrs. simpl.
    intros [Hsome Hnone]. rewrite Hnone in Hsome. by apply is_Some_None in Hsome.
  - subst delta. rewrite ApplyDelta_Unsubs_eq. simpl. by rewrite Hu, Hpu.
Qed.

End ApplyDeltaMore.

Lemma ApplyDelta_empty_delta_witness :
  Lists (applyDeltaUnit (Some prevByName) (requestOfLists [zeroRequestList])).1.1
  = Lists prevByName.
Proof.
  apply (ApplyDelta_empty_delta (λ _ _, tt) tt prevByName
           (requestOfLists [zeroRequestList]) eq_refl eq_refl eq_refl eq_refl).
Defined.

Lemma ApplyDelta_incoming_request_witness :
  (applyDeltaUnit (Some prevByName) nextEmptySort).2 = nextEmptySort.
Proof.
  pose proof (ApplyDelta_incoming_request (λ _ _, tt) tt (Some prevByName) nextEmptySort)
    as (_ & _ & _ & _ & _ & _ & _ & _ & H).
  apply H. intros [|i] nl Hnl; [|done]. right. by eexists.
Defined.

(** * Further properties of the connection state *)

Section ConnInvariants.

Import Conn.

Context `{P : Package}.
Context (SortRooms : slice string → list RoomConnMetadata → list RoomConnMetadata).

(** The loop of [sort] that writes the positions. *)
Lemma positions_written (l : list RoomConnMetadata) (p : gmap string Z) :
  NoDup (roomID_of <$> l) →
  (∀ i r, l !! i = Some r →
     foldl (λ acc (ir : nat * RoomConnMetadata), <[roomID_of ir.2 := Z.of_nat ir.1]> acc)
           p (imap pair l) !! roomID_of r = Some (Z.of_nat i)) ∧
  (∀ id, id ∉ roomID_of <$> l →
     foldl (λ acc (ir : nat * RoomConnMetadata), <[roomID_of ir.2 := Z.of_nat ir.1]> acc)
           p (imap pair l) !! id = p !! id).
Proof.
  induction l as [|x l IH] using rev_ind; intros Hnd.
  - split; [by intros i r ?|done].
  - rewrite fmap_app in Hnd. apply NoDup_app in Hnd as (Hnd & Hnot & _).
    destruct (IH Hnd) as [IHa IHb].
    rewrite imap_app, foldl_app. cbn [imap foldl fst snd]. rewrite Nat.add_0_r.
    split.
    + intros i r Hi. apply lookup_app_Some in Hi as [Hi|[Hge Hi]].
      * rewrite lookup_insert_ne; [by apply IHa|].
        intros Heq. apply (Hnot (roomID_of r)).
        -- apply list_elem_of_fmap. exists r. split; [done|].
           by eapply list_elem_of_lookup_2.
        -- rewrite <- Heq. by left.
      * apply list_lookup_singleton_Some in Hi as [Hz ->].
        rewrite lookup_insert_eq. f_equal. lia.
    + intros id Hid. rewrite fmap_app in Hid.
      rewrite lookup_insert_ne.
      * apply IHb. intros ?. apply Hid, elem_of_app. by left.
      * intros <-. apply Hid, elem_of_app. right. by left.
Qed.

Lemma index_lookup {A} (l : list A) (i : Z) (x : A) :
  index l i = Some x ↔ 0 ≤ i ∧ l !! Z.to_nat i = Some x.
Proof. unfold index. destruct (decide (0 ≤ i)); split; try done; by intros [? ?]. Qed.

(** [sort] and the reverse index. *)
Lemma sort_consistent (s : ConnState) (sortBy : slice string) :
  (∀ k l, SortRooms k l ≡ₚ l) →
  NoDup (roomID_of <$> sortedJoinedRooms s) →
  (∀ id, is_Some (sortedJoinedRoomsPositions s !! id) →
         id ∈ roomID_of <$> sortedJoinedRooms s) →
  sortedJoinedRooms (sort SortRooms s sortBy) = SortRooms sortBy (sortedJoinedRooms s) ∧
  IndexConsistent (sort SortRooms s sortBy).
Proof.
  intros Hperm Hnd Hdom. split; [done|].
  assert (Hnd' : NoDup (roomID_of <$> SortRooms sortBy (sortedJoinedRooms s))).
  { by rewrite Hperm. }
  destruct (positions_written (SortRooms sortBy (sortedJoinedRooms s))
              (sortedJoinedRoomsPositions s) Hnd') as [Ha Hb].
  split; [done|]. intros id i. cbn [sort sortedJoinedRooms sortedJoinedRoomsPositions
                                      setPositions setSortedJoinedRooms].
  split.
  - intros Hpos.
    destruct (decide (id ∈ roomID_of <$> SortRooms sortBy (sortedJoinedRooms s)))
      as [Hin|Hnin].
    + apply list_elem_of_fmap in Hin as (r & -> & Hr).
      apply list_elem_of_lookup in Hr as [j Hj].
      rewrite (Ha j r Hj) in Hpos. injection Hpos as <-.
      exists r. split; [|done]. apply index_lookup. split; [lia|].
      by rewrite Nat2Z.id.
    + rewrite (Hb id Hnin) in Hpos. destruct Hnin.
      rewrite Hperm. apply Hdom. by eexists.
  - intros (r & Hr & <-). apply index_lookup in Hr as [Hi Hr].
    rewrite (Ha _ r Hr). f_equal. lia.
Qed.

(** X15.  [sort] makes the reverse index exact.  When the rooms have
    pairwise distinct identifiers, the position map has entries for rooms
    of the list only and the sorter permutes the rooms, then after [sort]
    the list is the sorter's result, its rooms still have distinct
    identifiers, and the position map sends an identifier to [i] exactly
    when the room at index [i] has it. *)
Theorem sort_index_consistent (s : ConnState) (sortBy : slice string) :
  (∀ k l, SortRooms k l ≡ₚ l) →
  NoDup (roomID_of <$> sortedJoinedRooms s) →
  (∀ id, is_Some (sortedJoinedRoomsPositions s !! id) →
         id ∈ roomID_of <$> sortedJoinedRooms s) →
  sortedJoinedRooms (sort SortRooms s sortBy) = SortRooms sortBy (sortedJoinedRooms s) ∧
  IndexConsistent (sort SortRooms s sortBy).
Proof. exact (sort_consistent s sortBy). Qed.

Lemma IndexConsistent_fields (s s' : ConnState) :
  sortedJoinedRooms s' = sortedJoinedRooms s →
  sortedJoinedRoomsPositions s' = sortedJoinedRoomsPositions s →
  IndexConsistent s → IndexConsistent s'.
Proof. unfold IndexConsistent. by intros -> ->. Qed.

Lemma IndexConsistent_dom (s : ConnState) :
  IndexConsistent s →
  ∀ id, is_Some (sortedJoinedRoomsPositions s !! id) ↔
        id ∈ roomID_of <$> sortedJoinedRooms s.
Proof.
  intros [_ Hc] id. split.
  - intros [i Hi]. apply Hc in Hi as (r & Hr & <-).
    apply index_lookup in Hr as [_ Hr].
    apply list_elem_of_fmap. exists r. split; [done|]. by eapply list_elem_of_lookup_2.
  - intros (r & -> & Hr)%list_elem_of_fmap.
    apply list_elem_of_lookup in Hr as [j Hj].
    exists (Z.of_nat j). apply Hc. exists r. split; [|done].
    apply index_lookup. split; [lia|]. by rewrite Nat2Z.id.
Qed.

(** What [processEvent] does to the state: the load position moves up to
    the event's position, the event's room is appended or has its
    timestamp replaced, the list is sorted, and nothing else changes. *)
Lemma processEvent_state (s0 s' : ConnState) respSubs respSubs' ops updateEvent :
  processEvent SortRooms s0 respSubs updateEvent = Some (s', respSubs', ops) →
  ∃ (m : Request) (rooms : list RoomConnMetadata),
    muxedReq s0 = Some m ∧
    s' = sort SortRooms
           (setSortedJoinedRooms rooms
              (if decide (loadPosition s0 < ev_latestPos updateEvent)
               then setLoadPosition (ev_latestPos updateEvent) s0 else s0))
           (Sort m) ∧
    match sortedJoinedRoomsPositions s0 !! ev_roomID updateEvent with
    | None =>
      rooms = sortedJoinedRooms s0 ++
              [ {| rcm_RoomMetadata :=
                     RemoveHero (setTimestamp (ev_timestamp updateEvent)
                                   (LoadRoom (ev_roomID updateEvent))) (userID s0);
                   rcm_CanonicalisedName :=
                     canonicalisedName
                       (RemoveHero (setTimestamp (ev_timestamp updateEvent)
                                      (LoadRoom (ev_roomID updateEvent))) (userID s0));
                   rcm_HighlightCount := 0; rcm_NotificationCount := 0 |} ]
    | Some fromIndex =>
      ∃ targetRoom,
        index (sortedJoinedRooms s0) fromIndex = Some targetRoom ∧
        rooms = <[Z.to_nat fromIndex :=
                   setRoomMetadata
                     (setTimestamp (ev_timestamp updateEvent) (rcm_RoomMetadata targetRoom))
                     targetRoom]> (sortedJoinedRooms s0)
    end.
Proof.
  unfold processEvent. intros H.
  set (s1 := if decide (loadPosition s0 < ev_latestPos updateEvent)
             then setLoadPosition (ev_latestPos updateEvent) s0 else s0) in *.
  assert (Hrooms : sortedJoinedRooms s1 = sortedJoinedRooms s0)
    by (subst s1; by destruct (decide _)).
  assert (Hpos : sortedJoinedRoomsPositions s1 = sortedJoinedRoomsPositions s0)
    by (subst s1; by destruct (decide _)).
  assert (Huser : userID s1 = userID s0) by (subst s1; by destruct (decide _)).
  assert (Hmux : ∀ l, muxedReq (setSortedJoinedRooms l s1) = muxedReq s0)
    by (intros l; subst s1; by destruct (decide _)).
  rewrite Hpos, Hrooms, Huser in H.
  apply bind_Some in H as ([s2 fromIndex] & Hbranch & H).
  apply bind_Some in H as (m & Hm & H).
  assert (Hs' : s' = sort SortRooms s2 (Sort m)).
  { repeat match type of H with
           | (if ?c then _ else _) = Some _ => destruct c
           | (_ ≫= _) = Some _ => apply bind_Some in H as (? & ? & H)
           end; by injection H as <- _ _. }
  destruct (sortedJoinedRoomsPositions s0 !! ev_roomID updateEvent) as [i|].
  - apply bind_Some in Hbranch as (targetRoom & Hidx & Hbranch).
    injection Hbranch as <- <-. rewrite Hmux in Hm.
    exists m, (<[Z.to_nat i :=
                  setRoomMetadata
                    (setTimestamp (ev_timestamp updateEvent) (rcm_RoomMetadata targetRoom))
                    targetRoom]> (sortedJoinedRooms s0)).
    split_and!; [done|done|]. by exists targetRoom.
  - injection Hbranch as <- <-. rewrite Hmux in Hm.
    eexists m, _. split_and!; [done|done|done].
Qed.

Lemma processEvent_consistent (s0 s' : ConnState) respSubs respSubs' ops updateEvent :
  KeepsRooms SortRooms →
  IndexConsistent s0 →
  processEvent SortRooms s0 respSubs updateEvent = Some (s', respSubs', ops) →
  IndexConsistent s'.
Proof.
  intros (Hperm & Hload & Hhero) Hc H.
  apply processEvent_state in H as (m & rooms & _ & -> & Hrooms).
  pose proof (IndexConsistent_dom s0 Hc) as Hdom.
  set (s1 := if decide (loadPosition s0 < ev_latestPos updateEvent)
             then setLoadPosition (ev_latestPos updateEvent) s0 else s0) in *.
  assert (Hpos : sortedJoinedRoomsPositions (setSortedJoinedRooms rooms s1)
                 = sortedJoinedRoomsPositions s0)
    by (subst s1; by destruct (decide _)).
  apply sort_consistent; [done|..]; cbn [sortedJoinedRooms setSortedJoinedRooms];
    rewrite ?Hpos.
  - destruct (sortedJoinedRoomsPositions s0 !! ev_roomID updateEvent) as [i|] eqn:Hi.
    + destruct Hrooms as (targetRoom & Hidx & ->).
      rewrite list_fmap_insert. apply index_lookup in Hidx as [_ Hidx].
      rewrite list_insert_id; [by destruct Hc|].
      rewrite list_lookup_fmap, Hidx. done.
    + subst rooms. rewrite fmap_app. apply NoDup_app.
      split_and!; [by destruct Hc| |apply NoDup_singleton].
      intros id Hid ->%list_elem_of_singleton.
      unfold roomID_of in Hid at 1. cbn [rcm_RoomMetadata] in Hid.
      rewrite Hhero in Hid. cbn [setTimestamp meta_RoomID] in Hid.
      rewrite Hload in Hid. apply Hdom in Hid. rewrite Hi in Hid.
      by apply is_Some_None in Hid.
  - intros id Hid. apply Hdom in Hid.
    destruct (sortedJoinedRoomsPositions s0 !! ev_roomID updateEvent) as [i|].
    + destruct Hrooms as (targetRoom & Hidx & ->).
      rewrite list_fmap_insert. apply index_lookup in Hidx as [_ Hidx].
      rewrite list_insert_id; [done|].
      rewrite list_lookup_fmap, Hidx. done.
    + subst rooms. rewrite fmap_app. apply elem_of_app. by left.
Qed.

Lemma liveLoop_consistent (sched : list Action) :
  KeepsRooms SortRooms →
  ∀ (s s' : ConnState) respSubs respSubs' ops,
  IndexConsistent s →
  liveLoop SortRooms sched s respSubs = Some (s', respSubs', ops) →
  IndexConsistent s'.
Proof.
  intros Hk. induction sched as [|a sched IH]; intros s s' respSubs respSubs' ops Hc H.
  - by injection H as <- _ _.
  - destruct a as [| | |e]; cbn [liveLoop] in H.
    + by injection H as <- _ _.
    + by injection H as <- _ _.
    + destruct (updateEvents s) as [|ev q] eqn:Hq; [by eapply IH|].
      apply bind_Some in H as ([[s1 rs1] ops1] & Hproc & H).
      apply processEvent_consistent in Hproc; [|done|by eapply IndexConsistent_fields].
      destruct ops1; [by injection H as <- _ _|by eapply IH].
    + eapply IH; [|done]. eapply IndexConsistent_fields; [..|done];
        unfold OnNewEvent; by repeat destruct (decide _).
Qed.

(** [onIncomingRequest] and the reverse index. *)
Lemma onIncomingRequest_consistent (s s' : ConnState) (req : Request)
    (sched : list Action) (out : Response * option error) :
  KeepsRooms SortRooms →
  IndexConsistent s →
  onIncomingRequest SortRooms s req sched = Some (s', out) →
  IndexConsistent s'.
Proof.
  intros Hk Hc H. unfold onIncomingRequest in H.
  destruct (match muxedReq s with
            | Some m => (Rooms m, Sort m)
            | None => (None, None)
            end) as [prevRange prevSort].
  destruct (match muxedReq s with
            | Some m => RequestApplyDelta m req
            | None => (req, (map_to_list (RoomSubscriptions req)).*1, [])
            end) as [[m newSubs] newUnsubs].
  destruct (updateRoomSubscriptions_closed (setMuxedReq (Some m) s) m newSubs newUnsubs
              eq_refl) as (rs & respSubs & Hupd & _).
  rewrite Hupd in H. cbn [mbind option_bind] in H.
  destruct (match prevRange with
            | Some _ => Delta prevRange (Rooms m)
            | None => (Rooms m, None, None)
            end) as [[added0 removed0] same0].
  set (s2 := setRoomSubscriptions rs (setMuxedReq (Some m) s)) in *.
  assert (Hc2 : IndexConsistent s2) by (by eapply IndexConsistent_fields).
  assert (Hc3 : ∀ sortBy, IndexConsistent (sort SortRooms s2 sortBy)).
  { intros sortBy. destruct Hk as (Hperm & _). apply sort_consistent; [done|..].
    - by destruct Hc2.
    - intros id. by apply IndexConsistent_dom. }
  destruct (decide (prevSort ≠ Sort m)).
  - apply bind_Some in H as (ops3 & _ & H).
    apply bind_Some in H as ([[s4 rs4] ops4] & Hlive & H).
    injection H as <- _.
    destruct (_ && _).
    + apply bind_Some in Hlive as ([[s5 rs5] ops5] & Hlive & Heq).
      injection Heq as <- _ _.
      eapply liveLoop_consistent; [exact Hk| |exact Hlive]. apply Hc3.
    + injection Hlive as <- _ _. apply Hc3.
  - apply bind_Some in H as (ops3 & _ & H).
    apply bind_Some in H as ([[s4 rs4] ops4] & Hlive & H).
    injection H as <- _.
    destruct (_ && _).
    + apply bind_Some in Hlive as ([[s5 rs5] ops5] & Hlive & Heq).
      injection Heq as <- _ _.
      eapply liveLoop_consistent; [exact Hk| |exact Hlive]. exact Hc2.
    + injection Hlive as <- _ _. exact Hc2.
Qed.

(** X16.  [onIncomingRequest] keeps the reverse index exact, under every
    schedule of the live loop, when the sorter permutes the rooms, the
    global cache answers with the room asked for and [RemoveHero] keeps the
    room's identifier: if the index is exact before a request that
    returns, it is exact after it. *)
Theorem onIncomingRequest_index_consistent (s s' : ConnState) (req : Request)
    (sched : list Action) (out : Response * option error) :
  KeepsRooms SortRooms →
  IndexConsistent s →
  onIncomingRequest SortRooms s req sched = Some (s', out) →
  IndexConsistent s'.
Proof. exact (onIncomingRequest_consistent s s' req sched out). Qed.

End ConnInvariants.

Lemma recencySortRooms_keeps : KeepsRooms (P:=sevenRoomsPackage) recencySortRooms.
Proof.
  split_and!; [|done|done]. intros sortBy l. unfold recencySortRooms.
  apply merge_sort_Permutation.
Qed.

Lemma NewConnState_consistent {P : Conn.Package} (userID : string) :
  IndexConsistent (Conn.NewConnState userID).
Proof.
  split; [constructor|]. intros id i. cbn. rewrite lookup_empty. split; [done|].
  intros (r & Hr & _). unfold Conn.index in Hr. destruct (decide _); [|done].
  by rewrite lookup_nil in Hr.
Qed.

(** X15, witness: sorting the two unsorted rooms by recency puts [!a]
    before [!g] and leaves an exact index. *)
Lemma sort_index_consistent_witness :
  Conn.roomID_of <$> Conn.sortedJoinedRooms (Conn.sort recencySortRooms unsortedConn None)
  = ["!a"; "!g"] ∧
  IndexConsistent (Conn.sort recencySortRooms unsortedConn None).
Proof.
  assert (Hperm : ∀ k (l : list (@Conn.RoomConnMetadata sevenRoomsPackage)),
             recencySortRooms k l ≡ₚ l) by (by destruct recencySortRooms_keeps).
  assert (Hnd : NoDup (Conn.roomID_of <$> Conn.sortedJoinedRooms unsortedConn)).
  { apply (bool_decide_unpack _). vm_compute. exact I. }
  assert (Hdom : ∀ id, is_Some (Conn.sortedJoinedRoomsPositions unsortedConn !! id) →
                       id ∈ Conn.roomID_of <$> Conn.sortedJoinedRooms unsortedConn).
  { intros id [i Hi]. cbn in Hi. by rewrite lookup_empty in Hi. }
  destruct (sort_index_consistent recencySortRooms unsortedConn None Hperm Hnd Hdom)
    as [Hrooms Hc].
  split; [|exact Hc]. rewrite Hrooms. reflexivity.
Defined.

Lemma windowConn_consistent : IndexConsistent windowConn.
Proof.
  eapply IndexConsistent_fields; [..|apply (NewConnState_consistent "@alice:localhost")];
    done.
Qed.

(** X16, witness: a connection with the window [[0,4]] and no rooms
    receives, during an empty request, an event for a room it does not
    know; the room is appended and the index stays exact. *)
Lemma onIncomingRequest_index_consistent_witness :
  (λ r, Conn.roomID_of <$> Conn.sortedJoinedRooms r.1)
    <$> Conn.onIncomingRequest recencySortRooms windowConn emptyDeltaRequest
          [Conn.Produce (exampleEvent "!z" 9); Conn.Recv] = Some ["!z"] ∧
  ∃ s' out,
    Conn.onIncomingRequest recencySortRooms windowConn emptyDeltaRequest
      [Conn.Produce (exampleEvent "!z" 9); Conn.Recv] = Some (s', out) ∧
    IndexConsistent s'.
Proof.
  split; [vm_compute; reflexivity|].
  assert (Hsome : is_Some (Conn.onIncomingRequest recencySortRooms windowConn
                             emptyDeltaRequest
                             [Conn.Produce (exampleEvent "!z" 9); Conn.Recv])).
  { apply (bool_decide_unpack _). vm_compute. exact I. }
  destruct Hsome as [[s' out] H]. exists s', out. split; [exact H|].
  exact (onIncomingRequest_index_consistent recencySortRooms windowConn s'
           emptyDeltaRequest _ out recencySortRooms_keeps windowConn_consistent H).
Defined.

Section ConnRequests.

Import Conn.

Context `{P : Package}.
Context (SortRooms : slice string → list RoomConnMetadata → list RoomConnMetadata).

(** [load] and the reverse index. *)
Lemma load_consistent (s : ConnState) (req : Request)
    (pos : Z) (joined : list (RoomMetadata MetaRest)) (err : option error) :
  KeepsRooms SortRooms →
  LoadJoinedRooms (userID s) = (pos, joined, err) →
  NoDup (meta_RoomID <$> joined) →
  sortedJoinedRoomsPositions s = ∅ →
  match err with
  | Some e => load SortRooms s req = (s, Some e)
  | None =>
    (load SortRooms s req).2 = None ∧
    loadPosition (load SortRooms s req).1 = pos ∧
    roomID_of <$> sortedJoinedRooms (load SortRooms s req).1 ≡ₚ meta_RoomID <$> joined ∧
    IndexConsistent (load SortRooms s req).1
  end.
Proof.
  intros (Hperm & Hload & Hhero) Hjoined Hnd Hempty. unfold load. rewrite Hjoined.
  destruct err as [e|]; [done|]. cbn [fst snd].
  set (rooms := (λ metadata0, _) <$> joined).
  assert (Hids : roomID_of <$> rooms = meta_RoomID <$> joined).
  { subst rooms. rewrite <- list_fmap_compose. apply list_fmap_ext.
    intros i m _. unfold roomID_of. cbn. apply Hhero. }
  split_and!; [done|done|..].
  - cbn [sort sortedJoinedRooms setPositions setSortedJoinedRooms].
    by rewrite Hperm, Hids.
  - apply sort_consistent; [done|..]; cbn [sortedJoinedRooms setSortedJoinedRooms].
    + by rewrite Hids.
    + intros id [i Hi]. cbn in Hi. rewrite Hempty in Hi. by rewrite lookup_empty in Hi.
Qed.

(** X17.  [load] on a connection that has no rooms yet.  When the global
    cache fails, the connection is left untouched and the error is
    returned.  When it answers with rooms of pairwise distinct identifiers,
    the load position becomes the cache's position, the sorted list holds
    exactly the joined rooms, up to order, and the reverse index is
    exact. *)
Theorem load_spec (s : ConnState) (req : Request)
    (pos : Z) (joined : list (RoomMetadata MetaRest)) (err : option error) :
  KeepsRooms SortRooms →
  LoadJoinedRooms (userID s) = (pos, joined, err) →
  NoDup (meta_RoomID <$> joined) →
  sortedJoinedRoomsPositions s = ∅ →
  match err with
  | Some e => load SortRooms s req = (s, Some e)
  | None =>
    (load SortRooms s req).2 = None ∧
    loadPosition (load SortRooms s req).1 = pos ∧
    roomID_of <$> sortedJoinedRooms (load SortRooms s req).1 ≡ₚ meta_RoomID <$> joined ∧
    IndexConsistent (load SortRooms s req).1
  end.
Proof. exact (load_consistent s req pos joined err). Qed.

(** An invariant of the connection that the steps of a request keep is
    kept by the request. *)
Lemma liveLoop_invariant (I : ConnState → Prop) :
  (∀ s e, I s → I (OnNewEvent s e).1) →
  (∀ s ev q rs s' rs' ops, I s → updateEvents s = ev :: q →
     processEvent SortRooms (setUpdateEvents q s) rs ev = Some (s', rs', ops) → I s') →
  ∀ sched (s s' : ConnState) respSubs respSubs' ops,
  I s → liveLoop SortRooms sched s respSubs = Some (s', respSubs', ops) → I s'.
Proof.
  intros Hnew Hproc. induction sched as [|a sched IH];
    intros s s' respSubs respSubs' ops Hc H.
  - by injection H as <- _ _.
  - destruct a as [| | |e]; cbn [liveLoop] in H.
    + by injection H as <- _ _.
    + by injection H as <- _ _.
    + destruct (updateEvents s) as [|ev q] eqn:Hq; [by eapply IH|].
      apply bind_Some in H as ([[s1 rs1] ops1] & Hp & H).
      apply (Hproc _ _ _ _ _ _ _ Hc Hq) in Hp.
      destruct ops1; [by injection H as <- _ _|by eapply IH].
    + eapply IH; [|done]. by apply Hnew.
Qed.

Lemma onIncomingRequest_invariant (I : ConnState → Prop) :
  (∀ s m rs, I s → I (setRoomSubscriptions rs (setMuxedReq m s))) →
  (∀ s sortBy, I s → I (sort SortRooms s sortBy)) →
  (∀ s e, I s → I (OnNewEvent s e).1) →
  (∀ s ev q rs s' rs' ops, I s → updateEvents s = ev :: q →
     processEvent SortRooms (setUpdateEvents q s) rs ev = Some (s', rs', ops) → I s') →
  ∀ (s s' : ConnState) (req : Request) sched out,
  I s → onIncomingRequest SortRooms s req sched = Some (s', out) → I s'.
Proof.
  intros Hset Hsort Hnew Hproc s s' req sched out Hc H. unfold onIncomingRequest in H.
  destruct (match muxedReq s with
            | Some m => (Rooms m, Sort m)
            | None => (None, None)
            end) as [prevRange prevSort].
  destruct (match muxedReq s with
            | Some m => RequestApplyDelta m req
            | None => (req, (map_to_list (RoomSubscriptions req)).*1, [])
            end) as [[m newSubs] newUnsubs].
  destruct (updateRoomSubscriptions_closed (setMuxedReq (Some m) s) m newSubs newUnsubs
              eq_refl) as (rs & respSubs & Hupd & _).
  rewrite Hupd in H. cbn [mbind option_bind] in H.
  destruct (match prevRange with
            | Some _ => Delta prevRange (Rooms m)
            | None => (Rooms m, None, None)
            end) as [[added0 removed0] same0].
  pose proof (Hset s (Some m) rs Hc) as Hc2.
  pose proof (Hsort _ (Sort m) Hc2) as Hc3.
  pose proof (liveLoop_invariant I Hnew Hproc) as Hlive'.
  destruct (decide (prevSort ≠ Sort m)).
  - apply bind_Some in H as (ops3 & _ & H).
    apply bind_Some in H as ([[s4 rs4] ops4] & Hlive & H).
    injection H as <- _.
    destruct (_ && _).
    + apply bind_Some in Hlive as ([[s5 rs5] ops5] & Hlive & Heq).
      injection Heq as <- _ _. eapply Hlive'; [|exact Hlive]. exact Hc3.
    + injection Hlive as <- _ _. exact Hc3.
  - apply bind_Some in H as (ops3 & _ & H).
    apply bind_Some in H as ([[s4 rs4] ops4] & Hlive & H).
    injection H as <- _.
    destruct (_ && _).
    + apply bind_Some in Hlive as ([[s5 rs5] ops5] & Hlive & Heq).
      injection Heq as <- _ _. eapply Hlive'; [|exact Hlive]. exact Hc2.
    + injection Hlive as <- _ _. exact Hc2.
Qed.

Lemma processEvent_loadPosition (s0 s' : ConnState) rs rs' ops ev :
  processEvent SortRooms s0 rs ev = Some (s', rs', ops) →
  loadPosition s' = Z.max (loadPosition s0) (ev_latestPos ev) ∧
  updateEvents s' = updateEvents s0.
Proof.
  intros H. apply processEvent_state in H as (m & rooms & _ & -> & _).
  cbn [sort loadPosition updateEvents setPositions setSortedJoinedRooms].
  destruct (decide (loadPosition s0 < ev_latestPos ev)); cbn; split; (lia || done).
Qed.

(** X18.  The load position never goes back during a request: whatever
    events the live loop receives and in whatever order, the position
    after [onIncomingRequest] is at least the position before it. *)
Theorem onIncomingRequest_loadPosition_monotone (s s' : ConnState) (req : Request)
    (sched : list Action) (out : Response * option error) :
  onIncomingRequest SortRooms s req sched = Some (s', out) →
  loadPosition s ≤ loadPosition s'.
Proof.
  intros H.
  apply (onIncomingRequest_invariant (λ c, loadPosition s ≤ loadPosition c))
    with (s := s) (req := req) (sched := sched) (out := out); [done|done|..|lia|done].
  - intros c e Hc. unfold OnNewEvent. by repeat destruct (decide _).
  - intros c ev q rs c' rs' ops Hc _ Hp.
    apply processEvent_loadPosition in Hp as [-> _]. cbn in *. lia.
Qed.

(** X19.  The inbox of a connection never holds more than
    [MaxPendingEventUpdates] events.  [OnNewEvent] keeps the bound, and so
    does a whole request, whatever the pollers deliver while it runs. *)
Theorem updateEvents_bounded (s : ConnState) :
  Z.of_nat (length (updateEvents s)) ≤ MaxPendingEventUpdates →
  (∀ e, Z.of_nat (length (updateEvents (OnNewEvent s e).1)) ≤ MaxPendingEventUpdates) ∧
  (∀ req sched s' out,
     HandleIncomingRequest SortRooms s req sched = Some (s', out) →
     Z.of_nat (length (updateEvents s')) ≤ MaxPendingEventUpdates).
Proof.
  assert (Hnew : ∀ (c : ConnState) e,
             Z.of_nat (length (updateEvents c)) ≤ MaxPendingEventUpdates →
             Z.of_nat (length (updateEvents (OnNewEvent c e).1)) ≤ MaxPendingEventUpdates).
  { intros c e Hc. unfold OnNewEvent. repeat destruct (decide _); cbn; try done.
    rewrite length_app. cbn. lia. }
  intros Hs. split; [intros e; by apply Hnew|].
  intros req sched s' out H. unfold HandleIncomingRequest in H.
  apply (onIncomingRequest_invariant
           (λ c, Z.of_nat (length (updateEvents c)) ≤ MaxPendingEventUpdates))
    in H; [done|done|done|done|..].
  - intros c ev q rs c' rs' ops Hc Hq Hp.
    apply processEvent_loadPosition in Hp as [_ ->]. cbn. rewrite Hq in Hc. cbn in Hc. lia.
  - destruct (decide (loadPosition s = 0)); [|done].
    unfold load. destruct (LoadJoinedRooms (userID s)) as [[pos joined] [err|]]; done.
Qed.

(** X20.  [OnUnreadCountsChanged].  A change that is not a decrease sends
    nothing and leaves the connection as it is.  A decrease is never
    dropped as already loaded, whatever the load position of the
    connection: it is queued at the back of the inbox, with position 0, the
    room's last-message timestamp from the global cache and the user's room
    data, whenever the inbox has room. *)
Theorem OnUnreadCountsChanged_spec (s : ConnState) (userID roomID : string)
    (urd : UserRoomData) (hasCountDecreased : bool) :
  (hasCountDecreased = false →
   OnUnreadCountsChanged s userID roomID urd hasCountDecreased = (s, None)) ∧
  (hasCountDecreased = true →
   (OnUnreadCountsChanged s userID roomID urd hasCountDecreased).2 ≠ Some AlreadyLoaded ∧
   (Z.of_nat (length (updateEvents s)) < MaxPendingEventUpdates →
    OnUnreadCountsChanged s userID roomID urd hasCountDecreased
    = (setUpdateEvents
         (updateEvents s ++
          [ {| ev_event := None; ev_roomID := roomID; ev_latestPos := 0;
               ev_timestamp := meta_LastMessageTimestamp (LoadRoom roomID);
               ev_userRoomData := Some urd |} ]) s,
       Some Sent)) ∧
   (MaxPendingEventUpdates ≤ Z.of_nat (length (updateEvents s)) →
    OnUnreadCountsChanged s userID roomID urd hasCountDecreased
    = (s, Some BufferExceeded))).
Proof.
  split; intros ->; [done|]. unfold OnUnreadCountsChanged, OnNewEvent. cbn [negb ev_latestPos].
  destruct (decide (0 ≠ 0 ∧ 0 < loadPosition s)) as [[? _]|_]; [done|].
  destruct (decide (Z.of_nat (length (updateEvents s)) < MaxPendingEventUpdates)).
  - split_and!; [done|done|lia].
  - split_and!; [done|lia|done].
Qed.

(** X21.  The first request of a connection (no muxed request yet) returns
    under every schedule without entering the live loop: the request
    becomes the muxed request, the list is sorted when the request names a
    sort order, the response counts the rooms and carries exactly one
    [SYNC] per requested range, in order, with the rooms of that window,
    and a payload for exactly the rooms of the request's subscriptions; no
    event is taken from the inbox. *)
Theorem onIncomingRequest_first_request (s : ConnState) (req : Request)
    (sched : list Action) :
  muxedReq s = None →
  ∃ s' resp,
    onIncomingRequest SortRooms s req sched = Some (s', (resp, None)) ∧
    muxedReq s' = Some req ∧
    sortedJoinedRooms s'
    = (if decide (Sort req = None) then sortedJoinedRooms s
       else SortRooms (Sort req) (sortedJoinedRooms s)) ∧
    updateEvents s' = updateEvents s ∧
    loadPosition s' = loadPosition s ∧
    resp_Count resp = Z.of_nat (length (sortedJoinedRooms s)) ∧
    Forall2 (λ r op, ∃ data,
               op = ResponseOpRange "SYNC" r data ∧
               room_RoomID <$> data = roomID_of <$> windowSlice r (sortedJoinedRooms s'))
            (elems (Rooms req)) (resp_Ops resp) ∧
    (∀ id, is_Some (resp_RoomSubscriptions resp !! id)
           ↔ is_Some (RoomSubscriptions req !! id)) ∧
    (∀ id, roomSubscriptions s' !! id
           = match RoomSubscriptions req !! id with
             | Some sub => Some sub
             | None => roomSubscriptions s !! id
             end).
Proof.
  intros Hmux. unfold onIncomingRequest. rewrite Hmux.
  set (newSubs := (map_to_list (RoomSubscriptions req)).*1).
  assert (Hin : ∀ id, id ∈ newSubs ↔ is_Some (RoomSubscriptions req !! id)).
  { intros id. subst newSubs. rewrite list_elem_of_fmap. split.
    - intros ([k v] & -> & Hkv). apply elem_of_map_to_list in Hkv. by eexists.
    - intros [v Hv]. exists (id, v). split; [done|]. by apply elem_of_map_to_list. }
  destruct (updateRoomSubscriptions_closed (setMuxedReq (Some req) s) req newSubs []
              eq_refl) as (rs & respSubs & Hupd & Hrs & Hres).
  rewrite Hupd. cbn [mbind option_bind].
  set (s2 := setRoomSubscriptions rs (setMuxedReq (Some req) s)).
  assert (Hsubs : ∀ id, is_Some (respSubs !! id) ↔ is_Some (RoomSubscriptions req !! id)).
  { intros id. rewrite Hres. destruct (decide (id ∈ newSubs)) as [Hid|Hid].
    - apply Hin in Hid as Hsome. destruct Hsome as [sub Hsub]. rewrite Hsub.
      destruct (getInitialRoomData_one (setMuxedReq (Some req) s) req id eq_refl)
        as (room & -> & _). cbn. split; by eexists.
    - split; [by intros []%is_Some_None|]. intros Hsome. by apply Hin in Hsome. }
  assert (Hrs' : ∀ id, rs !! id
                       = match RoomSubscriptions req !! id with
                         | Some sub => Some sub
                         | None => roomSubscriptions s !! id
                         end).
  { intros id. rewrite Hrs. destruct (decide (id ∈ [])) as [Hnil|_];
      [by apply elem_of_nil in Hnil|].
    destruct (decide (id ∈ newSubs)) as [Hid|Hid]; [done|].
    destruct (RoomSubscriptions req !! id) eqn:Hsub; [|done].
    destruct Hid. apply Hin. by eexists. }
  match goal with
  | |- context [if ?d then (sort _ _ _, _, _, _, _) else _] => destruct d as [Hsort|Hsort]
  end.
  - destruct (syncOps_spec (sort SortRooms s2 (Sort req)) req (elems (Rooms req))
                eq_refl ([] ++ (invalidateOp <$> elems None)))
      as (syncs & Hsync & Hall).
    rewrite Hsync. cbn [mbind option_bind bool_decide andb].
    assert (Hnone : bool_decide (is_Some (@None (list Range))) = false).
    { apply bool_decide_eq_false_2. by intros []%is_Some_None. }
    rewrite Hnone. cbn [andb mbind option_bind].
    eexists _, _. split; [reflexivity|].
    cbn [resp_Count resp_Ops resp_RoomSubscriptions].
    split_and!; try done.
    + cbn. destruct (decide (Sort req = None)); [congruence|done].
    + cbn [app fmap list_fmap elems]. eapply Forall2_impl; [exact Hall|].
      intros r op (data & -> & _ & Hids). by exists data.
  - assert (Hs : Sort req = None).
    { destruct (Sort req); [|done]. by destruct Hsort. }
    destruct (syncOps_spec s2 req (elems (Rooms req))
                eq_refl ([] ++ (invalidateOp <$> elems None)))
      as (syncs & Hsync & Hall).
    rewrite Hsync. cbn [mbind option_bind bool_decide andb].
    assert (Hnone : bool_decide (is_Some (@None (list Range))) = false).
    { apply bool_decide_eq_false_2. by intros []%is_Some_None. }
    rewrite Hnone. cbn [andb mbind option_bind].
    eexists _, _. split; [reflexivity|].
    cbn [resp_Count resp_Ops resp_RoomSubscriptions].
    split_and!; try done.
    + cbn. destruct (decide (Sort req = None)); [done|congruence].
    + cbn [app fmap list_fmap elems]. eapply Forall2_impl; [exact Hall|].
      intros r op (data & -> & _ & Hids). by exists data.
Qed.

End ConnRequests.

(** X17, witness: a new connection of the seven-room example loads at
    position 7 with the seven rooms and an exact index. *)
Lemma load_spec_witness :
  (Conn.load recencySortRooms (Conn.NewConnState (H:=sevenRoomsPackage) "@alice:localhost") windowRequest).2 = None ∧
  Conn.loadPosition
    (Conn.load recencySortRooms (Conn.NewConnState (H:=sevenRoomsPackage) "@alice:localhost") windowRequest).1 = 7 ∧
  Conn.roomID_of <$>
    Conn.sortedJoinedRooms
      (Conn.load recencySortRooms (Conn.NewConnState (H:=sevenRoomsPackage) "@alice:localhost") windowRequest).1
  ≡ₚ ["!a"; "!b"; "!c"; "!d"; "!e"; "!f"; "!g"] ∧
  IndexConsistent
    (Conn.load recencySortRooms (Conn.NewConnState (H:=sevenRoomsPackage) "@alice:localhost") windowRequest).1.
Proof.
  assert (Hnd : NoDup (Conn.meta_RoomID <$>
                         [exampleRoom "!a" 50; exampleRoom "!b" 40; exampleRoom "!c" 30;
                          exampleRoom "!d" 20; exampleRoom "!e" 10; exampleRoom "!f" 5;
                          exampleRoom "!g" 1])).
  { apply (bool_decide_unpack _). vm_compute. exact I. }
  exact (load_spec (P:=sevenRoomsPackage) recencySortRooms
           (Conn.NewConnState "@alice:localhost") windowRequest 7 _ None
           recencySortRooms_keeps eq_refl Hnd eq_refl).
Defined.

(** X18, witness: an event at position 9 for an unknown room, received
    during an empty request, moves the load position from 0 up. *)
Lemma onIncomingRequest_loadPosition_monotone_witness :
  (λ r, Conn.loadPosition r.1)
    <$> Conn.onIncomingRequest recencySortRooms windowConn emptyDeltaRequest
          [Conn.Produce (exampleEvent "!z" 9); Conn.Recv] = Some 9 ∧
  ∃ s' out,
    Conn.onIncomingRequest recencySortRooms windowConn emptyDeltaRequest
      [Conn.Produce (exampleEvent "!z" 9); Conn.Recv] = Some (s', out) ∧
    Conn.loadPosition windowConn ≤ Conn.loadPosition s'.
Proof.
  split; [vm_compute; reflexivity|].
  assert (Hsome : is_Some (Conn.onIncomingRequest recencySortRooms windowConn
                             emptyDeltaRequest
                             [Conn.Produce (exampleEvent "!z" 9); Conn.Recv])).
  { apply (bool_decide_unpack _). vm_compute. exact I. }
  destruct Hsome as [[s' out] H]. exists s', out. split; [exact H|].
  exact (onIncomingRequest_loadPosition_monotone recencySortRooms windowConn s'
           emptyDeltaRequest _ out H).
Defined.

(** X19, witness: the connection with a full inbox stays within the bound
    when one more event is delivered. *)
Lemma updateEvents_bounded_witness :
  Z.of_nat (length (Conn.updateEvents
                      (Conn.OnNewEvent (H:=examplePackage) fullConn (exampleEvent "!a" 6)).1))
  ≤ Conn.MaxPendingEventUpdates.
Proof.
  assert (Hfull : Z.of_nat (length (Conn.updateEvents (@fullConn examplePackage)))
                  ≤ Conn.MaxPendingEventUpdates).
  { vm_compute. discriminate. }
  exact (proj1 (updateEvents_bounded (P:=examplePackage) exampleSortRooms fullConn Hfull)
           (exampleEvent "!a" 6)).
Defined.

(** X21, witness: the first request of a new connection of the example. *)
Lemma onIncomingRequest_first_request_witness :
  ∃ s' resp,
    Conn.onIncomingRequest (H:=examplePackage) exampleSortRooms
      (Conn.NewConnState "@alice:localhost") exampleRequest [Conn.Recv]
    = Some (s', (resp, None)) ∧
    Conn.muxedReq s' = Some exampleRequest ∧
    Conn.resp_Count resp = 0 ∧
    (∀ id, is_Some (Conn.resp_RoomSubscriptions resp !! id)
           ↔ is_Some (Conn.RoomSubscriptions exampleRequest !! id)).
Proof.
  destruct (onIncomingRequest_first_request (P:=examplePackage) exampleSortRooms
              (Conn.NewConnState "@alice:localhost") exampleRequest [Conn.Recv] eq_refl)
    as (s' & resp & Hres & Hmux & _ & _ & _ & Hcount & _ & Hsubs & _).
  exists s', resp. split_and!; [exact Hres|exact Hmux|exact Hcount|exact Hsubs].
Defined.

Section ConnHandle.

Import Conn.

Context `{P : Package}.
Context (SortRooms : slice string → list RoomConnMetadata → list RoomConnMetadata).

(** X22.  [HandleIncomingRequest] keeps the reverse index exact on a
    connection that has its rooms only once it has a load position: when
    the global cache lists every joined room once, a request that returns
    leaves the index exact, whether it first loads the rooms, fails to
    load them, or finds them loaded. *)
Theorem HandleIncomingRequest_index_consistent (s s' : ConnState) (req : Request)
    (sched : list Action) (out : Response * option error) :
  KeepsRooms SortRooms →
  NoDup (meta_RoomID <$> (LoadJoinedRooms (userID s)).1.2) →
  IndexConsistent s →
  (loadPosition s = 0 → sortedJoinedRooms s = []) →
  HandleIncomingRequest SortRooms s req sched = Some (s', out) →
  IndexConsistent s'.
Proof.
  intros Hk Hnd Hc Hfresh H. unfold HandleIncomingRequest in H.
  eapply onIncomingRequest_consistent; [exact Hk| |exact H].
  destruct (decide (loadPosition s = 0)) as [Hz|]; [|done].
  destruct (LoadJoinedRooms (userID s)) as [[pos joined] err] eqn:Hjoined.
  assert (Hempty : sortedJoinedRoomsPositions s = ∅).
  { apply map_empty. intros id. apply eq_None_not_Some. intros [i Hi].
    apply Hc in Hi as (r & Hr & _). rewrite (Hfresh Hz) in Hr.
    unfold index in Hr. destruct (decide _); [|done]. by rewrite lookup_nil in Hr. }
  pose proof (load_consistent SortRooms s req pos joined err Hk Hjoined Hnd Hempty) as Hload.
  destruct err as [e|].
  - by rewrite Hload.
  - by destruct Hload as (_ & _ & _ & ?).
Qed.

End ConnHandle.

(** X22, witness: the first request of the seven-room example loads the
    rooms and leaves an exact index. *)
Lemma HandleIncomingRequest_index_consistent_witness :
  ∃ s' out,
    Conn.HandleIncomingRequest recencySortRooms
      (Conn.NewConnState (H:=sevenRoomsPackage) "@alice:localhost") windowRequest []
    = Some (s', out) ∧
    IndexConsistent s'.
Proof.
  assert (Hsome : is_Some (Conn.HandleIncomingRequest recencySortRooms
                             (Conn.NewConnState (H:=sevenRoomsPackage) "@alice:localhost")
                             windowRequest [])).
  { apply (bool_decide_unpack _). vm_compute. exact I. }
  assert (Hnd : NoDup (Conn.meta_RoomID <$>
                         (Conn.LoadJoinedRooms (Package:=sevenRoomsPackage)
                            "@alice:localhost").1.2)).
  { apply (bool_decide_unpack _). vm_compute. exact I. }
  destruct Hsome as [[s' out] H]. exists s', out. split; [exact H|].
  exact (HandleIncomingRequest_index_consistent recencySortRooms
           (Conn.NewConnState "@alice:localhost") s' windowRequest [] out
           recencySortRooms_keeps Hnd (NewConnState_consistent "@alice:localhost")
           (λ _, eq_refl) H).
Defined.

(** * The typing filter and the op replay tool *)

(** X23.  [FilterTyping.Combine] lets the later filter win when it names
    a room: the result names [other]'s room when that is set and [f]'s
    otherwise.  Combining is therefore associative, and the empty filter
    is neutral on both sides. *)
Theorem FilterTyping_Combine_algebra (f g h : FilterTyping) :
  ft_RoomID (FilterTyping_Combine f g)
  = (if decide (ft_RoomID g = "") then ft_RoomID f else ft_RoomID g) ∧
  FilterTyping_Combine (FilterTyping_Combine f g) h
  = FilterTyping_Combine f (FilterTyping_Combine g h) ∧
  FilterTyping_Combine f (mkFilterTyping "") = f ∧
  FilterTyping_Combine (mkFilterTyping "") f = f.
Proof.
  destruct f as [f], g as [g], h as [h]. unfold FilterTyping_Combine. cbn.
  destruct (decide (f = "")) as [->|Hf], (decide (g = "")) as [->|Hg],
    (decide (h = "")) as [->|Hh];
    split_and!; repeat (destruct (decide _); cbn in * ); try done;
    exfalso; tauto.
Qed.

Section ReplayProperties.

Import Replay.

Lemma setAt_Some {A} (l : list A) (i : nat) (v : A) :
  (i < length l)%nat → setAt l (Z.of_nat i) v = Some (<[i := v]> l).
Proof.
  intros Hi. unfold setAt. rewrite decide_True by lia. by rewrite Nat2Z.id.
Qed.

Lemma index_nat {A} (l : list A) (i : nat) : Conn.index l (Z.of_nat i) = l !! i.
Proof. unfold Conn.index. rewrite decide_True by lia. by rewrite Nat2Z.id. Qed.

(** The left-shifting loop, by what it leaves at every index. *)
Lemma shiftLeft_lookup (rooms : list string) (d n : nat) :
  (d + n < length rooms)%nat →
  ∃ res,
    foldl (shiftStep 1) (Some rooms) (seqZ (Z.of_nat d) (Z.of_nat n)) = Some res ∧
    length res = length rooms ∧
    ∀ k, res !! k = if decide (d ≤ k < d + n)%nat then rooms !! S k else rooms !! k.
Proof.
  induction n as [|n IH]; intros Hlen.
  - exists rooms. split_and!; [done|done|]. intros k. destruct (decide _); [lia|done].
  - destruct IH as (res & Hfold & Hl & Hres); [lia|].
    rewrite seqZ_S. rewrite foldl_app, Hfold. cbn [foldl].
    unfold shiftStep at 1. cbn [mbind option_bind].
    replace (Z.of_nat d + Z.of_nat n + 1) with (Z.of_nat (S (d + n))) by lia.
    rewrite index_nat, Hres. destruct (decide (d ≤ S (d + n) < d + n)%nat); [lia|].
    destruct (lookup_lt_is_Some_2 rooms (S (d + n))) as [v Hv]; [lia|].
    rewrite Hv. cbn [mbind option_bind].
    replace (Z.of_nat d + Z.of_nat n) with (Z.of_nat (d + n)) by lia.
    rewrite setAt_Some by lia.
    eexists. split_and!; [done|by rewrite length_insert|].
    intros k. destruct (decide (k = d + n)%nat) as [->|Hk].
    + rewrite list_lookup_insert_eq by lia. rewrite decide_True by lia. done.
    + rewrite list_lookup_insert_ne by lia. rewrite Hres.
      repeat destruct (decide _); (done || lia).
Qed.

(** The right-shifting loop. *)
Lemma shiftRight_lookup (n : nat) :
  ∀ (rooms : list string) (idx : nat),
  (idx + n < length rooms)%nat →
  ∃ res,
    foldl (shiftStep (-1)) (Some rooms)
          (reverse (seqZ (Z.of_nat idx + 1) (Z.of_nat n))) = Some res ∧
    length res = length rooms ∧
    ∀ k, res !! k = if decide (idx < k ≤ idx + n)%nat then rooms !! pred k else rooms !! k.
Proof.
  induction n as [|n IH]; intros rooms idx Hlen.
  - exists rooms. split_and!; [done|done|]. intros k. destruct (decide _); [lia|done].
  - rewrite seqZ_S. rewrite reverse_app, reverse_singleton. cbn [app foldl].
    unfold shiftStep at 2. cbn [mbind option_bind].
    replace (Z.of_nat idx + 1 + Z.of_nat n + -1) with (Z.of_nat (idx + n)) by lia.
    rewrite index_nat.
    destruct (lookup_lt_is_Some_2 rooms (idx + n)) as [v Hv]; [lia|].
    rewrite Hv. cbn [mbind option_bind].
    replace (Z.of_nat idx + 1 + Z.of_nat n) with (Z.of_nat (S (idx + n))) by lia.
    rewrite setAt_Some by lia.
    destruct (IH (<[S (idx + n) := v]> rooms) idx) as (res & Hfold & Hl & Hres).
    { rewrite length_insert. lia. }
    exists res. split_and!; [done|by rewrite Hl, length_insert|].
    intros k. rewrite Hres.
    destruct (decide (idx < k ≤ idx + n)%nat).
    + rewrite list_lookup_insert_ne by lia. rewrite decide_True by lia. done.
    + destruct (decide (k = S (idx + n))) as [->|Hk].
      * rewrite list_lookup_insert_eq by lia. rewrite decide_True by lia. by rewrite <- Hv.
      * rewrite list_lookup_insert_ne by lia. by rewrite decide_False by lia.
Qed.

Lemma movedRooms_lookup (rooms : list string) (d idx : nat) (r : string) (k : nat) :
  (d < length rooms)%nat → (idx < length rooms)%nat →
  movedRooms rooms d idx r !! k
  = if decide (k = idx) then Some r
    else if decide (k < idx)%nat
         then (if decide (k < d)%nat then rooms !! k else rooms !! S k)
         else (if decide (k ≤ d)%nat then rooms !! pred k else rooms !! k).
Proof.
  intros Hd Hidx. unfold movedRooms.
  assert (Hdel : length (delete d rooms) = pred (length rooms)).
  { rewrite length_delete; [lia|]. by apply lookup_lt_is_Some_2. }
  assert (Htake : length (take idx (delete d rooms)) = idx).
  { rewrite length_take. lia. }
  destruct (decide (k = idx)) as [->|Hk].
  - rewrite lookup_app_r by lia. by rewrite Htake, Nat.sub_diag.
  - destruct (decide (k < idx)%nat).
    + rewrite lookup_app_l by lia. rewrite lookup_take_lt by lia.
      destruct (decide (k < d)%nat).
      * by rewrite list_lookup_delete_lt.
      * by rewrite list_lookup_delete_ge by lia.
    + rewrite lookup_app_r by lia. rewrite Htake.
      rewrite lookup_cons_ne_0 by lia. rewrite lookup_drop.
      replace (idx + pred (k - idx))%nat with (pred k) by lia.
      destruct (decide (k ≤ d)%nat).
      * by rewrite list_lookup_delete_lt by lia.
      * rewrite list_lookup_delete_ge by lia. f_equal. lia.
Qed.

Lemma movedRooms_length (rooms : list string) (d idx : nat) (r : string) :
  (d < length rooms)%nat → (idx < length rooms)%nat →
  length (movedRooms rooms d idx r) = length rooms.
Proof.
  intros Hd Hidx. unfold movedRooms. rewrite length_app. cbn [length].
  rewrite length_take, length_drop, length_delete by (by apply lookup_lt_is_Some_2). lia.
Qed.

(** [Insert] into an occupied slot with the single free slot [d]. *)
Lemma Insert_shift (l : List) (d idx : nat) (roomID occupant : string) :
  rooms l !! idx = Some occupant → occupant ≠ DELETED →
  deletedIndexes l = {[Z.of_nat d]} → (d < length (rooms l))%nat →
  Insert l (Z.of_nat idx) roomID
  = Done {| id := id l; rooms := movedRooms (rooms l) d idx roomID;
            deletedIndexes := ∅;
            history := history l ++ [insertEntry l (Z.of_nat idx) roomID] |}.
Proof.
  intros Hocc Hne Hdel Hd. pose proof (lookup_lt_Some _ _ _ Hocc) as Hidx.
  unfold Insert. rewrite decide_False by lia. rewrite index_nat, Hocc.
  rewrite decide_True by done. rewrite Hdel, size_singleton.
  rewrite decide_False by (intros Hn; by apply Hn).
  rewrite elements_singleton. cbn [foldl].
  assert (Hempty : ({[Z.of_nat d]} : gset Z) ∖ {[Z.of_nat d]} = ∅) 
    by apply difference_diag_L.
  rewrite Hempty.
  assert (Hfin : ∀ res : list string,
             length res = length (rooms l) →
             (∀ k, k ≠ idx → res !! k = movedRooms (rooms l) d idx roomID !! k) →
             <[idx := roomID]> res = movedRooms (rooms l) d idx roomID).
  { intros res Hl Hres. apply list_eq. intros k.
    destruct (decide (k = idx)) as [->|Hk].
    - rewrite list_lookup_insert_eq by lia.
      rewrite movedRooms_lookup by done. by rewrite decide_True.
    - rewrite list_lookup_insert_ne by done. by apply Hres. }
  destruct (decide (Z.of_nat d < Z.of_nat idx)) as [Hlt|Hge].
  - unfold shiftLeft.
    replace (Z.of_nat idx - Z.of_nat d) with (Z.of_nat (idx - d)) by lia.
    destruct (shiftLeft_lookup (rooms l) d (idx - d)) as (res & -> & Hl & Hres); [lia|].
    rewrite setAt_Some by lia. do 2 f_equal. apply Hfin; [done|].
    intros k Hk. rewrite Hres, movedRooms_lookup by done.
    repeat destruct (decide _); (done || lia).
  - destruct (decide (Z.of_nat idx < Z.of_nat d)) as [Hgt|Heq].
    + unfold shiftRight.
      replace (Z.of_nat d - Z.of_nat idx) with (Z.of_nat (d - idx)) by lia.
      destruct (shiftRight_lookup (d - idx) (rooms l) idx) as (res & -> & Hl & Hres); [lia|].
      rewrite setAt_Some by lia. do 2 f_equal. apply Hfin; [done|].
      intros k Hk. rewrite Hres, movedRooms_lookup by done.
      repeat destruct (decide _); (done || lia).
    + rewrite setAt_Some by lia. do 2 f_equal. apply Hfin; [done|].
      intros k Hk. rewrite movedRooms_lookup by done.
      repeat destruct (decide _); (done || lia).
Qed.

(** X24.  [Insert] at an index of the list.  Into a slot marked
    [DELETED] the room is written in place, and the record of free slots
    is left as it is.  Into an occupied slot, with exactly one free slot
    [d] recorded, the rooms between are shifted by one towards [d], the
    room is written at the index and no free slot remains: the result is
    the list with the entry at [d] taken out and the room put in at the
    index.  Into an occupied slot with any other number of free slots the
    process is ended. *)
Theorem Insert_spec (l : List) (idx : nat) (roomID occupant : string) :
  rooms l !! idx = Some occupant →
  (occupant = DELETED →
   Insert l (Z.of_nat idx) roomID
   = Done {| id := id l; rooms := <[idx := roomID]> (rooms l);
             deletedIndexes := deletedIndexes l;
             history := history l ++ [insertEntry l (Z.of_nat idx) roomID] |}) ∧
  (occupant ≠ DELETED →
   ∀ d : nat, deletedIndexes l = {[Z.of_nat d]} → (d < length (rooms l))%nat →
   Insert l (Z.of_nat idx) roomID
   = Done {| id := id l; rooms := movedRooms (rooms l) d idx roomID;
             deletedIndexes := ∅;
             history := history l ++ [insertEntry l (Z.of_nat idx) roomID] |}) ∧
  (occupant ≠ DELETED → size (deletedIndexes l) ≠ 1%nat →
   ∃ msg, Insert l (Z.of_nat idx) roomID = Fatal msg).
Proof.
  intros Hocc. pose proof (lookup_lt_Some _ _ _ Hocc) as Hidx. split_and!.
  - intros ->. unfold Insert. rewrite decide_False by lia. rewrite index_nat, Hocc.
    rewrite decide_False by (intros Hn; by apply Hn).
    by rewrite setAt_Some by lia.
  - intros Hne d Hdel Hd. by eapply Insert_shift.
  - intros Hne Hsize. unfold Insert. rewrite decide_False by lia.
    rewrite index_nat, Hocc. rewrite decide_True by done. rewrite decide_True by done.
    by eexists.
Qed.

Lemma delete_insert_same {A} (l : list A) (i : nat) (x : A) :
  delete i (<[i := x]> l) = delete i l.
Proof. revert i. induction l as [|a l IH]; intros [|i]; cbn; [done..|]. by rewrite IH. Qed.

(** The set of [DuplicateCheck] records the rooms seen so far. *)
Lemma duplicateLoop_spec (rest : list string) :
  ∀ (seen : list string) (set : gmap string Z),
  NoDup seen →
  (∀ r j, set !! r = Some j ↔ 0 ≤ j ∧ seen !! Z.to_nat j = Some r) →
  match duplicateLoop set (Z.of_nat (length seen)) rest with
  | None => NoDup (seen ++ rest)
  | Some (room, i, j) =>
    0 ≤ j < i ∧ (seen ++ rest) !! Z.to_nat j = Some room ∧
    (seen ++ rest) !! Z.to_nat i = Some room ∧
    NoDup (take (Z.to_nat i) (seen ++ rest))
  end.
Proof.
  induction rest as [|r rest IH]; intros seen set Hnd Hset.
  - cbn. by rewrite app_nil_r.
  - cbn [duplicateLoop]. destruct (set !! r) as [j|] eqn:Hr.
    + apply Hset in Hr as [Hj Hr]. pose proof (lookup_lt_Some _ _ _ Hr) as Hlt.
      rewrite Nat2Z.id. split_and!; [lia|lia| | |].
      * by rewrite lookup_app_l.
      * rewrite lookup_app_r by lia. by rewrite Nat.sub_diag.
      * by rewrite take_app_length.
    + assert (Hnot : r ∉ seen).
      { intros [j Hj]%list_elem_of_lookup.
        assert (set !! r = Some (Z.of_nat j)) as Hs.
        { apply Hset. split; [lia|]. by rewrite Nat2Z.id. }
        by rewrite Hr in Hs. }
      specialize (IH (seen ++ [r]) (<[r := Z.of_nat (length seen)]> set)).
      rewrite length_app in IH. cbn [length] in IH.
      replace (Z.of_nat (length seen + 1)) with (Z.of_nat (length seen) + 1) in IH by lia.
      rewrite <- app_assoc in IH. cbn [app] in IH. apply IH.
      * apply NoDup_app. split_and!; [done| |apply NoDup_singleton].
        intros x Hx ->%list_elem_of_singleton. done.
      * intros r' j. destruct (decide (r' = r)) as [->|Hne].
        -- rewrite lookup_insert_eq. split.
           ++ intros [= <-]. split; [lia|]. rewrite Nat2Z.id.
              rewrite lookup_app_r by lia. by rewrite Nat.sub_diag.
           ++ intros [Hj Hl]. apply lookup_app_Some in Hl as [Hl|[Hge Hl]].
              ** destruct Hnot. by eapply list_elem_of_lookup_2.
              ** apply list_lookup_singleton_Some in Hl as [Hz _]. f_equal. lia.
        -- rewrite lookup_insert_ne by done. rewrite Hset. split.
           ++ intros [Hj Hl]. split; [done|]. apply lookup_app_Some. by left.
           ++ intros [Hj Hl]. split; [done|].
              apply lookup_app_Some in Hl as [Hl|[Hge Hl]]; [done|].
              apply list_lookup_singleton_Some in Hl as [_ ?]. congruence.
Qed.

Lemma DuplicateCheck_NoDup (l : List) : DuplicateCheck l = None ↔ NoDup (rooms l).
Proof.
  unfold DuplicateCheck.
  assert (Hset : ∀ (r : string) (j : Z),
             (∅ : gmap string Z) !! r = Some j ↔ 0 ≤ j ∧ [] !! Z.to_nat j = Some r).
  { intros r j. rewrite lookup_empty, lookup_nil. split; [done|by intros [_ ?]]. }
  pose proof (duplicateLoop_spec (rooms l) [] ∅ (NoDup_nil_2) Hset) as H.
  change (Z.of_nat (length [])) with 0 in H. cbn [app] in H.
  destruct (duplicateLoop ∅ 0 (rooms l)) as [[[room i] j]|] eqn:Hloop.
  - cbn. split; [done|]. intros Hnd.
    destruct H as (Hji & Hj & Hi & _).
    pose proof (NoDup_lookup _ _ _ _ Hnd Hj Hi). lia.
  - cbn. split; [|done]. intros _. apply H.
Qed.

(** X25.  [DuplicateCheck] returns nil exactly when no room occurs twice
    in the list (two slots marked [DELETED] count as a duplicate).  The
    room it reports otherwise is the first one that repeats an earlier
    entry: it stands at both reported indexes, the second reported index
    is the earlier one, and no room occurs twice before the first. *)
Theorem DuplicateCheck_spec (l : List) :
  (DuplicateCheck l = None ↔ NoDup (rooms l)) ∧
  (∀ room i j, duplicateLoop ∅ 0 (rooms l) = Some (room, i, j) →
     0 ≤ j < i ∧ rooms l !! Z.to_nat j = Some room ∧ rooms l !! Z.to_nat i = Some room ∧
     NoDup (take (Z.to_nat i) (rooms l)) ∧
     DuplicateCheck l
     = Some ("list " +:+ id l +:+ ": room " +:+ room +:+ " exists at both i=" +:+ pretty i
             +:+ " and i=" +:+ pretty j)).
Proof.
  split; [apply DuplicateCheck_NoDup|]. intros room i j Hloop.
  assert (Hset : ∀ (r : string) (j : Z),
             (∅ : gmap string Z) !! r = Some j ↔ 0 ≤ j ∧ [] !! Z.to_nat j = Some r).
  { intros r j'. rewrite lookup_empty, lookup_nil. split; [done|by intros [_ ?]]. }
  pose proof (duplicateLoop_spec (rooms l) [] ∅ (NoDup_nil_2) Hset) as H.
  change (Z.of_nat (length [])) with 0 in H. cbn [app] in H. rewrite Hloop in H.
  destruct H as (Hji & Hj & Hi & Hnd).
  split_and!; try done; try lia. unfold DuplicateCheck. by rewrite Hloop.
Qed.

(** X26.  A [DELETE] followed by an [INSERT] replays a move.  On a list
    without free slots and without a slot marked [DELETED], for indexes
    [from] and [to] of the list, [Delete from] then [Insert to roomID]
    both return, and the rooms are the old ones with the entry at [from]
    taken out and [roomID] put in at [to]; both ops are appended to the
    history.  No free slot remains, except when [from] and [to] are equal:
    then the slot stays recorded as free although it is occupied.  When
    the old list has no duplicate and [roomID] is none of the rooms that
    stay, [DuplicateCheck] passes afterwards. *)
Theorem Delete_Insert_move (l : List) (from to : nat) (roomID : string) :
  deletedIndexes l = ∅ → DELETED ∉ rooms l →
  (from < length (rooms l))%nat → (to < length (rooms l))%nat →
  ∃ l1 l2,
    Delete l (Z.of_nat from) = Done l1 ∧
    Insert l1 (Z.of_nat to) roomID = Done l2 ∧
    rooms l2 = movedRooms (rooms l) from to roomID ∧
    deletedIndexes l2 = (if decide (from = to) then {[Z.of_nat from]} else ∅) ∧
    history l2 = history l ++ [deleteEntry l (Z.of_nat from);
                               insertEntry l (Z.of_nat to) roomID] ∧
    (NoDup (rooms l) → roomID ∉ delete from (rooms l) → DuplicateCheck l2 = None).
Proof.
  intros Hfree Hnodel Hfrom Hto.
  assert (Hmoved : NoDup (rooms l) → roomID ∉ delete from (rooms l) →
                   NoDup (movedRooms (rooms l) from to roomID)).
  { intros Hnd Hnot. unfold movedRooms.
    assert (Hnd' : NoDup (delete from (rooms l))).
    { eapply sublist_NoDup; [exact Hnd|apply sublist_delete]. }
    rewrite <- (take_drop to (delete from (rooms l))) in Hnd', Hnot.
    apply NoDup_app in Hnd' as (Ht & Hdisj & Hdr).
    apply NoDup_app. split_and!; [done| |].
    - intros x Hx [->|Hin]%elem_of_cons; [|by eapply Hdisj].
      apply Hnot, elem_of_app. by left.
    - constructor; [|done]. intros Hin. apply Hnot, elem_of_app. by right. }
  unfold Delete. rewrite decide_False by lia. rewrite setAt_Some by lia.
  exists {| id := id l; rooms := <[from := DELETED]> (rooms l);
            deletedIndexes := {[Z.of_nat from]} ∪ deletedIndexes l;
            history := history l ++ [deleteEntry l (Z.of_nat from)] |}.
  destruct (decide (from = to)) as [<-|Hne].
  - eexists. split; [reflexivity|].
    unfold Insert. cbn [rooms]. rewrite length_insert.
    rewrite decide_False by lia. rewrite index_nat.
    rewrite list_lookup_insert_eq by lia.
    rewrite decide_False by (intros Hn; by apply Hn).
    rewrite setAt_Some by (rewrite length_insert; lia).
    rewrite list_insert_insert_eq.
    assert (Heq : <[from := roomID]> (rooms l) = movedRooms (rooms l) from from roomID).
    { apply list_eq. intros k. rewrite movedRooms_lookup by done.
      destruct (decide (k = from)) as [->|Hk].
      - by rewrite list_lookup_insert_eq by lia.
      - rewrite list_lookup_insert_ne by done.
        repeat destruct (decide _); (done || lia). }
    split; [reflexivity|]. cbn [rooms deletedIndexes history id].
    split_and!; [done|by rewrite Hfree, (right_id_L ∅ (∪))|by rewrite <- app_assoc|].
    intros Hnd Hnot. apply DuplicateCheck_NoDup. cbn [rooms]. rewrite Heq.
    by apply Hmoved.
  - destruct (lookup_lt_is_Some_2 (rooms l) to) as [occupant Hocc]; [lia|].
    eexists. split; [reflexivity|].
    erewrite (Insert_shift _ from to roomID occupant); cbn [rooms deletedIndexes].
    + split; [reflexivity|]. cbn [rooms deletedIndexes history id].
      unfold movedRooms. rewrite delete_insert_same.
      split_and!; [done|done|by rewrite <- app_assoc|].
      intros Hnd Hnot. apply DuplicateCheck_NoDup. cbn [rooms].
      by apply Hmoved.
    + by rewrite list_lookup_insert_ne.
    + intros ->. apply Hnodel. by eapply list_elem_of_lookup_2.
    + by rewrite Hfree, (right_id_L ∅ (∪)).
    + by rewrite length_insert.
Qed.

End ReplayProperties.

(** X24, witness: with slot 1 free, inserting at the occupied index 3
    shifts [!c] and [!d] to the left. *)
Lemma Insert_spec_witness :
  ∃ l', Replay.Insert replayDeleted 3 "!x" = Replay.Done l' ∧
        Replay.rooms l' = ["!a"; "!c"; "!d"; "!x"] ∧
        Replay.deletedIndexes l' = ∅.
Proof.
  destruct (Insert_spec replayDeleted 3 "!x" "!d" eq_refl) as (_ & Hshift & _).
  assert (Hfree : Replay.deletedIndexes replayDeleted = {[Z.of_nat 1]})
    by apply (right_id_L ∅ (∪)).
  assert (Hlen : (1 < length (Replay.rooms replayDeleted))%nat) by (vm_compute; lia).
  pose proof (Hshift ltac:(discriminate) 1%nat Hfree Hlen) as Hins.
  eexists. split; [exact Hins|]. split; reflexivity.
Defined.

(** X26, witness: moving [!b] from index 1 to index 3 of the example
    list. *)
Lemma Delete_Insert_move_witness :
  ∃ l1 l2,
    Replay.Delete replayList 1 = Replay.Done l1 ∧
    Replay.Insert l1 3 "!b" = Replay.Done l2 ∧
    Replay.rooms l2 = ["!a"; "!c"; "!d"; "!b"] ∧
    Replay.DuplicateCheck l2 = None.
Proof.
  assert (Hnodel : Replay.DELETED ∉ Replay.rooms replayList).
  { apply (bool_decide_unpack _). vm_compute. exact I. }
  destruct (Delete_Insert_move replayList 1 3 "!b" eq_refl Hnodel)
    as (l1 & l2 & Hdel & Hins & Hrooms & _ & _ & Hdup); [vm_compute; lia|vm_compute; lia|].
  exists l1, l2. split_and!; [exact Hdel|exact Hins|exact Hrooms|].
  apply Hdup; apply (bool_decide_unpack _); vm_compute; exact I.
Defined.

(** * The room matchers *)

Section Matchers.

Import Match.

Lemma find_none_iff {A} (f : A → bool) (l : list A) :
  List.find f l = None ↔ ∀ x, x ∈ l → f x = false.
Proof.
  induction l as [|a l IH]; cbn.
  - split; [|done]. by intros _ x ?%elem_of_nil.
  - destruct (f a) eqn:Ha.
    + split; [done|]. intros H. rewrite H in Ha; [done|by left].
    + rewrite IH. split.
      * intros H x [->|?]%elem_of_cons; [done|by apply H].
      * intros H x Hx. apply H. by right.
Qed.

Lemma find_lookup_none {A} `{EqDecision A} (l1 l2 : list A) :
  length l1 = length l2 →
  List.find (λ i, negb (bool_decide (l1 !! i = l2 !! i))) (seq 0 (length l1)) = None
  ↔ l1 = l2.
Proof.
  intros Hlen. rewrite find_none_iff. split.
  - intros H. apply list_eq. intros i.
    destruct (decide (i < length l1)%nat) as [Hi|Hi].
    + specialize (H i). rewrite negb_false_iff, bool_decide_eq_true in H.
      apply H, elem_of_seq. lia.
    + rewrite !lookup_ge_None_2 by lia. done.
  - intros -> i _. rewrite negb_false_iff. by apply bool_decide_eq_true.
Qed.

(** X27.  [MatchRoomRequiredState] passes exactly when the room has as
    many required-state events as wanted and every wanted event is among
    them.  When the wanted events are pairwise distinct this is equality
    up to order; with a repeated wanted event it is not: a room with two
    different events passes for a wanted list that names one of them
    twice. *)
Theorem MatchRoomRequiredState_spec (events : list Conn.RawMessage) (r : Conn.Room) :
  (MatchRoomRequiredState events r = None
   ↔ length (Conn.room_RequiredState r) = length events ∧
     ∀ e, e ∈ events → e ∈ Conn.room_RequiredState r) ∧
  (NoDup events →
   MatchRoomRequiredState events r = None ↔ Conn.room_RequiredState r ≡ₚ events) ∧
  (∀ e x, Conn.room_RequiredState r = [e; x] → MatchRoomRequiredState [e; e] r = None).
Proof.
  assert (Hspec : MatchRoomRequiredState events r = None
                  ↔ length (Conn.room_RequiredState r) = length events ∧
                    ∀ e, e ∈ events → e ∈ Conn.room_RequiredState r).
  { unfold MatchRoomRequiredState.
    destruct (decide (length (Conn.room_RequiredState r) ≠ length events)) as [Hne|Heq].
    - split; [done|]. by intros [? _].
    - apply dec_stable in Heq.
      destruct (List.find _ events) as [want|] eqn:Hfind.
      + split; [done|]. intros [_ Hall].
        assert (List.find (λ want,
                  negb (existsb (λ got, bool_decide (got = want))
                                (Conn.room_RequiredState r))) events = None) as Hn.
        { apply find_none_iff. intros e He. apply negb_false_iff, existsb_exists.
          exists e. split; [by apply list_elem_of_In, Hall|by apply bool_decide_eq_true]. }
        by rewrite Hn in Hfind.
      + split; [|done]. intros _. split; [done|]. intros e He.
        pose proof (proj1 (find_none_iff _ _) Hfind e He) as Hf.
        apply negb_false_iff, existsb_exists in Hf as (got & Hin & Heq').
        apply bool_decide_eq_true in Heq' as ->. by apply list_elem_of_In. }
  split_and!; [exact Hspec| |].
  - intros Hnd. rewrite Hspec. split.
    + intros [Hlen Hall]. symmetry. apply submseteq_length_Permutation; [|lia].
      by apply NoDup_submseteq.
    + intros Hperm. split; [by rewrite Hperm|]. intros e He. by rewrite Hperm.
  - intros e x Hr. unfold MatchRoomRequiredState. rewrite Hr. cbn.
    rewrite bool_decide_eq_true_2 by done. done.
Qed.

(** [MatchRoomTimelineMostRecent] for a count within the events. *)
Lemma MatchRoomTimelineMostRecent_nat (n : nat) (events : list Conn.RawMessage) :
  (n ≤ length events)%nat →
  ∃ matcher,
    MatchRoomTimelineMostRecent (Z.of_nat n) events = Some matcher ∧
    (∀ r, matcher r = None
          ↔ (n ≤ length (elems (Conn.room_Timeline r)))%nat ∧
            drop (length (elems (Conn.room_Timeline r)) - n) (elems (Conn.room_Timeline r))
            = drop (length events - n) events) ∧
    (n = length events → ∀ r, MatchRoomTimeline events r = None → matcher r = None).
Proof.
  intros Hn. unfold MatchRoomTimelineMostRecent. rewrite decide_True by lia.
  eexists. split; [reflexivity|].
  replace (Z.to_nat (Z.of_nat (length events) - Z.of_nat n))
    with (length events - n)%nat by lia.
  assert (Hmain : ∀ r,
    (let timeline := elems (Conn.room_Timeline r) in
     if decide (length timeline < length (drop (length events - n) events))%nat
     then Some ("timeline length mismatch: got " +:+ pretty (Z.of_nat (length timeline))
                +:+ " want at least "
                +:+ pretty (Z.of_nat (length (drop (length events - n) events))))
     else
       let gotSubset := drop (Z.to_nat (Z.of_nat (length timeline) - Z.of_nat n)) timeline in
       match List.find (λ i, negb (bool_decide (gotSubset !! i
                                  = drop (length events - n) events !! i)))
                       (seq 0 (length gotSubset)) with
       | Some i =>
         Some ("timeline[" +:+ pretty (Z.of_nat i) +:+ "]" +:+ newline +:+ "got  "
               +:+ default "" (timeline !! i) +:+ " " +:+ newline +:+ "want "
               +:+ default "" (events !! i))
       | None => None
       end) = None
    ↔ (n ≤ length (elems (Conn.room_Timeline r)))%nat ∧
      drop (length (elems (Conn.room_Timeline r)) - n) (elems (Conn.room_Timeline r))
      = drop (length events - n) events).
  { intros r. cbv zeta. set (timeline := elems (Conn.room_Timeline r)).
    rewrite length_drop.
    destruct (decide (length timeline < length events - (length events - n))%nat).
    - split; [done|]. intros [? _]. lia.
    - replace (Z.to_nat (Z.of_nat (length timeline) - Z.of_nat n))
        with (length timeline - n)%nat by lia.
      assert (Hlen : length (drop (length timeline - n) timeline)
                     = length (drop (length events - n) events)).
      { rewrite !length_drop. lia. }
      pose proof (find_lookup_none _ _ Hlen) as Hfind.
      destruct (List.find _ _) as [i|].
      + split; [done|]. intros [_ Heq]. by apply Hfind in Heq.
      + split; [|done]. intros _. split; [lia|]. by apply Hfind. }
  split; [exact Hmain|].
  intros -> r Hm. apply Hmain. unfold MatchRoomTimeline in Hm. cbv zeta in Hm.
  destruct (decide (length (elems (Conn.room_Timeline r)) ≠ length events)) as [|Heq];
    [done|].
  apply dec_stable in Heq.
  pose proof (find_lookup_none _ _ Heq) as Hfind.
  destruct (List.find _ _) as [i|]; [done|].
  split; [lia|]. rewrite Heq, Nat.sub_diag. cbn [drop]. by apply Hfind.
Qed.

(** X28.  [MatchRoomTimelineMostRecent n events] panics when it is built
    exactly when [n] is negative or more than the number of events.
    Otherwise the matcher passes exactly when the timeline has at least
    [n] events and its last [n] are the last [n] of [events], in order;
    for [n] the number of events, it passes whenever [MatchRoomTimeline]
    does. *)
Theorem MatchRoomTimelineMostRecent_spec (n : Z) (events : list Conn.RawMessage) :
  (MatchRoomTimelineMostRecent n events = None
   ↔ ¬ (0 ≤ n ≤ Z.of_nat (length events))) ∧
  (∀ matcher r, MatchRoomTimelineMostRecent n events = Some matcher →
     (matcher r = None
      ↔ n ≤ Z.of_nat (length (elems (Conn.room_Timeline r))) ∧
        drop (Z.to_nat (Z.of_nat (length (elems (Conn.room_Timeline r))) - n))
             (elems (Conn.room_Timeline r))
        = drop (Z.to_nat (Z.of_nat (length events) - n)) events) ∧
     (n = Z.of_nat (length events) →
      MatchRoomTimeline events r = None → matcher r = None)).
Proof.
  split.
  - unfold MatchRoomTimelineMostRecent. destruct (decide _); split; try done; lia.
  - intros matcher r Hm.
    destruct (decide (0 ≤ n ≤ Z.of_nat (length events))) as [Hn|Hn].
    + destruct (MatchRoomTimelineMostRecent_nat (Z.to_nat n) events)
        as (matcher' & Hm' & Hspec & Hfull); [lia|].
      rewrite Z2Nat.id in Hm' by lia. rewrite Hm' in Hm. injection Hm as <-.
      split.
      * rewrite Hspec.
        replace (length (elems (Conn.room_Timeline r)) - Z.to_nat n)%nat
          with (Z.to_nat (Z.of_nat (length (elems (Conn.room_Timeline r))) - n)) by lia.
        replace (length events - Z.to_nat n)%nat
          with (Z.to_nat (Z.of_nat (length events) - n)) by lia.
        split; intros [? ?]; (split; [lia|done]).
      * intros ->. apply Hfull. lia.
    + unfold MatchRoomTimelineMostRecent in Hm. rewrite decide_False in Hm by lia. done.
Qed.

End Matchers.
